(** * libosmium: PBF block decoding and the relation collector

    A shallow embedding of
      - include/osmium/io/detail/pbf_input_format.hpp
        (PBFPrimitiveBlockParser, InputQueueReader, BlobParser,
         HeaderBlobParser, DataBlobParser, PBFInputFormat), and
      - include/osmium/relations/collector.hpp (Collector and its two
        handlers), and
      - include/osmium/io/reader.hpp (open_input_file_or_url),
    followed by the properties of the specification that concern them.

    Conventions.  C++ [int64_t]/[int32_t] values are integers of [Z] kept in
    range by an explicit two's complement wrap after every arithmetic
    operation.  Code that can throw, trip an [assert] or index a repeated
    protobuf field out of range lives in the [outcome] monad.  Loops over
    [0 .. size) are [for_loop]s. *)

From Stdlib Require Import ZArith List Lia Bool String DecimalString.
From Stdlib Require DecimalZ DecimalPos.
From stdpp Require Import base list gmap strings sorting.
Import ListNotations.
Open Scope Z_scope.

(** ** Machine integers *)

Module Int.

(** Signed [w]-bit wrap-around. *)
Definition wrap (w : Z) (z : Z) : Z :=
  (z + 2 ^ (w - 1)) mod 2 ^ w - 2 ^ (w - 1).

Definition wrap32 : Z -> Z := wrap 32.
Definition wrap64 : Z -> Z := wrap 64.

(** Unsigned 32-bit truncation ([static_cast<uint32_t>]). *)
Definition uwrap32 (z : Z) : Z := z mod 2 ^ 32.

Definition in_int32 (z : Z) : Prop := - 2 ^ 31 <= z < 2 ^ 31.
Definition in_int64 (z : Z) : Prop := - 2 ^ 63 <= z < 2 ^ 63.

(** [int64_t] arithmetic.  [/] truncates toward zero in C++. *)
Definition add64 (a b : Z) : Z := wrap64 (a + b).
Definition mul64 (a b : Z) : Z := wrap64 (a * b).
Definition div64 (a b : Z) : Z := wrap64 (Z.quot a b).

(** [int] arithmetic. *)
Definition div32 (a b : Z) : Z := wrap32 (Z.quot a b).

End Int.

(** ** Outcomes of a call *)

(** The [what] of every [osmium::pbf_error] thrown in pbf_input_format.hpp. *)
Inductive pbf_what : Type :=
| failed_to_parse_PrimitiveBlock
| group_of_unknown_type
| invalid_blob_size (size : Z)
| truncated_data_EOF_encountered
| failed_to_parse_blob
| lzma_blobs_not_implemented
| blob_contains_no_data
| failed_to_parse_HeaderBlock
| required_feature_not_supported (feature : string)
| invalid_BlobHeader_size
| read_error
| failed_to_parse_BlobHeader
| blob_does_not_have_expected_type.

Inductive exception : Type :=
| io_error (what : string)
    (* osmium::io_error other than pbf_error, from the codecs *)
| pbf_error (what : pbf_what)
    (* osmium::pbf_error, derived from io_error *)
| bad_array_new_length.
    (* std::bad_array_new_length (a std::bad_alloc), thrown by the
       expression [new T[n]] when [n] is negative *)

Inductive outcome (A : Type) : Type :=
| Ok (a : A)             (* normal return *)
| Throw (e : exception)  (* a C++ exception leaves the call *)
| AssertFail             (* an assert() failed: the process aborts *)
| Undefined.             (* undefined behaviour: index out of range *)

Arguments Ok {A} a.
Arguments Throw {A} e.
Arguments AssertFail {A}.
Arguments Undefined {A}.

Definition bind {A B : Type} (m : outcome A) (f : A -> outcome B)
  : outcome B :=
  match m with
  | Ok a => f a
  | Throw e => Throw e
  | AssertFail => AssertFail
  | Undefined => Undefined
  end.

Definition outcome_map {A B : Type} (f : A -> B) (m : outcome A) : outcome B :=
  bind m (fun a => Ok (f a)).

Notation "'let*' x ':=' m 'in' k" := (bind m (fun x => k))
  (at level 10, x name, m at level 100, k at level 200).

(** [assert(b)]; compiling with NDEBUG turns every assert into nothing. *)
Definition assert (NDEBUG : bool) (b : bool) : outcome unit :=
  if NDEBUG then Ok tt else if b then Ok tt else AssertFail.

(** [for (int i = lo; i < lo + n; ++i) s = body(i, s);] *)
Fixpoint for_loop {S : Type} (lo : nat) (n : nat)
    (body : nat -> S -> outcome S) (s : S) : outcome S :=
  match n with
  | O => Ok s
  | Datatypes.S n' =>
      let* s' := body lo s in for_loop (Datatypes.S lo) n' body s'
  end.

(** Element [i] of a protobuf repeated field; reading past the end is
    undefined. *)
Definition get {A : Type} (l : list A) (i : nat) : outcome A :=
  match l !! i with
  | Some a => Ok a
  | None => Undefined
  end.

(** ** Wire messages *)

(** Modelled from the spec: the messages of the OSM-PBF schema (spec 6.1)
    as the classes generated from it expose them.  The generated code and
    osmium/io/detail/pbf.hpp are not part of the sources at hand; the
    fields carry the names of the accessors the parser calls, a repeated
    field is a list and an optional message an option. *)
Module OSMPBF.

(** Modelled from the spec: the constants of osmium/io/detail/pbf.hpp,
    which is not part of the sources at hand (spec 4.1, 4.2, 6.1, 6.2):
    nanodegree resolution 10^9, at most 64 KiB of blob header and at most
    32 MiB of blob. *)
Definition lonlat_resolution : Z := 1000 * 1000 * 1000.
Definition max_blob_header_size : Z := 64 * 1024.
Definition max_uncompressed_blob_size : Z := 32 * 1024 * 1024.

Record Info : Type := {
  info_version : Z;             (* int32 *)
  info_timestamp : Z;           (* int64 *)
  info_changeset : Z;           (* int64 *)
  info_uid : Z;                 (* int32 *)
  info_user_sid : Z;            (* uint32 *)
  info_visible : option bool    (* has_visible / visible *)
}.

Record Node : Type := {
  node_id : Z;
  node_keys : list Z;
  node_vals : list Z;
  node_info : option Info;
  node_lat : Z;
  node_lon : Z
}.

Record Way : Type := {
  way_id : Z;
  way_keys : list Z;
  way_vals : list Z;
  way_info : option Info;
  way_refs : list Z             (* sint64, delta coded *)
}.

Inductive MemberType : Type := NODE | WAY | RELATION.

Record Relation : Type := {
  relation_id : Z;
  relation_keys : list Z;
  relation_vals : list Z;
  relation_info : option Info;
  roles_sid : list Z;
  memids : list Z;              (* sint64, delta coded *)
  types : list MemberType
}.

Record DenseInfo : Type := {
  di_version : list Z;          (* int32, absolute *)
  di_timestamp : list Z;        (* sint64, delta coded *)
  di_changeset : list Z;        (* sint64, delta coded *)
  di_uid : list Z;              (* sint32, delta coded *)
  di_user_sid : list Z;         (* sint32, delta coded *)
  di_visible : list bool
}.

Record DenseNodes : Type := {
  dense_id : list Z;            (* sint64, delta coded *)
  denseinfo : option DenseInfo;
  dense_lat : list Z;           (* sint64, delta coded *)
  dense_lon : list Z;           (* sint64, delta coded *)
  keys_vals : list Z            (* int32 *)
}.

Record PrimitiveGroup : Type := {
  nodes : list Node;
  dense : option DenseNodes;
  ways : list Way;
  relations : list Relation
}.

(** The optional scalar fields carry the defaults of the schema:
    granularity 100, offsets 0, date_granularity 1000. *)
Record PrimitiveBlock : Type := {
  stringtable : list string;
  primitivegroup : list PrimitiveGroup;
  opt_granularity : option Z;       (* int32 *)
  opt_lat_offset : option Z;        (* int64 *)
  opt_lon_offset : option Z;        (* int64 *)
  opt_date_granularity : option Z   (* int32 *)
}.

Definition granularity (b : PrimitiveBlock) : Z :=
  default 100 (opt_granularity b).
Definition lat_offset (b : PrimitiveBlock) : Z :=
  default 0 (opt_lat_offset b).
Definition lon_offset (b : PrimitiveBlock) : Z :=
  default 0 (opt_lon_offset b).
Definition date_granularity (b : PrimitiveBlock) : Z :=
  default 1000 (opt_date_granularity b).

Record BlobHeader : Type := {
  bh_type : string;
  bh_datasize : Z               (* int32 *)
}.

Record Blob : Type := {
  blob_raw : option (list Byte.byte);
  blob_raw_size : Z;            (* int32, 0 when absent *)
  blob_zlib_data : option (list Byte.byte);
  blob_lzma_data : option (list Byte.byte)
}.

(** The Blob that no bytes parse to: every field absent. *)
Definition Blob_empty : Blob :=
  {| blob_raw := None; blob_raw_size := 0; blob_zlib_data := None;
     blob_lzma_data := None |}.

Record HeaderBBox : Type := {
  bbox_left : Z; bbox_right : Z; bbox_top : Z; bbox_bottom : Z
}.

Record HeaderBlock : Type := {
  hb_bbox : option HeaderBBox;
  required_features : list string;
  optional_features : list string;
  writingprogram : option string;
  osmosis_replication_timestamp : option Z;
  osmosis_replication_sequence_number : option Z;
  osmosis_replication_base_url : option string
}.

End OSMPBF.

(** ** Decoded entities *)

Module osmium.

Inductive item_type : Type := node | way | relation.

(** Modelled from the spec: osmium::Location of osmium/osm/location.hpp,
    which is not part of the sources at hand (spec 3 and 6.2): two 32 bit
    fixed-point coordinates at precision 10^7, the undefined location
    being a reserved sentinel.  The constructor is handed 64 bit values
    and narrows them. *)
Record Location : Type := { x : Z; y : Z }.

Definition coordinate_precision : Z := 10000000.
Definition undefined_coordinate : Z := 2147483647.
Definition Location_undefined : Location :=
  {| x := undefined_coordinate; y := undefined_coordinate |}.
Definition Location_of (lon lat : Z) : Location :=
  {| x := Int.wrap32 lon; y := Int.wrap32 lat |}.

(** Modelled from the spec: osmium::Object of osmium/osm/object.hpp, which
    is not part of the sources at hand (spec 3, Entities, and 4.4): the
    attributes common to all objects.  A fresh object is visible,
    everything else is zero or empty; the uid is kept signed. *)
Record Object : Type := {
  id : Z;
  version : Z;                  (* object_version_type: uint32 *)
  changeset : Z;                (* changeset_id_type: uint32 *)
  timestamp : Z;
  uid : Z;
  visible : bool;
  user : string
}.

Definition Object_new : Object :=
  {| id := 0; version := 0; changeset := 0; timestamp := 0; uid := 0;
     visible := true; user := EmptyString |}.

Definition Tag : Type := (string * string)%type.

Record RelationMember : Type := {
  member_type : item_type;
  member_ref : Z;
  member_role : string
}.

Record Node : Type := {
  n_object : Object; n_location : Location; n_tags : list Tag
}.

Record Way : Type := {
  w_object : Object; w_nodes : list Z; w_tags : list Tag
}.

Record Relation : Type := {
  r_object : Object; r_members : list RelationMember; r_tags : list Tag
}.

(** An item of a buffer: an osmium::Object of one of the three kinds. *)
Inductive Entity : Type :=
| a_node (n : Node)
| a_way (w : Way)
| a_relation (r : Relation).

Definition object (e : Entity) : Object :=
  match e with
  | a_node n => n_object n
  | a_way w => w_object w
  | a_relation r => r_object r
  end.

Definition type (e : Entity) : item_type :=
  match e with
  | a_node _ => node
  | a_way _ => way
  | a_relation _ => relation
  end.

Definition tags (e : Entity) : list Tag :=
  match e with
  | a_node n => n_tags n
  | a_way w => w_tags w
  | a_relation r => r_tags r
  end.

(** osm_entity_bits: which kinds the caller asked for. *)
Record entity_bits : Type := {
  want_node : bool; want_way : bool; want_relation : bool
}.

Definition all : entity_bits :=
  {| want_node := true; want_way := true; want_relation := true |}.

End osmium.

(** ** PBFPrimitiveBlockParser *)

Module PBFPrimitiveBlockParser.

Import OSMPBF osmium.

(** The members the constructor leaves to [operator()] to fill in; the
    output buffer [m_buffer] is threaded through the group parsers as the
    list of committed entities. *)
Record t : Type := {
  m_stringtable : list string;
  m_lon_offset : Z;             (* int64 *)
  m_lat_offset : Z;             (* int64 *)
  m_date_factor : Z;            (* int64 *)
  m_granularity : Z;            (* int32 *)
  m_read_types : entity_bits
}.

Section WithAsserts.

(** Whether the translation unit is compiled with NDEBUG. *)
Variable NDEBUG : bool.

(** Modelled from the spec: static_cast_with_assert of
    osmium/util/cast.hpp, which is not part of the sources at hand.  The
    spec types version and changeset as u32 (spec 3, Entities); the
    cast asserts that the value fits the target type and narrows. *)
Definition static_cast_with_assert_uint32 (v : Z) : outcome Z :=
  let* _ := assert NDEBUG ((0 <=? v) && (v <? 2 ^ 32)) in
  Ok (Int.uwrap32 v).

Definition static_cast_with_assert_int (v : Z) : outcome Z :=
  let* _ := assert NDEBUG ((- 2 ^ 31 <=? v) && (v <? 2 ^ 31)) in
  Ok (Int.wrap32 v).

Variable p : t.

(** [m_stringtable->s(i)] *)
Definition s (i : Z) : outcome string :=
  if i <? 0 then Undefined else get (m_stringtable p) (Z.to_nat i).

Definition parse_attributes (pbf_id : Z) (pbf_info : option Info)
  : outcome Object :=
  match pbf_info with
  | Some info =>
      let* v := static_cast_with_assert_uint32 (info_version info) in
      let* c := static_cast_with_assert_uint32 (info_changeset info) in
      let ts := Int.mul64 (info_timestamp info) (m_date_factor p) in
      let vis := default (visible Object_new) (info_visible info) in
      let* sid := static_cast_with_assert_int (info_user_sid info) in
      let* u := s sid in
      Ok {| id := pbf_id; version := v; changeset := c; timestamp := ts;
            uid := info_uid info; visible := vis; user := u |}
  | None =>
      Ok {| id := pbf_id; version := version Object_new;
            changeset := changeset Object_new;
            timestamp := timestamp Object_new;
            uid := uid Object_new; visible := visible Object_new;
            user := EmptyString |}
  end.

(** [OSMPBF::lonlat_resolution / osmium::Location::coordinate_precision] *)
Definition resolution_convert : Z :=
  Int.div64 lonlat_resolution coordinate_precision.

(** [(raw * m_granularity + offset) / resolution_convert] *)
Definition coordinate (raw offset : Z) : Z :=
  Int.div64 (Int.add64 (Int.mul64 raw (m_granularity p)) offset)
            resolution_convert.

Definition make_location (lon lat : Z) : Location :=
  Location_of (coordinate lon (m_lon_offset p))
              (coordinate lat (m_lat_offset p)).

(** The TagListBuilder loop shared by nodes, ways and relations. *)
Definition parse_tags (keys vals : list Z) : outcome (list Tag) :=
  for_loop 0 (length keys)
    (fun tag tl =>
       let* k := get keys tag in
       let* v := get vals tag in
       let* ks := s (Int.wrap32 k) in
       let* vs := s (Int.wrap32 v) in
       Ok (tl ++ [(ks, vs)]))
    [].

Definition parse_node_group (group : PrimitiveGroup)
    (m_buffer : list Entity) : outcome (list Entity) :=
  for_loop 0 (length (nodes group))
    (fun i buf =>
       let* pbf_node := get (nodes group) i in
       let* o := parse_attributes (node_id pbf_node) (node_info pbf_node) in
       let loc :=
         if visible o
         then make_location (node_lon pbf_node) (node_lat pbf_node)
         else Location_undefined in
       let* tl := parse_tags (node_keys pbf_node) (node_vals pbf_node) in
       Ok (buf ++ [a_node {| n_object := o; n_location := loc;
                              n_tags := tl |}]))
    m_buffer.

(** [int64_t ref = 0; for (n) { ref += refs(n); add_node_ref(ref); }] *)
Definition parse_refs (refs : list Z) : outcome (list Z) :=
  outcome_map snd (for_loop 0 (length refs)
    (fun n (st : Z * list Z) =>
       let* d := get refs n in
       let ref := Int.add64 (fst st) d in
       Ok (ref, snd st ++ [ref]))
    (0, [])).

Definition parse_way_group (group : PrimitiveGroup)
    (m_buffer : list Entity) : outcome (list Entity) :=
  for_loop 0 (length (ways group))
    (fun i buf =>
       let* pbf_way := get (ways group) i in
       let* o := parse_attributes (way_id pbf_way) (way_info pbf_way) in
       let* wnl := parse_refs (way_refs pbf_way) in
       let* tl := parse_tags (way_keys pbf_way) (way_vals pbf_way) in
       Ok (buf ++ [a_way {| w_object := o; w_nodes := wnl;
                             w_tags := tl |}]))
    m_buffer.

Definition osmpbf_membertype_to_item_type (mt : MemberType) : item_type :=
  match mt with
  | NODE => node
  | WAY => way
  | RELATION => relation
  end.

(** The member loop runs over [types_size()]. *)
Definition parse_members (pbf_relation : OSMPBF.Relation)
  : outcome (list RelationMember) :=
  outcome_map snd (for_loop 0 (length (types pbf_relation))
    (fun n (st : Z * list RelationMember) =>
       let* d := get (memids pbf_relation) n in
       let ref := Int.add64 (fst st) d in
       let rml := snd st in
       let* ty := get (types pbf_relation) n in
       let* sid := get (roles_sid pbf_relation) n in
       let* role := s sid in
       Ok (ref, rml ++ [{| member_type := osmpbf_membertype_to_item_type ty;
                           member_ref := ref;
                           member_role := role |}]))
    (0, [])).

Definition parse_relation_group (group : PrimitiveGroup)
    (m_buffer : list Entity) : outcome (list Entity) :=
  for_loop 0 (length (relations group))
    (fun i buf =>
       let* pbf_relation := get (relations group) i in
       let* o := parse_attributes (relation_id pbf_relation)
                                  (relation_info pbf_relation) in
       let* rml := parse_members pbf_relation in
       let* tl := parse_tags (relation_keys pbf_relation)
                             (relation_vals pbf_relation) in
       Ok (buf ++ [a_relation {| r_object := o; r_members := rml;
                                  r_tags := tl |}]))
    m_buffer.

(** The [while (n < dense.keys_vals_size())] loop of [add_tags].  Every
    round advances [n], so [fuel] rounds with
    [length kv <= n + fuel] always reach the loop exit. *)
Fixpoint add_tags_while (fuel : nat) (kv : list Z) (n : nat)
    (tl : list Tag) : outcome (nat * list Tag) :=
  if (n <? length kv)%nat then
    match fuel with
    | O => Undefined
    | Datatypes.S fuel' =>
        let* tag_key_pos := get kv n in
        let n := Datatypes.S n in
        if tag_key_pos =? 0 then Ok (n, tl)
        else
          let* k := s tag_key_pos in
          let* vsid := get kv n in
          let* v := s vsid in
          add_tags_while fuel' kv (Datatypes.S n) (tl ++ [(k, v)])
    end
  else Ok (n, tl).

(** Returns the new cursor and the tags added to the node. *)
Definition add_tags (dense : DenseNodes) (n : nat)
  : outcome (nat * list Tag) :=
  let kv := keys_vals dense in
  if (length kv <=? n)%nat then Ok (n, [])
  else
    let* k0 := get kv n in
    if k0 =? 0 then Ok (Datatypes.S n, [])
    else add_tags_while (length kv) kv n [].

(** The local variables of [parse_dense_node_group]. *)
Record dense_locals : Type := {
  last_dense_id : Z;
  last_dense_latitude : Z;
  last_dense_longitude : Z;
  last_dense_uid : Z;
  last_dense_user_sid : Z;
  last_dense_changeset : Z;
  last_dense_timestamp : Z;
  last_dense_tag : nat
}.

Definition dense_locals_init : dense_locals :=
  {| last_dense_id := 0; last_dense_latitude := 0;
     last_dense_longitude := 0; last_dense_uid := 0;
     last_dense_user_sid := 0; last_dense_changeset := 0;
     last_dense_timestamp := 0; last_dense_tag := 0 |}.

(** The first part of a round of [parse_dense_node_group] (lines 304 to
    322 of the source): advance the accumulators and check them. *)
Definition dense_advance (dense : DenseNodes) (i : nat) (l : dense_locals)
  : outcome (dense_locals * bool) :=
  let* d_id := get (dense_id dense) i in
  let* d_lat := get (dense_lat dense) i in
  let* d_lon := get (dense_lon dense) i in
  let id' := Int.add64 (last_dense_id l) d_id in
  let lat' := Int.add64 (last_dense_latitude l) d_lat in
  let lon' := Int.add64 (last_dense_longitude l) d_lon in
  match denseinfo dense with
  | Some di =>
      let* d_cs := get (di_changeset di) i in
      let* d_ts := get (di_timestamp di) i in
      let* d_uid := get (di_uid di) i in
      let* d_usid := get (di_user_sid di) i in
      let cs' := Int.add64 (last_dense_changeset l) d_cs in
      let ts' := Int.add64 (last_dense_timestamp l) d_ts in
      let uid' := Int.add64 (last_dense_uid l) d_uid in
      let usid' := Int.add64 (last_dense_user_sid l) d_usid in
      let* vis := (if (0 <? length (di_visible di))%nat
                   then get (di_visible di) i else Ok true) in
      let* _ := assert NDEBUG (0 <=? cs') in
      let* _ := assert NDEBUG (0 <=? ts') in
      let* _ := assert NDEBUG (-1 <=? uid') in
      let* _ := assert NDEBUG (0 <=? usid') in
      Ok ({| last_dense_id := id'; last_dense_latitude := lat';
             last_dense_longitude := lon'; last_dense_uid := uid';
             last_dense_user_sid := usid'; last_dense_changeset := cs';
             last_dense_timestamp := ts';
             last_dense_tag := last_dense_tag l |}, vis)
  | None =>
      Ok ({| last_dense_id := id'; last_dense_latitude := lat';
             last_dense_longitude := lon';
             last_dense_uid := last_dense_uid l;
             last_dense_user_sid := last_dense_user_sid l;
             last_dense_changeset := last_dense_changeset l;
             last_dense_timestamp := last_dense_timestamp l;
             last_dense_tag := last_dense_tag l |}, true)
  end.

(** The second part (lines 324 to 340): the attributes of the node from
    the accumulators. *)
Definition dense_object (dense : DenseNodes) (i : nat) (l : dense_locals)
    (vis : bool) : outcome Object :=
  match denseinfo dense with
  | Some di =>
      let* v := get (di_version di) i in
      let* _ := assert NDEBUG (0 <? v) in
      let* u := s (Int.wrap32 (last_dense_user_sid l)) in
      Ok {| id := last_dense_id l; version := Int.uwrap32 v;
            changeset := Int.uwrap32 (last_dense_changeset l);
            timestamp :=
              Int.mul64 (last_dense_timestamp l) (m_date_factor p);
            uid := Int.wrap32 (last_dense_uid l);
            visible := vis; user := u |}
  | None =>
      Ok {| id := last_dense_id l; version := version Object_new;
            changeset := changeset Object_new;
            timestamp := timestamp Object_new;
            uid := uid Object_new; visible := visible Object_new;
            user := EmptyString |}
  end.

(** One round of the loop over [dense.id_size()]. *)
Definition dense_step (dense : DenseNodes) (i : nat)
    (st : dense_locals * list Entity)
  : outcome (dense_locals * list Entity) :=
  let* adv := dense_advance dense i (fst st) in
  let l := fst adv in
  let vis := snd adv in
  let* o := dense_object dense i l vis in
  let loc :=
    if vis
    then make_location (last_dense_longitude l) (last_dense_latitude l)
    else Location_undefined in
  let* nt := add_tags dense (last_dense_tag l) in
  Ok ({| last_dense_id := last_dense_id l;
         last_dense_latitude := last_dense_latitude l;
         last_dense_longitude := last_dense_longitude l;
         last_dense_uid := last_dense_uid l;
         last_dense_user_sid := last_dense_user_sid l;
         last_dense_changeset := last_dense_changeset l;
         last_dense_timestamp := last_dense_timestamp l;
         last_dense_tag := fst nt |},
      snd st ++ [a_node {| n_object := o; n_location := loc;
                           n_tags := snd nt |}]).

Definition parse_dense_node_group (dense : DenseNodes)
    (m_buffer : list Entity) : outcome (list Entity) :=
  outcome_map snd
    (for_loop 0 (length (dense_id dense)) (dense_step dense)
       (dense_locals_init, m_buffer)).

(** The dispatch on the kind of a group in [operator()]. *)
Definition parse_group (group : PrimitiveGroup) (m_buffer : list Entity)
  : outcome (list Entity) :=
  match dense group with
  | Some d =>
      if want_node (m_read_types p)
      then parse_dense_node_group d m_buffer else Ok m_buffer
  | None =>
      if negb (length (ways group) =? 0)%nat then
        if want_way (m_read_types p)
        then parse_way_group group m_buffer else Ok m_buffer
      else if negb (length (relations group) =? 0)%nat then
        if want_relation (m_read_types p)
        then parse_relation_group group m_buffer else Ok m_buffer
      else if negb (length (nodes group) =? 0)%nat then
        if want_node (m_read_types p)
        then parse_node_group group m_buffer else Ok m_buffer
      else Throw (pbf_error group_of_unknown_type)
  end.

End WithAsserts.

(** The members as [operator()] sets them from the parsed block. *)
Definition configure (read_types : entity_bits) (b : PrimitiveBlock) : t :=
  {| m_stringtable := stringtable b;
     m_lon_offset := lon_offset b;
     m_lat_offset := lat_offset b;
     m_date_factor := Int.div32 (date_granularity b) 1000;
     m_granularity := granularity b;
     m_read_types := read_types |}.

(** [operator()] once [ParseFromArray] has succeeded. *)
Definition parse_block (NDEBUG : bool) (read_types : entity_bits)
    (b : PrimitiveBlock) : outcome (list Entity) :=
  let p := configure read_types b in
  for_loop 0 (length (primitivegroup b))
    (fun i buf =>
       let* group := get (primitivegroup b) i in
       parse_group NDEBUG p group buf)
    [].

(** [operator()]: [ParsePrimitiveBlock] stands for the generated
    [OSMPBF::PrimitiveBlock::ParseFromArray]. *)
Definition call (NDEBUG : bool)
    (ParsePrimitiveBlock : list Byte.byte -> option PrimitiveBlock)
    (read_types : entity_bits) (m_data : list Byte.byte)
  : outcome (list Entity) :=
  match ParsePrimitiveBlock m_data with
  | None => Throw (pbf_error failed_to_parse_PrimitiveBlock)
  | Some b => parse_block NDEBUG read_types b
  end.

End PBFPrimitiveBlockParser.

(** ** The input queue and the blob parsers *)

(** [s.c_str()] as a C string: the characters before the first NUL. *)
Fixpoint c_str (s : string) : string :=
  match s with
  | EmptyString => EmptyString
  | String c s' =>
      if Ascii.eqb c Ascii.zero then EmptyString else String c (c_str s')
  end.

(** [std::strcmp(a, b) != 0] *)
Definition strcmp_differs (a b : string) : bool :=
  negb (String.eqb (c_str a) (c_str b)).

(** [std::to_string] of an integer. *)
Definition to_string (z : Z) : string := NilZero.string_of_int (Z.to_int z).

Module InputQueueReader.

(** [m_queue] holds, in order, the strings the read thread pushes; the
    read thread ends its output with an empty string, so an empty string
    in the list, or the end of the list, is the end of the input. *)
Record t : Type := {
  m_queue : list (list Byte.byte);
  m_buffer : list Byte.byte
}.

Definition of_queue (q : list (list Byte.byte)) : t :=
  {| m_queue := q; m_buffer := [] |}.

(** [while (m_buffer.size() < size)]: pop until enough bytes are buffered;
    [false] when the end of the input comes first. *)
Fixpoint fill (size : nat) (q : list (list Byte.byte))
    (buf : list Byte.byte) : bool * t :=
  if (length buf <? size)%nat then
    match q with
    | [] => (false, {| m_queue := []; m_buffer := buf |})
    | new_data :: q' =>
        match new_data with
        | [] => (false, {| m_queue := q'; m_buffer := buf |})
        | _ :: _ => fill size q' (buf ++ new_data)
        end
    end
  else (true, {| m_queue := q; m_buffer := buf |}).

(** [operator()(data, size)]: the bytes copied to [data], if any, and the
    reader afterwards. *)
Definition call (r : t) (size : nat) : option (list Byte.byte) * t :=
  let '(ok, r') := fill size (m_queue r) (m_buffer r) in
  if ok
  then (Some (take size (m_buffer r')),
        {| m_queue := m_queue r'; m_buffer := drop size (m_buffer r') |})
  else (None, r').

End InputQueueReader.

(** Modelled from the spec: osmium::io::Header of osmium/io/header.hpp,
    which is not part of the sources at hand (spec 4.3), as far as the
    header parser writes it: the options are a map from string to string,
    and a box is kept as the locations it was extended by. *)
Module Header.

Record t : Type := {
  options : gmap string string;
  boxes : list (list osmium.Location);
  has_multiple_object_versions : bool
}.

Definition empty : t :=
  {| options := ∅; boxes := []; has_multiple_object_versions := false |}.

Definition set (h : t) (key value : string) : t :=
  {| options := <[key := value]> (options h); boxes := boxes h;
     has_multiple_object_versions := has_multiple_object_versions h |}.

Definition set_has_multiple_object_versions (h : t) (b : bool) : t :=
  {| options := options h; boxes := boxes h;
     has_multiple_object_versions := b |}.

Definition add_box (h : t) (box : list osmium.Location) : t :=
  {| options := options h; boxes := boxes h ++ [box];
     has_multiple_object_versions := has_multiple_object_versions h |}.

End Header.

Module BlobParser.

Import OSMPBF.

Record t : Type := {
  m_input_buffer : list Byte.byte;
  m_size : Z;                   (* int *)
  m_blob_num : Z                (* int *)
}.

(** [new unsigned char[size]] with an [int size]: a negative size throws
    before anything is allocated.  Memory is taken to suffice for a
    non-negative one. *)
Definition new_unsigned_char_array (size : Z) : outcome unit :=
  if size <? 0 then Throw bad_array_new_length else Ok tt.

(** The constructor: the member initialisers in declaration order, then
    the body.  The reader is a reference, so its state is returned on
    every exit. *)
Definition new (size blob_num : Z) (input_queue_reader : InputQueueReader.t)
  : outcome t * InputQueueReader.t :=
  match new_unsigned_char_array size with
  | Ok _ =>
      if (size <? 0) || (max_uncompressed_blob_size <? size) then
        (Throw (pbf_error (invalid_blob_size size)), input_queue_reader)
      else
        match InputQueueReader.call input_queue_reader (Z.to_nat size) with
        | (Some data, r') =>
            (Ok {| m_input_buffer := data; m_size := size;
                   m_blob_num := blob_num |}, r')
        | (None, r') =>
            (Throw (pbf_error truncated_data_EOF_encountered), r')
        end
  | Throw e => (Throw e, input_queue_reader)
  | AssertFail => (AssertFail, input_queue_reader)
  | Undefined => (Undefined, input_queue_reader)
  end.

Section Dispatch.

Variable NDEBUG : bool.
(** [OSMPBF::Blob::ParseFromArray], and [zlib_uncompress] of
    osmium/io/detail/zlib.hpp, which returns the unpacked bytes or
    throws an io_error with the message given. *)
Variable ParseBlob : list Byte.byte -> option Blob.
Variable zlib_uncompress : list Byte.byte -> Z -> string + list Byte.byte.

(** [doit()] and [operator()()] differ in the return type of
    [handle_blob] only. *)
Definition dispatch {R : Type}
    (handle_blob : list Byte.byte -> outcome R) (bp : t) : outcome R :=
  match ParseBlob (m_input_buffer bp) with
  | None => Throw (pbf_error failed_to_parse_blob)
  | Some pbf_blob =>
      match blob_raw pbf_blob with
      | Some raw => handle_blob raw
      | None =>
          match blob_zlib_data pbf_blob with
          | Some zlib_data =>
              let raw_size := blob_raw_size pbf_blob in
              let* _ := assert NDEBUG (0 <=? raw_size) in
              let* _ := assert NDEBUG
                          (raw_size <=? max_uncompressed_blob_size) in
              match zlib_uncompress zlib_data raw_size with
              | inl what => Throw (io_error what)
              | inr unpack_buffer => handle_blob unpack_buffer
              end
          | None =>
              match blob_lzma_data pbf_blob with
              | Some _ => Throw (pbf_error lzma_blobs_not_implemented)
              | None => Throw (pbf_error blob_contains_no_data)
              end
          end
      end
  end.

End Dispatch.

End BlobParser.

Module HeaderBlobParser.

Import OSMPBF.

Section Parser.

Variable ParseHeaderBlock : list Byte.byte -> option HeaderBlock.
(** [osmium::Timestamp(t).to_iso()] *)
Variable to_iso : Z -> string.

Definition resolution_convert : Z :=
  Int.div64 lonlat_resolution osmium.coordinate_precision.

Definition handle_blob (m_header : Header.t) (data : list Byte.byte)
  : outcome Header.t :=
  match ParseHeaderBlock data with
  | None => Throw (pbf_error failed_to_parse_HeaderBlock)
  | Some hb =>
      let* h := for_loop 0 (length (required_features hb))
        (fun i h =>
           let* feature := get (required_features hb) i in
           if String.eqb feature "OsmSchema-V0.6" then Ok h
           else if String.eqb feature "DenseNodes"
           then Ok (Header.set h "pbf_dense_nodes" "true")
           else if String.eqb feature "HistoricalInformation"
           then Ok (Header.set_has_multiple_object_versions h true)
           else Throw (pbf_error (required_feature_not_supported feature)))
        m_header in
      let* h := for_loop 0 (length (optional_features hb))
        (fun i h =>
           let* feature := get (optional_features hb) i in
           Ok (Header.set h
                 ("pbf_optional_feature_" +:+ to_string (Z.of_nat i))
                 feature))
        h in
      let h := match writingprogram hb with
               | Some w => Header.set h "generator" w
               | None => h
               end in
      let h := match hb_bbox hb with
               | Some b =>
                   Header.add_box h
                     [osmium.Location_of
                        (Int.div64 (bbox_left b) resolution_convert)
                        (Int.div64 (bbox_bottom b) resolution_convert);
                      osmium.Location_of
                        (Int.div64 (bbox_right b) resolution_convert)
                        (Int.div64 (bbox_top b) resolution_convert)]
               | None => h
               end in
      let h := match osmosis_replication_timestamp hb with
               | Some t =>
                   Header.set h "osmosis_replication_timestamp" (to_iso t)
               | None => h
               end in
      let h := match osmosis_replication_sequence_number hb with
               | Some n =>
                   Header.set h "osmosis_replication_sequence_number"
                     (to_string n)
               | None => h
               end in
      let h := match osmosis_replication_base_url hb with
               | Some u => Header.set h "osmosis_replication_base_url" u
               | None => h
               end in
      Ok h
  end.

(** [HeaderBlobParser(size, input_queue_reader, header)]: the blob
    number is 0. *)
Definition new (size : Z) (input_queue_reader : InputQueueReader.t)
  : outcome BlobParser.t * InputQueueReader.t :=
  BlobParser.new size 0 input_queue_reader.

End Parser.

End HeaderBlobParser.

Module DataBlobParser.

Section Parser.

Variable NDEBUG : bool.
Variable ParsePrimitiveBlock :
  list Byte.byte -> option OSMPBF.PrimitiveBlock.

Definition handle_blob (m_read_types : osmium.entity_bits)
    (data : list Byte.byte) : outcome (list osmium.Entity) :=
  PBFPrimitiveBlockParser.call NDEBUG ParsePrimitiveBlock m_read_types
    data.

Definition new (size blob_num : Z)
    (input_queue_reader : InputQueueReader.t)
  : outcome BlobParser.t * InputQueueReader.t :=
  BlobParser.new size blob_num input_queue_reader.

End Parser.

End DataBlobParser.

Module PBFInputFormat.

Import OSMPBF.

(** What the reader thread finds when it looks at the state it shares with
    the other threads.  Every evaluation of the condition of a waiting
    loop, and of [if (m_done)], is one look, and the looks are numbered:
    look [t] finds [m_done] as [done_at t] has it (the destructor sets
    it), [Pool::instance().queue_size()] to be [work_queue_size t] and the
    consumer to have popped [popped t] futures from [m_queue]. *)
Record schedule : Type := {
  done_at : nat -> bool;
  work_queue_size : nat -> nat;
  popped : nat -> nat
}.

(** The limits the constructor sets. *)
Definition m_max_work_queue_size : nat := 10.
Definition m_max_buffer_queue_size : nat := 20.

(** How [parse_osm_data] returns: at the end of the loop, where it sets
    [m_done], or from [if (m_done) return]. *)
Inductive ending : Type := end_of_input | found_m_done.

Section Format.

Variable NDEBUG : bool.
Variable ParseBlobHeader : list Byte.byte -> option BlobHeader.
Variable ParseBlob : list Byte.byte -> option Blob.
Variable ParseHeaderBlock : list Byte.byte -> option HeaderBlock.
Variable zlib_uncompress : list Byte.byte -> Z -> string + list Byte.byte.
Variable to_iso : Z -> string.

(** [ntohl] of the four bytes read: big endian. *)
Definition ntohl (bytes : list Byte.byte) : Z :=
  fold_left (fun acc b => acc * 256 + Z.of_N (Byte.to_N b)) bytes 0.

(** Returns the data size of the blob header read, 0 at the end of the
    input. *)
Definition read_blob_header (expected_type : string)
    (r : InputQueueReader.t) : outcome Z * InputQueueReader.t :=
  match InputQueueReader.call r 4 with
  | (None, r') => (Ok 0, r')                          (* EOF *)
  | (Some size_in_network_byte_order, r') =>
      let size := ntohl size_in_network_byte_order in
      if max_blob_header_size <? size then
        (Throw (pbf_error invalid_BlobHeader_size), r')
      else
        match InputQueueReader.call r' (Z.to_nat size) with
        | (None, r'') => (Throw (pbf_error read_error), r'')
        | (Some blob_header_buffer, r'') =>
            match ParseBlobHeader blob_header_buffer with
            | None => (Throw (pbf_error failed_to_parse_BlobHeader), r'')
            | Some m_blob_header =>
                if strcmp_differs (bh_type m_blob_header) expected_type
                then (Throw (pbf_error blob_does_not_have_expected_type),
                      r'')
                else (Ok (bh_datasize m_blob_header), r'')
            end
        end
  end.

(** The constructor up to the start of the reader thread: the header
    read from the first blob. *)
Definition new (input_queue : list (list Byte.byte))
  : outcome Header.t * InputQueueReader.t :=
  let m_input_queue_reader := InputQueueReader.of_queue input_queue in
  match read_blob_header "OSMHeader" m_input_queue_reader with
  | (Ok size, r) =>
      match HeaderBlobParser.new size r with
      | (Ok header_blob_parser, r') =>
          (BlobParser.dispatch NDEBUG ParseBlob zlib_uncompress
             (HeaderBlobParser.handle_blob ParseHeaderBlock to_iso
                Header.empty)
             header_blob_parser, r')
      | (Throw e, r') => (Throw e, r')
      | (AssertFail, r') => (AssertFail, r')
      | (Undefined, r') => (Undefined, r')
      end
  | (Throw e, r) => (Throw e, r)
  | (AssertFail, r) => (AssertFail, r)
  | (Undefined, r) => (Undefined, r)
  end.

Variable ParsePrimitiveBlock : list Byte.byte -> option PrimitiveBlock.

(** [while (!m_done && busy) sleep_for(10 ms);] from look [t] on: the
    number of the first look after the loop; [None] when [fuel] looks do
    not end it. *)
Fixpoint wait (sch : schedule) (busy : nat -> bool) (fuel t : nat)
  : option nat :=
  match fuel with
  | O => None
  | S fuel' =>
      if negb (done_at sch t) && busy t
      then wait sch busy fuel' (S t)
      else Some (S t)
  end.

(** [parse_osm_data], the function of the reader thread, from look [t] on.
    The constructor sets [m_use_thread_pool] to true and nothing resets it,
    so every parser is handed to the pool and [m_queue] receives its
    future; a future is kept as the outcome of the parser's [operator()],
    which [get()] returns or rethrows.  [m_queue] is the list of the
    futures pushed, of which the consumer has popped the first
    [popped sch t] at look [t].  After every push the thread waits while
    the work queue of the pool is full, then while the backlog of futures
    is too large, and returns if it finds [m_done] set.  The result is how
    the function ends (an exception that leaves it, the function being
    that of a std::thread, ends the process), the futures pushed and the
    reader.  [None] when [fuel] does not suffice for the rounds of the
    loop or for the looks of one of the waits. *)
Fixpoint parse_osm_data (sch : schedule) (fuel : nat)
    (read_types : osmium.entity_bits) (n : Z) (r : InputQueueReader.t)
    (m_queue : list (outcome (list osmium.Entity))) (t : nat)
  : option (outcome ending * list (outcome (list osmium.Entity))
            * InputQueueReader.t) :=
  match fuel with
  | O => None
  | S fuel' =>
      match read_blob_header "OSMData" r with
      | (Ok size, r1) =>
          if size =? 0 then Some (Ok end_of_input, m_queue, r1)
          else
            match DataBlobParser.new size n r1 with
            | (Ok data_blob_parser, r2) =>
                let future :=
                  BlobParser.dispatch NDEBUG ParseBlob zlib_uncompress
                    (DataBlobParser.handle_blob NDEBUG ParsePrimitiveBlock
                       read_types)
                    data_blob_parser in
                let m_queue := m_queue ++ [future] in
                match wait sch
                        (fun t => (m_max_work_queue_size
                                   <=? work_queue_size sch t)%nat)
                        fuel' t with
                | None => None
                | Some t1 =>
                    let n := Int.wrap32 (n + 1) in
                    match wait sch
                            (fun t => (m_max_buffer_queue_size
                                       <? length m_queue - popped sch t)%nat)
                            fuel' t1 with
                    | None => None
                    | Some t2 =>
                        if done_at sch t2
                        then Some (Ok found_m_done, m_queue, r2)
                        else parse_osm_data sch fuel' read_types n r2
                               m_queue (S t2)
                    end
                end
            | (Throw e, r2) => Some (Throw e, m_queue, r2)
            | (AssertFail, r2) => Some (AssertFail, m_queue, r2)
            | (Undefined, r2) => Some (Undefined, m_queue, r2)
            end
      | (Throw e, r1) => Some (Throw e, m_queue, r1)
      | (AssertFail, r1) => Some (AssertFail, m_queue, r1)
      | (Undefined, r1) => Some (Undefined, m_queue, r1)
      end
  end.

End Format.

End PBFInputFormat.

(** ** Reader *)

Module Reader.

(** [s.find_first_of(c)]: the position of the first [c], [None] for
    [npos]. *)
Fixpoint find_first_of (s : string) (c : Ascii.ascii) : option nat :=
  match s with
  | EmptyString => None
  | String a s' =>
      if Ascii.eqb a c then Some O
      else match find_first_of s' c with
           | Some k => Some (S k)
           | None => None
           end
  end.

(** [s.substr(0, n)]: the first [n] characters, all of [s] for [npos] or
    a count past the end. *)
Definition substr_0 (s : string) (n : option nat) : string :=
  match n with
  | Some k => String.substring 0 k s
  | None => s
  end.

(** How [open_input_file_or_url] opens its input: through a child process
    running [curl -g filename], or as a file. *)
Inductive input : Type :=
| execute_curl (filename : string)
| open_for_reading (filename : string).

Definition open_input_file_or_url (filename : string) : input :=
  let protocol := substr_0 filename (find_first_of filename (Ascii.ascii_of_nat 58)) in
  if String.eqb protocol "http" || String.eqb protocol "https"
     || String.eqb protocol "ftp" || String.eqb protocol "file"
  then execute_curl filename
  else open_for_reading filename.

End Reader.

(** Modelled from the spec: the error taxonomy of spec 7, which the code
    does not have (every error above is an osmium::pbf_error): Truncated is
    an unexpected end of input mid-frame, mid-header or mid-payload;
    Unsupported is lzma data or an unknown required feature; every other
    parse failure, unknown group, oversized header or blob and missing
    payload is Corrupt. *)
Inductive error_kind : Type := Truncated | Corrupt | Unsupported | Io.

Definition kind_of_what (w : pbf_what) : error_kind :=
  match w with
  | truncated_data_EOF_encountered | read_error => Truncated
  | lzma_blobs_not_implemented | required_feature_not_supported _ =>
      Unsupported
  | _ => Corrupt
  end.

Definition raises {A : Type} (k : error_kind) (r : outcome A) : Prop :=
  exists w, r = Throw (pbf_error w) /\ kind_of_what w = k.

(** ** The relation collector *)

Module Buffer.

(** Modelled from the spec: osmium::memory::Buffer of
    osmium/memory/buffer.hpp, which is not part of the sources at hand
    (spec 3, Ownership/lifecycle): an append-only region with a
    distinguished committed watermark; a partial write is rolled back by
    resetting the write head to the watermark.  Offsets count items. *)
Record t (A : Type) : Type := {
  data : list A;                (* everything written *)
  committed : nat               (* the watermark *)
}.

Arguments data {A} _.
Arguments committed {A} _.

Definition new {A : Type} : t A := {| data := []; committed := 0 |}.

Definition add_item {A : Type} (b : t A) (item : A) : t A :=
  {| data := data b ++ [item]; committed := committed b |}.

Definition commit {A : Type} (b : t A) : t A :=
  {| data := data b; committed := length (data b) |}.

Definition rollback {A : Type} (b : t A) : t A :=
  {| data := take (committed b) (data b); committed := committed b |}.

Definition get {A : Type} (b : t A) (offset : nat) : outcome A :=
  get (data b) offset.

(** Nothing written since the last commit or rollback. *)
Definition clean {A : Type} (b : t A) : Prop :=
  length (data b) = committed b.

End Buffer.

Module relations.

Import osmium.

(** Modelled from the spec: RelationMeta of
    osmium/relations/detail/relation_meta.hpp, which is not part of the
    sources at hand (spec 3, Pipeline-B state): a slot holds the buffer
    offset of the relation, the number of members needed and the number
    of members found, both 32 bit unsigned; the relation is complete iff
    the two are equal.  A default-constructed slot is all zero. *)
Record RelationMeta : Type := {
  relation_offset : nat;
  members_needed : Z;
  members_found : Z
}.

Definition RelationMeta_default : RelationMeta :=
  {| relation_offset := 0; members_needed := 0; members_found := 0 |}.

Definition RelationMeta_at (offset : nat) : RelationMeta :=
  {| relation_offset := offset; members_needed := 0; members_found := 0 |}.

Definition increment_need_members (m : RelationMeta) : RelationMeta :=
  {| relation_offset := relation_offset m;
     members_needed := Int.uwrap32 (members_needed m + 1);
     members_found := members_found m |}.

Definition got_one_member (m : RelationMeta) : RelationMeta :=
  {| relation_offset := relation_offset m;
     members_needed := members_needed m;
     members_found := Int.uwrap32 (members_found m + 1) |}.

Definition has_all_members (m : RelationMeta) : bool :=
  members_found m =? members_needed m.

(** Modelled from the spec: MemberMeta of
    osmium/relations/detail/member_meta.hpp, which is not part of the
    sources at hand (spec 3, Pipeline-B state): member id, slot of the
    relation, position of the member in it and the offset of the member's
    copy once it is there; entries are ordered by member id alone. *)
Record MemberMeta : Type := {
  member_id : Z;
  relation_pos : nat;
  member_pos : nat;
  buffer_offset : option nat
}.

Definition set_buffer_offset (m : MemberMeta) (offset : nat) : MemberMeta :=
  {| member_id := member_id m; relation_pos := relation_pos m;
     member_pos := member_pos m; buffer_offset := Some offset |}.

(** [std::partition_point]: the length of the longest prefix on which
    [P] holds. *)
Fixpoint partition_point {A : Type} (P : A -> bool) (l : list A) : nat :=
  match l with
  | [] => O
  | a :: l' => if P a then S (partition_point P l') else O
  end.

(** [std::equal_range(mmv.begin(), mmv.end(), MemberMeta(id))] on a
    vector sorted by member id: the positions of the first entry not less
    than [id] and of the first entry greater than [id]. *)
Definition equal_range (mmv : list MemberMeta) (id : Z) : nat * nat :=
  (partition_point (fun m => member_id m <? id) mmv,
   partition_point (fun m => member_id m <=? id) mmv).

(** [m_member_meta[3]], indexed by [static_cast<uint16_t>(type) - 1]. *)
Record member_vectors : Type := {
  mm_node : list MemberMeta;
  mm_way : list MemberMeta;
  mm_relation : list MemberMeta
}.

Definition vector_of (v : member_vectors) (ty : item_type)
  : list MemberMeta :=
  match ty with
  | node => mm_node v
  | way => mm_way v
  | relation => mm_relation v
  end.

Definition set_vector (v : member_vectors) (ty : item_type)
    (l : list MemberMeta) : member_vectors :=
  match ty with
  | node => {| mm_node := l; mm_way := mm_way v;
               mm_relation := mm_relation v |}
  | way => {| mm_node := mm_node v; mm_way := l;
              mm_relation := mm_relation v |}
  | relation => {| mm_node := mm_node v; mm_way := mm_way v;
                   mm_relation := l |}
  end.

(** The calls of the hooks a derived collector overrides, in order of
    occurrence.  [complete_relation] is handed a reference to the slot; the
    position of the slot is recorded with it. *)
Inductive event : Type :=
| complete_relation (pos : nat) (relation_meta : RelationMeta)
| node_not_in_any_relation (id : Z)
| way_not_in_any_relation (id : Z)
| relation_not_in_any_relation (id : Z)
| done.

Module Collector.

Record t : Type := {
  m_relations_buffer : Buffer.t Relation;
  m_members_buffer : Buffer.t Entity;
  m_relations : list RelationMeta;
  m_member_meta : member_vectors;
  m_count_complete : Z;       (* int *)
  calls : list event
}.

Definition new : t :=
  {| m_relations_buffer := Buffer.new; m_members_buffer := Buffer.new;
     m_relations := [];
     m_member_meta := {| mm_node := []; mm_way := []; mm_relation := [] |};
     m_count_complete := 0; calls := [] |}.

Definition member_meta (c : t) (ty : item_type) : list MemberMeta :=
  vector_of (m_member_meta c) ty.

Definition with_relations_buffer (c : t) (b : Buffer.t Relation) : t :=
  {| m_relations_buffer := b; m_members_buffer := m_members_buffer c;
     m_relations := m_relations c; m_member_meta := m_member_meta c;
     m_count_complete := m_count_complete c; calls := calls c |}.

Definition with_members_buffer (c : t) (b : Buffer.t Entity) : t :=
  {| m_relations_buffer := m_relations_buffer c; m_members_buffer := b;
     m_relations := m_relations c; m_member_meta := m_member_meta c;
     m_count_complete := m_count_complete c; calls := calls c |}.

Definition with_relations (c : t) (r : list RelationMeta) : t :=
  {| m_relations_buffer := m_relations_buffer c;
     m_members_buffer := m_members_buffer c;
     m_relations := r; m_member_meta := m_member_meta c;
     m_count_complete := m_count_complete c; calls := calls c |}.

Definition with_member_meta (c : t) (ty : item_type)
    (l : list MemberMeta) : t :=
  {| m_relations_buffer := m_relations_buffer c;
     m_members_buffer := m_members_buffer c;
     m_relations := m_relations c;
     m_member_meta := set_vector (m_member_meta c) ty l;
     m_count_complete := m_count_complete c; calls := calls c |}.

Definition with_count_complete (c : t) (n : Z) : t :=
  {| m_relations_buffer := m_relations_buffer c;
     m_members_buffer := m_members_buffer c;
     m_relations := m_relations c; m_member_meta := m_member_meta c;
     m_count_complete := n; calls := calls c |}.

Definition call (c : t) (e : event) : t :=
  {| m_relations_buffer := m_relations_buffer c;
     m_members_buffer := m_members_buffer c;
     m_relations := m_relations c; m_member_meta := m_member_meta c;
     m_count_complete := m_count_complete c; calls := calls c ++ [e] |}.

Definition get_relation (c : t) (relation_meta : RelationMeta)
  : outcome Relation :=
  Buffer.get (m_relations_buffer c) (relation_offset relation_meta).

Section WithHooks.

Variable NDEBUG : bool.
(** The template arguments. *)
Variables TNodes TWays TRelations : bool.
(** The hooks that decide; the notifying hooks are the [event]s. *)
Variable keep_relation : Relation -> bool.
Variable keep_member : RelationMeta -> RelationMember -> bool.
(** [Buffer::purge_deleted], which is not part of the sources at hand:
    the compacted buffer and the relocations (old offset, new offset)
    it reports through [moving_in_buffer]. *)
Variable purge_deleted :
  Buffer.t Entity -> Buffer.t Entity * list (nat * nat).
(** [std::sort(first, last)] of a member vector, with [operator<] of
    MemberMeta, which compares the member ids.  The standard does not fix
    the order in which it leaves the entries of equal ids, so the function
    is a parameter; what the standard guarantees of it, a permutation of
    the vector in non-descending order, is assumed where it is needed. *)
Variable std_sort : list MemberMeta -> list MemberMeta.

(** The member loop of [add_relation]: [n] counts the members, the
    copy in the buffer gets the reference of an uninteresting member
    zeroed. *)
Fixpoint add_members (members : list RelationMember) (n : nat)
    (slot : nat) (relation_meta : RelationMeta) (v : member_vectors)
  : list RelationMember * RelationMeta * member_vectors :=
  match members with
  | [] => ([], relation_meta, v)
  | member :: rest =>
      if keep_member relation_meta member then
        let v' := set_vector v (member_type member)
                    (vector_of v (member_type member) ++
                     [{| member_id := member_ref member;
                         relation_pos := slot; member_pos := n;
                         buffer_offset := None |}]) in
        let '(ms, rm, v'') :=
          add_members rest (S n) slot
            (increment_need_members relation_meta) v' in
        (member :: ms, rm, v'')
      else
        let '(ms, rm, v'') :=
          add_members rest (S n) slot relation_meta v in
        ({| member_type := member_type member; member_ref := 0;
            member_role := member_role member |} :: ms, rm, v'')
  end.

Definition add_relation (c : t) (relation : Relation) : outcome t :=
  let offset := Buffer.committed (m_relations_buffer c) in
  let buf := Buffer.add_item (m_relations_buffer c) relation in
  let relation_meta := RelationMeta_at offset in
  let* stored := Buffer.get buf offset in
  let '(ms, relation_meta, v) :=
    add_members (r_members stored) 0 (length (m_relations c))
      relation_meta (m_member_meta c) in
  let stored' := {| r_object := r_object stored; r_members := ms;
                    r_tags := r_tags stored |} in
  let buf := {| Buffer.data := <[offset := stored']> (Buffer.data buf);
                Buffer.committed := Buffer.committed buf |} in
  let c := {| m_relations_buffer := buf;
              m_members_buffer := m_members_buffer c;
              m_relations := m_relations c; m_member_meta := v;
              m_count_complete := m_count_complete c;
              calls := calls c |} in
  let* _ := assert NDEBUG
              (offset =? Buffer.committed (m_relations_buffer c))%nat in
  if has_all_members relation_meta then
    Ok (with_relations_buffer c (Buffer.rollback (m_relations_buffer c)))
  else
    Ok (with_relations
          (with_relations_buffer c
             (Buffer.commit (m_relations_buffer c)))
          (m_relations c ++ [relation_meta])).

(** [clean_assembled_relations]: erase the slots that have all members. *)
Definition clean_assembled_relations (c : t) : t :=
  with_relations c
    (filter (fun m => has_all_members m = false) (m_relations c)).

Definition sort_member_meta (c : t) : t :=
  {| m_relations_buffer := m_relations_buffer c;
     m_members_buffer := m_members_buffer c;
     m_relations := m_relations c;
     m_member_meta :=
       {| mm_node := std_sort (mm_node (m_member_meta c));
          mm_way := std_sort (mm_way (m_member_meta c));
          mm_relation := std_sort (mm_relation (m_member_meta c)) |};
     m_count_complete := m_count_complete c; calls := calls c |}.

(** [HandlerPass1::relation] *)
Definition pass1_relation (c : t) (relation : Relation) : outcome t :=
  if keep_relation relation then add_relation c relation else Ok c.

(** [read_relations]: the first pass over the relations of the
    source, then the sort. *)
Fixpoint pass1 (source : list Entity) (c : t) : outcome t :=
  match source with
  | [] => Ok c
  | a_relation r :: rest =>
      let* c' := pass1_relation c r in pass1 rest c'
  | _ :: rest => pass1 rest c
  end.

Definition read_relations (source : list Entity) (c : t) : outcome t :=
  outcome_map sort_member_meta (pass1 source c).

(** [moving_in_buffer(old_offset, new_offset)]; [members] is the
    buffer being purged. *)
Definition moving_in_buffer (members : Buffer.t Entity)
    (old_offset new_offset : nat) (v : member_vectors)
  : outcome member_vectors :=
  let* object := Buffer.get members old_offset in
  let mmv := vector_of v (type object) in
  let range := equal_range mmv (id (osmium.object object)) in
  let* mmv' := for_loop (fst range) (snd range - fst range)
    (fun it mmv =>
       let* m := get mmv it in
       let* _ := assert NDEBUG
                   (bool_decide (buffer_offset m = Some old_offset)) in
       Ok (<[it := set_buffer_offset m new_offset]> mmv))
    mmv in
  Ok (set_vector v (type object) mmv').

Fixpoint apply_moves (members : Buffer.t Entity)
    (moves : list (nat * nat)) (v : member_vectors)
  : outcome member_vectors :=
  match moves with
  | [] => Ok v
  | (old_offset, new_offset) :: rest =>
      let* v' := moving_in_buffer members old_offset new_offset v in
      apply_moves members rest v'
  end.

Definition possibly_purge_deleted_members (c : t) : outcome t :=
  let n := Int.wrap32 (m_count_complete c + 1) in
  if 1000 <? n then
    let '(purged, moves) := purge_deleted (m_members_buffer c) in
    let* v := apply_moves (m_members_buffer c) moves (m_member_meta c) in
    Ok {| m_relations_buffer := m_relations_buffer c;
          m_members_buffer := purged;
          m_relations := m_relations c; m_member_meta := v;
          m_count_complete := 0; calls := calls c |}
  else Ok (with_count_complete c n).

(** The body of the loop over the range in [find_and_add_object]. *)
Definition add_to_relation (object : Entity) (pos : nat) (it : nat)
    (c : t) : outcome t :=
  let ty := type object in
  let* m := get (member_meta c ty) it in
  let m := set_buffer_offset m pos in
  let c := with_member_meta c ty (<[it := m]> (member_meta c ty)) in
  let* _ := assert NDEBUG (member_id m =? id (osmium.object object)) in
  let* _ := assert NDEBUG
              (relation_pos m <? length (m_relations c))%nat in
  let* relation_meta := get (m_relations c) (relation_pos m) in
  let* _ :=
    (if NDEBUG then Ok tt
     else let* r := get_relation c relation_meta in
          assert NDEBUG (member_pos m <? length (r_members r))%nat) in
  let relation_meta := got_one_member relation_meta in
  let c := with_relations c
             (<[relation_pos m := relation_meta]> (m_relations c)) in
  if has_all_members relation_meta then
    let pos := relation_pos m in
    let c := call c (complete_relation pos relation_meta) in
    let c := with_relations c
               (<[pos := RelationMeta_default]> (m_relations c)) in
    possibly_purge_deleted_members c
  else Ok c.

Definition find_and_add_object (c : t) (object : Entity)
  : outcome (bool * t) :=
  let mmv := member_meta c (type object) in
  let range := equal_range mmv (id (osmium.object object)) in
  if (fst range =? snd range)%nat then Ok (false, c)
  else
    let pos := Buffer.committed (m_members_buffer c) in
    let c := with_members_buffer c
               (Buffer.commit
                  (Buffer.add_item (m_members_buffer c) object)) in
    let* c := for_loop (fst range) (snd range - fst range)
                (add_to_relation object pos) c in
    Ok (true, c).

(** [HandlerPass2::node], [way] and [relation]. *)
Definition pass2_object (c : t) (object : Entity) : outcome t :=
  let wanted := match object with
                | a_node _ => TNodes
                | a_way _ => TWays
                | a_relation _ => TRelations
                end in
  if wanted then
    let* r := find_and_add_object c object in
    if fst r then Ok (snd r)
    else Ok (call (snd r)
               (match object with
                | a_node _ =>
                    node_not_in_any_relation (id (osmium.object object))
                | a_way _ =>
                    way_not_in_any_relation (id (osmium.object object))
                | a_relation _ =>
                    relation_not_in_any_relation
                      (id (osmium.object object))
                end))
  else Ok c.

(** The second pass over a source. *)
Fixpoint pass2 (source : list Entity) (c : t) : outcome t :=
  match source with
  | [] => Ok c
  | object :: rest =>
      let* c' := pass2_object c object in pass2 rest c'
  end.



(** [HandlerPass2::done] *)
Definition pass2_done (c : t) : t :=
  call
    {| m_relations_buffer := m_relations_buffer c;
       m_members_buffer := m_members_buffer c;
       m_relations := m_relations c;
       m_member_meta :=
         {| mm_node := []; mm_way := []; mm_relation := [] |};
       m_count_complete := m_count_complete c; calls := calls c |}
    done.

End WithHooks.

(** The slots [complete_relation] was called for. *)
Definition completed (evs : list event) : list nat :=
  omap (fun e => match e with
                 | complete_relation pos _ => Some pos
                 | _ => None
                 end) evs.

End Collector.

End relations.

(** ** Reference notions of the specification *)

(** The sum of a list of wire deltas. *)
Definition Zsum (l : list Z) : Z := foldr Z.add 0 l.

(** Delta decoding as the glossary of the specification has it: [x[-1] = 0]
    and [x[i] = x[i-1] + a[i]], over the integers. *)
Fixpoint prefix_sums_from (acc : Z) (l : list Z) : list Z :=
  match l with
  | [] => []
  | d :: l' => (acc + d) :: prefix_sums_from (acc + d) l'
  end.

Definition prefix_sums : list Z -> list Z := prefix_sums_from 0.

(** The same with the accumulator an [int64_t], as the decoding loops have
    it. *)
Fixpoint scan64 (acc : Z) (l : list Z) : list Z :=
  match l with
  | [] => []
  | d :: l' => Int.add64 acc d :: scan64 (Int.add64 acc d) l'
  end.

(** The value of an [int64_t] accumulator that started at 0 after [i]
    rounds of [acc += l(i)]. *)
Definition acc64 (l : list Z) (i : nat) : Z :=
  fold_left Int.add64 (take i l) 0.

(** Dense tags as the specification words them (4.4, step 4), on the part
    of the key/value stream that is left: consume pairs (key_sid, value_sid)
    until the key position holds 0, which is consumed, or the stream is
    exhausted.  A key without a value has no meaning.  The result is the
    tags of the node and the stream left for the nodes after it. *)
Fixpoint spec_node_tags (p : PBFPrimitiveBlockParser.t) (kv : list Z)
  : outcome (list osmium.Tag * list Z) :=
  match kv with
  | [] => Ok ([], [])
  | k :: kv' =>
      if k =? 0 then Ok ([], kv')
      else
        match kv' with
        | [] => Undefined
        | v :: rest =>
            let* ks := PBFPrimitiveBlockParser.s p k in
            let* vs := PBFPrimitiveBlockParser.s p v in
            let* r := spec_node_tags p rest in
            Ok ((ks, vs) :: fst r, snd r)
        end
  end.

(** The tags of the first [n] nodes of a group, and the stream left. *)
Fixpoint spec_dense_tags (p : PBFPrimitiveBlockParser.t) (n : nat)
    (kv : list Z) : outcome (list (list osmium.Tag) * list Z) :=
  match n with
  | O => Ok ([], kv)
  | S n' =>
      let* r := spec_node_tags p kv in
      let* rs := spec_dense_tags p n' (snd r) in
      Ok (fst r :: fst rs, snd rs)
  end.

(** What the dense loop makes of entry [i] of a group: the attributes and
    the location in terms of the accumulated wire values, and the checks
    that have passed when asserts are compiled in. *)
Definition dense_node_ok (NDEBUG : bool) (p : PBFPrimitiveBlockParser.t)
    (d : OSMPBF.DenseNodes) (i : nat) (n : osmium.Node) : Prop :=
  osmium.id (osmium.n_object n) = acc64 (OSMPBF.dense_id d) (S i) /\
  osmium.n_location n =
    (if osmium.visible (osmium.n_object n)
     then PBFPrimitiveBlockParser.make_location p
            (acc64 (OSMPBF.dense_lon d) (S i))
            (acc64 (OSMPBF.dense_lat d) (S i))
     else osmium.Location_undefined) /\
  match OSMPBF.denseinfo d with
  | Some di =>
      osmium.timestamp (osmium.n_object n) =
        Int.mul64 (acc64 (OSMPBF.di_timestamp di) (S i))
                  (PBFPrimitiveBlockParser.m_date_factor p) /\
      (NDEBUG = false ->
       0 <= acc64 (OSMPBF.di_changeset di) (S i) /\
       0 <= acc64 (OSMPBF.di_timestamp di) (S i) /\
       -1 <= acc64 (OSMPBF.di_uid di) (S i) /\
       0 <= acc64 (OSMPBF.di_user_sid di) (S i) /\
       exists v, OSMPBF.di_version di !! i = Some v /\ 0 < v)
  | None =>
      osmium.timestamp (osmium.n_object n) = 0 /\
      osmium.visible (osmium.n_object n) = true
  end.

(** The locals of the dense loop before round [i]: every accumulator holds
    the running [int64_t] sum of its column. *)
Definition dense_accs (d : OSMPBF.DenseNodes)
    (l : PBFPrimitiveBlockParser.dense_locals) (i : nat) : Prop :=
  PBFPrimitiveBlockParser.last_dense_id l = acc64 (OSMPBF.dense_id d) i /\
  PBFPrimitiveBlockParser.last_dense_latitude l
    = acc64 (OSMPBF.dense_lat d) i /\
  PBFPrimitiveBlockParser.last_dense_longitude l
    = acc64 (OSMPBF.dense_lon d) i /\
  forall di, OSMPBF.denseinfo d = Some di ->
    PBFPrimitiveBlockParser.last_dense_changeset l
      = acc64 (OSMPBF.di_changeset di) i /\
    PBFPrimitiveBlockParser.last_dense_timestamp l
      = acc64 (OSMPBF.di_timestamp di) i /\
    PBFPrimitiveBlockParser.last_dense_uid l = acc64 (OSMPBF.di_uid di) i /\
    PBFPrimitiveBlockParser.last_dense_user_sid l
      = acc64 (OSMPBF.di_user_sid di) i.

(** What the decoder makes of entry [i] of a group: the decoded entity in
    terms of the wire object it comes from. *)
Definition decoded_from (NDEBUG : bool) (p : PBFPrimitiveBlockParser.t)
    (group : OSMPBF.PrimitiveGroup) (i : nat) (e : osmium.Entity) : Prop :=
  match OSMPBF.dense group with
  | Some d => exists n, e = osmium.a_node n /\ dense_node_ok NDEBUG p d i n
  | None =>
      match e with
      | osmium.a_node n =>
          exists pn, OSMPBF.nodes group !! i = Some pn /\
            PBFPrimitiveBlockParser.parse_attributes NDEBUG p
              (OSMPBF.node_id pn) (OSMPBF.node_info pn)
              = Ok (osmium.n_object n) /\
            osmium.n_location n =
              (if osmium.visible (osmium.n_object n)
               then PBFPrimitiveBlockParser.make_location p
                      (OSMPBF.node_lon pn) (OSMPBF.node_lat pn)
               else osmium.Location_undefined) /\
            PBFPrimitiveBlockParser.parse_tags p
              (OSMPBF.node_keys pn) (OSMPBF.node_vals pn)
              = Ok (osmium.n_tags n)
      | osmium.a_way w =>
          exists pw, OSMPBF.ways group !! i = Some pw /\
            PBFPrimitiveBlockParser.parse_attributes NDEBUG p
              (OSMPBF.way_id pw) (OSMPBF.way_info pw)
              = Ok (osmium.w_object w) /\
            osmium.w_nodes w = scan64 0 (OSMPBF.way_refs pw) /\
            PBFPrimitiveBlockParser.parse_tags p
              (OSMPBF.way_keys pw) (OSMPBF.way_vals pw)
              = Ok (osmium.w_tags w)
      | osmium.a_relation r =>
          exists pr, OSMPBF.relations group !! i = Some pr /\
            PBFPrimitiveBlockParser.parse_attributes NDEBUG p
              (OSMPBF.relation_id pr) (OSMPBF.relation_info pr)
              = Ok (osmium.r_object r) /\
            PBFPrimitiveBlockParser.parse_members p pr
              = Ok (osmium.r_members r) /\
            PBFPrimitiveBlockParser.parse_tags p
              (OSMPBF.relation_keys pr) (OSMPBF.relation_vals pr)
              = Ok (osmium.r_tags r)
      end
  end.

(** The raw wire timestamp of the object that entity [e], entry [i] of the
    output of a group, was decoded from, when it has an info: the
    [timestamp] of the info or, in a dense group, the accumulated value of
    the timestamp column. *)
Definition wire_timestamp (group : OSMPBF.PrimitiveGroup) (i : nat)
    (e : osmium.Entity) : option Z :=
  match OSMPBF.dense group with
  | Some d =>
      match OSMPBF.denseinfo d with
      | Some di => Some (acc64 (OSMPBF.di_timestamp di) (S i))
      | None => None
      end
  | None =>
      match e with
      | osmium.a_node _ =>
          match OSMPBF.nodes group !! i with
          | Some pn => OSMPBF.info_timestamp <$> OSMPBF.node_info pn
          | None => None
          end
      | osmium.a_way _ =>
          match OSMPBF.ways group !! i with
          | Some pw => OSMPBF.info_timestamp <$> OSMPBF.way_info pw
          | None => None
          end
      | osmium.a_relation _ =>
          match OSMPBF.relations group !! i with
          | Some pr => OSMPBF.info_timestamp <$> OSMPBF.relation_info pr
          | None => None
          end
      end
  end.

(** The timestamp the code stores for a raw wire timestamp: the raw value
    times the date granularity divided by 1000, in C++ arithmetic; it is
    the integer [raw * (date_granularity / 1000)] when that fits. *)
Definition timestamp_rule (b : OSMPBF.PrimitiveBlock) (raw decoded : Z)
  : Prop :=
  decoded = Int.mul64 raw (Int.div32 (OSMPBF.date_granularity b) 1000) /\
  (Int.in_int32 (OSMPBF.date_granularity b) ->
   Int.in_int64 (raw * (OSMPBF.date_granularity b ÷ 1000)) ->
   decoded = raw * (OSMPBF.date_granularity b ÷ 1000)).

(** The raw wire coordinates (lon, lat) of the node that is entry [i] of a
    group: the fields of the node or, in a dense group, the accumulated
    values of the two columns. *)
Definition wire_lonlat (group : OSMPBF.PrimitiveGroup) (i : nat)
  : option (Z * Z) :=
  match OSMPBF.dense group with
  | Some d =>
      Some (acc64 (OSMPBF.dense_lon d) (S i), acc64 (OSMPBF.dense_lat d) (S i))
  | None =>
      match OSMPBF.nodes group !! i with
      | Some pn => Some (OSMPBF.node_lon pn, OSMPBF.node_lat pn)
      | None => None
      end
  end.

(** [raw * granularity + offset] stays an [int64_t] and the coordinate an
    [int32_t]. *)
Definition coordinate_fits (granularity offset raw : Z) : Prop :=
  Int.in_int64 (raw * granularity) /\
  Int.in_int64 (raw * granularity + offset) /\
  Int.in_int32 ((raw * granularity + offset) ÷ 100).

(** The id column of a group, empty when the group is not dense. *)
Definition dense_ids (group : OSMPBF.PrimitiveGroup) : list Z :=
  match OSMPBF.dense group with
  | Some d => OSMPBF.dense_id d
  | None => []
  end.

(** [decoded] is [wire] rebuilt by prefix sum from 0, as far as entry [n]:
    entry [k] is the sum of the first [k + 1] deltas, taken as the
    [int64_t] the loop computes, which is the integer sum when that
    fits. *)
Definition prefix_summed (n : nat) (wire decoded : list Z) : Prop :=
  length decoded = n /\
  forall k, (k < n)%nat ->
    decoded !! k = Some (Int.wrap64 (Zsum (take (S k) wire))) /\
    (Int.in_int64 (Zsum (take (S k) wire)) ->
     decoded !! k = Some (Zsum (take (S k) wire))).

(** The reference array of entity [e], entry [i] of the output of a
    group, is the prefix sum of the wire array, entry for entry.  The
    refs of a way are as many as the wire refs.  The member loop of a
    relation runs over the types: the members are as many as the types,
    of which a relation that decodes has no more than member ids, and
    they carry the prefix sums of the first that many ids. *)
Definition refs_by_prefix_sum (group : OSMPBF.PrimitiveGroup) (i : nat)
    (e : osmium.Entity) : Prop :=
  match e with
  | osmium.a_node _ => True
  | osmium.a_way w =>
      exists pw, OSMPBF.ways group !! i = Some pw /\
        prefix_summed (length (OSMPBF.way_refs pw)) (OSMPBF.way_refs pw)
          (osmium.w_nodes w)
  | osmium.a_relation r =>
      exists pr, OSMPBF.relations group !! i = Some pr /\
        (length (OSMPBF.types pr) <= length (OSMPBF.memids pr))%nat /\
        prefix_summed (length (OSMPBF.types pr)) (OSMPBF.memids pr)
          (map osmium.member_ref (osmium.r_members r))
  end.

(** The number of nodes a group is decoded to for a caller that asks for
    nodes: the entries of the id column of a dense group, the nodes of a
    group that has neither dense nodes nor ways nor relations. *)
Definition node_count (group : OSMPBF.PrimitiveGroup) : nat :=
  match OSMPBF.dense group with
  | Some d => length (OSMPBF.dense_id d)
  | None =>
      match OSMPBF.ways group, OSMPBF.relations group with
      | [], [] => length (OSMPBF.nodes group)
      | _, _ => O
      end
  end.

(** How a call can fail. *)
Inductive failure : Type :=
| fails_throwing (e : exception)
| fails_assert
| fails_undefined.

Definition failure_of {A : Type} (m : outcome A) : option failure :=
  match m with
  | Ok _ => None
  | Throw e => Some (fails_throwing e)
  | AssertFail => Some fails_assert
  | Undefined => Some fails_undefined
  end.

(** [m] fails in the ways [Q] allows only. *)
Definition fails_only {A : Type} (Q : failure -> Prop) (m : outcome A)
  : Prop :=
  forall f, failure_of m = Some f -> Q f.

Definition not_an_exception (f : failure) : Prop :=
  match f with
  | fails_throwing _ => False
  | _ => True
  end.

Definition out_of_range_only (f : failure) : Prop := f = fails_undefined.

Definition not_truncated (f : failure) : Prop :=
  forall w, f = fails_throwing (pbf_error w) -> kind_of_what w <> Truncated.

(** An input that is empty: the read thread pushes nothing but the empty
    string that ends its output. *)
Definition empty_input (q : list (list Byte.byte)) : Prop :=
  q = [] \/ q = [[]].








(** The member of the copy of a relation that [keep_member] turned down. *)
Definition uninteresting (m : osmium.RelationMember) : osmium.RelationMember :=
  {| osmium.member_type := osmium.member_type m; osmium.member_ref := 0;
     osmium.member_role := osmium.member_role m |}.

(** ** Further notions *)

#[global] Instance item_type_eq_dec : EqDecision osmium.item_type.
Proof. solve_decision. Defined.

(** Whether the caller asked for entities of kind [ty]. *)
Definition wanted (rt : osmium.entity_bits) (ty : osmium.item_type) : bool :=
  match ty with
  | osmium.node => osmium.want_node rt
  | osmium.way => osmium.want_way rt
  | osmium.relation => osmium.want_relation rt
  end.

(** Block [b] with other groups. *)
Definition with_groups (b : OSMPBF.PrimitiveBlock)
    (gs : list OSMPBF.PrimitiveGroup) : OSMPBF.PrimitiveBlock :=
  {| OSMPBF.stringtable := OSMPBF.stringtable b;
     OSMPBF.primitivegroup := gs;
     OSMPBF.opt_granularity := OSMPBF.opt_granularity b;
     OSMPBF.opt_lat_offset := OSMPBF.opt_lat_offset b;
     OSMPBF.opt_lon_offset := OSMPBF.opt_lon_offset b;
     OSMPBF.opt_date_granularity := OSMPBF.opt_date_granularity b |}.

(** A group none of whose four fields holds anything. *)
Definition empty_group (g : OSMPBF.PrimitiveGroup) : Prop :=
  OSMPBF.dense g = None /\ OSMPBF.ways g = [] /\
  OSMPBF.relations g = [] /\ OSMPBF.nodes g = [].

(** The one kind a group counts as, and the number of its wire objects of
    that kind: dense nodes before ways before relations before nodes. *)
Definition group_kind (g : OSMPBF.PrimitiveGroup)
  : option (osmium.item_type * nat) :=
  match OSMPBF.dense g with
  | Some d => Some (osmium.node, length (OSMPBF.dense_id d))
  | None =>
      match OSMPBF.ways g, OSMPBF.relations g, OSMPBF.nodes g with
      | _ :: _, _, _ => Some (osmium.way, length (OSMPBF.ways g))
      | [], _ :: _, _ => Some (osmium.relation, length (OSMPBF.relations g))
      | [], [], _ :: _ => Some (osmium.node, length (OSMPBF.nodes g))
      | [], [], [] => None
      end
  end.

(** A loop over the elements of a list, as a fold that stops at the first
    failure. *)
Fixpoint fold_outcome {A S : Type} (F : A -> S -> outcome S) (l : list A)
    (s : S) : outcome S :=
  match l with
  | [] => Ok s
  | a :: l' => let* s' := F a s in fold_outcome F l' s'
  end.

(** The bytes of the queue before the empty string that ends the input. *)
Fixpoint before_eof (q : list (list Byte.byte)) : list Byte.byte :=
  match q with
  | [] => []
  | [] :: _ => []
  | (b :: new_data) :: q' => (b :: new_data) ++ before_eof q'
  end.

(** The input that is left to a reader: what it has buffered and what the
    queue holds before the end of the input. *)
Definition pending (r : InputQueueReader.t) : list Byte.byte :=
  InputQueueReader.m_buffer r ++ before_eof (InputQueueReader.m_queue r).

(** Everything buffered or queued, in bytes. *)
Definition remaining (r : InputQueueReader.t) : nat :=
  (length (InputQueueReader.m_buffer r)
   + length (concat (InputQueueReader.m_queue r)))%nat.

(** The frame at the head of the input [st]: the length its first four
    bytes give, the bytes of the blob header, and the input behind the
    header. *)
Definition frame_size (st : list Byte.byte) : Z :=
  PBFInputFormat.ntohl (take 4 st).

Definition frame_header (st : list Byte.byte) : list Byte.byte :=
  take (Z.to_nat (frame_size st)) (drop 4 st).

Definition behind_header (st : list Byte.byte) : list Byte.byte :=
  drop (Z.to_nat (frame_size st)) (drop 4 st).

(** The other threads let every wait of the reader thread come to an end:
    from every look on there is a look at which [m_done] is set or the
    work queue of the pool is below its limit, and, however many futures
    have been pushed, one at which [m_done] is set or the consumer has
    popped all of them but the limit. *)
Definition waits_end (sch : PBFInputFormat.schedule) : Prop :=
  (forall t, exists t', (t <= t')%nat /\
     (PBFInputFormat.done_at sch t' = true \/
      (PBFInputFormat.work_queue_size sch t'
       < PBFInputFormat.m_max_work_queue_size)%nat)) /\
  (forall pushed t, exists t', (t <= t')%nat /\
     (PBFInputFormat.done_at sch t' = true \/
      (pushed - PBFInputFormat.popped sch t'
       <= PBFInputFormat.m_max_buffer_queue_size)%nat)).

(** From look [t] on the pool never works its queue down and nobody sets
    [m_done]. *)
Definition pool_stays_full (sch : PBFInputFormat.schedule) (t : nat)
  : Prop :=
  forall t', (t <= t')%nat ->
    PBFInputFormat.done_at sch t' = false /\
    (PBFInputFormat.m_max_work_queue_size
     <= PBFInputFormat.work_queue_size sch t')%nat.

(** From look [t] on [m_done] is set. *)
Definition done_from (sch : PBFInputFormat.schedule) (t : nat) : Prop :=
  forall t', (t <= t')%nat -> PBFInputFormat.done_at sch t' = true.

(** The required features the header parser knows. *)
Definition supported_feature (feature : string) : bool :=
  String.eqb feature "OsmSchema-V0.6" || String.eqb feature "DenseNodes"
  || String.eqb feature "HistoricalInformation".

(** The key an optional feature is stored under. *)
Definition optional_feature_key (i : nat) : string :=
  "pbf_optional_feature_" +:+ to_string (Z.of_nat i).

(** One round of the loop over the required features. *)
Definition required_feature (feature : string) (h : Header.t)
  : outcome Header.t :=
  if String.eqb feature "OsmSchema-V0.6" then Ok h
  else if String.eqb feature "DenseNodes"
  then Ok (Header.set h "pbf_dense_nodes" "true")
  else if String.eqb feature "HistoricalInformation"
  then Ok (Header.set_has_multiple_object_versions h true)
  else Throw (pbf_error (required_feature_not_supported feature)).

(** What the required features [features] make of header [h]. *)
Definition required_done (features : list string) (h h' : Header.t) : Prop :=
  Header.boxes h' = Header.boxes h /\
  (Header.has_multiple_object_versions h' = true <->
   Header.has_multiple_object_versions h = true \/
   "HistoricalInformation"%string ∈ features) /\
  ("DenseNodes"%string ∈ features ->
   Header.options h'
   = <["pbf_dense_nodes"%string := "true"%string]> (Header.options h)) /\
  ("DenseNodes"%string ∉ features -> Header.options h' = Header.options h).

(** A member vector in the order of [operator<] of MemberMeta: by member
    id. *)
Definition sorted_by_id (l : list relations.MemberMeta) : Prop :=
  StronglySorted
    (fun a b => relations.member_id a <= relations.member_id b) l.

(** What the standard guarantees of [std::sort]: the result holds the
    entries of the vector, in non-descending order of [operator<]. *)
Definition sorts
    (std_sort : list relations.MemberMeta -> list relations.MemberMeta)
  : Prop :=
  forall l, sorted_by_id (std_sort l) /\ std_sort l ≡ₚ l.

(** What an index entry is made for: the member id, the slot of the
    relation and the position of the member in it. *)
Definition entry_key (e : relations.MemberMeta) : Z * nat * nat :=
  (relations.member_id e, relations.relation_pos e, relations.member_pos e).

(** Every index entry names a slot of the vector of relations. *)
Definition index_in_range (c : relations.Collector.t) : Prop :=
  forall ty,
    Forall (fun e =>
              (relations.relation_pos e
               < length (relations.Collector.m_relations c))%nat)
      (relations.Collector.member_meta c ty).

(** The hook of the second pass for an object that is in no relation. *)
Definition not_in_any_relation (object : osmium.Entity) : relations.event :=
  match object with
  | osmium.a_node _ =>
      relations.node_not_in_any_relation (osmium.id (osmium.object object))
  | osmium.a_way _ =>
      relations.way_not_in_any_relation (osmium.id (osmium.object object))
  | osmium.a_relation _ =>
      relations.relation_not_in_any_relation
        (osmium.id (osmium.object object))
  end.

(** Whether the second pass looks at objects of the kind of [object]. *)
Definition interested (TNodes TWays TRelations : bool)
    (object : osmium.Entity) : bool :=
  match object with
  | osmium.a_node _ => TNodes
  | osmium.a_way _ => TWays
  | osmium.a_relation _ => TRelations
  end.

(** The member vector of an object's kind once the object is stored at
    [pos]: the entries of its id point to the copy. *)
Definition pointing_to (object : osmium.Entity) (pos : nat)
    (mmv : list relations.MemberMeta) : list relations.MemberMeta :=
  map (fun m =>
         if relations.member_id m =? osmium.id (osmium.object object)
         then relations.set_buffer_offset m pos else m) mmv.

(** The index entries of kind [ty] that [add_relation] makes for the
    members of a relation stored in slot [slot], [n] being the position of
    the first member: one for every member of that kind that is kept. *)
Fixpoint index_entries (keep : osmium.RelationMember -> bool) (slot : nat)
    (ty : osmium.item_type) (n : nat) (members : list osmium.RelationMember)
  : list relations.MemberMeta :=
  match members with
  | [] => []
  | m :: rest =>
      (if keep m && bool_decide (osmium.member_type m = ty)
       then [{| relations.member_id := osmium.member_ref m;
                relations.relation_pos := slot;
                relations.member_pos := n;
                relations.buffer_offset := None |}]
       else [])
      ++ index_entries keep slot ty (S n) rest
  end.

(** The copy of a relation as [add_relation] keeps it. *)
Definition stored_copy (keep : osmium.RelationMember -> bool)
    (relation : osmium.Relation) : osmium.Relation :=
  {| osmium.r_object := osmium.r_object relation;
     osmium.r_members :=
       map (fun m => if keep m then m else uninteresting m)
         (osmium.r_members relation);
     osmium.r_tags := osmium.r_tags relation |}.

(** The colon, and the names [open_input_file_or_url] takes for
    protocols. *)
Definition colon : Ascii.ascii := Ascii.ascii_of_nat 58.

Definition url_protocols : list string :=
  ["http"; "https"; "ftp"; "file"]%string.

(** ** Sample inputs *)

Module Sample.

Import OSMPBF.

Definition strings : list string :=
  [""; "k1"; "v1"; "k2"; "v2"]%string.

Definition block (groups : list PrimitiveGroup) : PrimitiveBlock :=
  {| stringtable := strings; primitivegroup := groups;
     opt_granularity := None; opt_lat_offset := None;
     opt_lon_offset := None; opt_date_granularity := None |}.

Definition info (ts : Z) : Info :=
  {| info_version := 1; info_timestamp := ts; info_changeset := 1;
     info_uid := 1; info_user_sid := 0; info_visible := None |}.

(** Scenario 4 of the specification: a way with refs 100, 5, -10. *)
Definition way : Way :=
  {| way_id := 1; way_keys := [1]; way_vals := [2];
     way_info := Some (info 5); way_refs := [100; 5; -10] |}.

Definition relation : Relation :=
  {| relation_id := 2; relation_keys := []; relation_vals := [];
     relation_info := None; roles_sid := [0; 0];
     memids := [7; 1]; types := [WAY; WAY] |}.

Definition node : Node :=
  {| node_id := 3; node_keys := []; node_vals := [];
     node_info := Some (info 7);
     node_lat := 520000000; node_lon := 1300000000 |}.

Definition way_group : PrimitiveGroup :=
  {| nodes := []; dense := None; ways := [way]; relations := [] |}.

Definition relation_group : PrimitiveGroup :=
  {| nodes := []; dense := None; ways := []; relations := [relation] |}.

Definition node_group : PrimitiveGroup :=
  {| nodes := [node]; dense := None; ways := []; relations := [] |}.

(** A delta column that puts every node at the same raw value. *)
Definition constant_column (v : Z) (ids : list Z) : list Z :=
  match ids with
  | [] => []
  | _ :: rest => v :: map (fun _ => 0) rest
  end.

Definition dense_of (ids : list Z) (di : option DenseInfo)
    (kv : list Z) : DenseNodes :=
  {| dense_id := ids; denseinfo := di;
     dense_lat := constant_column 520000000 ids;
     dense_lon := constant_column 1300000000 ids;
     keys_vals := kv |}.

Definition dense_group (d : DenseNodes) : PrimitiveGroup :=
  {| nodes := []; dense := Some d; ways := []; relations := [] |}.

(** Scenario 3 of the specification: two nodes, tags (k1, v1) and
    (k2, v2). *)
Definition dense_tagged : DenseNodes :=
  dense_of [10; 5] None [1; 2; 0; 3; 4; 0].

(** Two nodes with meta data; the second timestamp delta makes the
    accumulated timestamp negative. *)
Definition dense_negative_timestamp : DenseNodes :=
  dense_of [10; 5]
    (Some {| di_version := [1; 1]; di_timestamp := [5; -7];
             di_changeset := [1; 1]; di_uid := [1; 0];
             di_user_sid := [0; 0]; di_visible := [] |})
    [].

Definition dense_with_info : DenseNodes :=
  dense_of [10; 5]
    (Some {| di_version := [1; 1]; di_timestamp := [5; 7];
             di_changeset := [1; 1]; di_uid := [1; 0];
             di_user_sid := [0; 0]; di_visible := [] |})
    [].

(** The locals of the dense loop after the first of these nodes. *)
Definition locals_after_first : PBFPrimitiveBlockParser.dense_locals :=
  {| PBFPrimitiveBlockParser.last_dense_id := 10;
     PBFPrimitiveBlockParser.last_dense_latitude := 520000000;
     PBFPrimitiveBlockParser.last_dense_longitude := 1300000000;
     PBFPrimitiveBlockParser.last_dense_uid := 1;
     PBFPrimitiveBlockParser.last_dense_user_sid := 0;
     PBFPrimitiveBlockParser.last_dense_changeset := 1;
     PBFPrimitiveBlockParser.last_dense_timestamp := 5;
     PBFPrimitiveBlockParser.last_dense_tag := 0 |}.

(** A protobuf reader as far as the empty input goes: a message without
    required fields, as Blob is, parses from no bytes to the message with
    every field absent. *)
Definition ParseBlob (bytes : list Byte.byte) : option Blob :=
  match bytes with
  | [] => Some Blob_empty
  | _ :: _ => None
  end.

(** The wire form of a BlobHeader of type "OSMHeader" whose datasize is
    -1: field 1, the 9 bytes of the type, then field 3, the varint of the
    64 bit two's complement of -1. *)
Definition header_bytes : list Byte.byte :=
  [Byte.x0a; Byte.x09;
   Byte.x4f; Byte.x53; Byte.x4d; Byte.x48; Byte.x65; Byte.x61; Byte.x64;
   Byte.x65; Byte.x72;
   Byte.x18;
   Byte.xff; Byte.xff; Byte.xff; Byte.xff; Byte.xff; Byte.xff; Byte.xff;
   Byte.xff; Byte.xff; Byte.x01].

(** An input that consists of this header behind its length, 22. *)
Definition negative_datasize_input : list (list Byte.byte) :=
  [[Byte.x00; Byte.x00; Byte.x00; Byte.x16] ++ header_bytes].

Fixpoint bytes_eqb (a b : list Byte.byte) : bool :=
  match a, b with
  | [], [] => true
  | x :: a', y :: b' => Byte.eqb x y && bytes_eqb a' b'
  | _, _ => false
  end.

(** A protobuf reader as far as these bytes go. *)
Definition ParseBlobHeader (bytes : list Byte.byte) : option BlobHeader :=
  if bytes_eqb bytes header_bytes
  then Some {| bh_type := "OSMHeader"; bh_datasize := -1 |}
  else None.

Definition ParseHeaderBlock (bytes : list Byte.byte) : option HeaderBlock :=
  None.

Definition zlib_uncompress (data : list Byte.byte) (raw_size : Z)
  : string + list Byte.byte :=
  inl "zlib error"%string.

Definition to_iso (t : Z) : string := to_string t.

(** Scenario 6 of the specification: the relation R1 with the member
    ways 7 and 8. *)
Definition object_of (i : Z) : osmium.Object :=
  {| osmium.id := i; osmium.version := 1; osmium.changeset := 1;
     osmium.timestamp := 0; osmium.uid := 0; osmium.visible := true;
     osmium.user := EmptyString |}.

Definition a_way_of (i : Z) : osmium.Entity :=
  osmium.a_way {| osmium.w_object := object_of i; osmium.w_nodes := [];
                  osmium.w_tags := [] |}.

Definition member_way (i : Z) : osmium.RelationMember :=
  {| osmium.member_type := osmium.way; osmium.member_ref := i;
     osmium.member_role := EmptyString |}.

Definition R1 : osmium.Relation :=
  {| osmium.r_object := object_of 1;
     osmium.r_members := [member_way 7; member_way 8];
     osmium.r_tags := [] |}.

Definition keep_all_relations (r : osmium.Relation) : bool := true.

Definition keep_all_members (m : relations.RelationMeta)
    (member : osmium.RelationMember) : bool := true.

Definition keep_no_member (m : relations.RelationMeta)
    (member : osmium.RelationMember) : bool := false.

(** A purge that finds nothing to drop. *)
Definition purge_nothing (b : Buffer.t osmium.Entity)
  : Buffer.t osmium.Entity * list (nat * nat) := (b, []).

(** The collector after the first pass over R1. *)
Definition collector_with_R1 : relations.Collector.t :=
  {| relations.Collector.m_relations_buffer :=
       {| Buffer.data := [R1]; Buffer.committed := 1 |};
     relations.Collector.m_members_buffer := Buffer.new;
     relations.Collector.m_relations :=
       [{| relations.relation_offset := 0; relations.members_needed := 2;
           relations.members_found := 0 |}];
     relations.Collector.m_member_meta :=
       {| relations.mm_node := [];
          relations.mm_way :=
            [{| relations.member_id := 7; relations.relation_pos := 0;
                relations.member_pos := 0;
                relations.buffer_offset := None |};
             {| relations.member_id := 8; relations.relation_pos := 0;
                relations.member_pos := 1;
                relations.buffer_offset := None |}];
          relations.mm_relation := [] |};
     relations.Collector.m_count_complete := 0;
     relations.Collector.calls := [] |}.

(** Two dense groups in one block. *)
Definition two_dense_groups : PrimitiveBlock :=
  block [dense_group (dense_of [10] None []);
         dense_group (dense_of [5] None [])].

(** A caller that asks for ways only. *)
Definition ways_only : osmium.entity_bits :=
  {| osmium.want_node := false; osmium.want_way := true;
     osmium.want_relation := false |}.

(** A group that holds nothing, and one that holds a way and a
    relation. *)
Definition nothing_group : PrimitiveGroup :=
  {| nodes := []; dense := None; ways := []; relations := [] |}.

Definition mixed_group : PrimitiveGroup :=
  {| nodes := []; dense := None; ways := [way]; relations := [relation] |}.

(** A deleted node of a history file. *)
Definition deleted_node : Node :=
  {| node_id := 4; node_keys := []; node_vals := [];
     node_info :=
       Some {| info_version := 2; info_timestamp := 9; info_changeset := 1;
               info_uid := 1; info_user_sid := 0;
               info_visible := Some false |};
     node_lat := 520000000; node_lon := 1300000000 |}.

Definition deleted_node_group : PrimitiveGroup :=
  {| nodes := [deleted_node]; dense := None; ways := []; relations := [] |}.

(** A block that gives its dates in units of 100 milliseconds. *)
Definition block_of_tenths (groups : list PrimitiveGroup) : PrimitiveBlock :=
  {| stringtable := strings; primitivegroup := groups;
     opt_granularity := None; opt_lat_offset := None;
     opt_lon_offset := None; opt_date_granularity := Some 100 |}.

(** An input of two bytes, in one piece, and one of five. *)
Definition two_bytes : list (list Byte.byte) := [[Byte.x00; Byte.x00]; []].

Definition five_bytes : list (list Byte.byte) :=
  [[Byte.x01; Byte.x02]; [Byte.x03; Byte.x04; Byte.x05]; []].

(** A protobuf reader that takes whatever it is given for the header of a
    data blob of size 0, and an input with an empty header before the
    bytes of a blob that never gets read. *)
Definition ParseDataHeader (bytes : list Byte.byte) : option BlobHeader :=
  Some {| bh_type := "OSMData"; bh_datasize := 0 |}.

Definition zero_datasize_input : list (list Byte.byte) :=
  [[Byte.x00; Byte.x00; Byte.x00; Byte.x00; Byte.x0a; Byte.x0b]; []].

(** Other threads that never keep the reader thread waiting: nobody sets
    [m_done], the pool has no work queued and the consumer pops a future
    between any two looks. *)
Definition prompt : PBFInputFormat.schedule :=
  {| PBFInputFormat.done_at := fun _ => false;
     PBFInputFormat.work_queue_size := fun _ => 0%nat;
     PBFInputFormat.popped := fun t => t |}.

(** A pool that never works its queue of ten down, and a destructor that
    has set [m_done] before the reader thread looks. *)
Definition full_pool : PBFInputFormat.schedule :=
  {| PBFInputFormat.done_at := fun _ => false;
     PBFInputFormat.work_queue_size := fun _ => 10%nat;
     PBFInputFormat.popped := fun _ => 0%nat |}.

Definition destroyed : PBFInputFormat.schedule :=
  {| PBFInputFormat.done_at := fun _ => true;
     PBFInputFormat.work_queue_size := fun _ => 10%nat;
     PBFInputFormat.popped := fun _ => 0%nat |}.

(** A protobuf reader that takes whatever it is given for the header of a
    data blob of two bytes, and an input of one such blob. *)
Definition ParseTwoByteHeader (bytes : list Byte.byte) : option BlobHeader :=
  Some {| bh_type := "OSMData"; bh_datasize := 2 |}.

Definition one_blob_input : list (list Byte.byte) :=
  [[Byte.x00; Byte.x00; Byte.x00; Byte.x00; Byte.x0a; Byte.x0b]; []].

(** A header block and a protobuf reader that yields it. *)
Definition header_block : HeaderBlock :=
  {| hb_bbox := None;
     required_features := ["OsmSchema-V0.6"; "DenseNodes"]%string;
     optional_features := ["Sort.Type_then_ID"]%string;
     writingprogram := Some "osmium"%string;
     osmosis_replication_timestamp := None;
     osmosis_replication_sequence_number := None;
     osmosis_replication_base_url := None |}.

Definition ParseSampleHeaderBlock (bytes : list Byte.byte)
  : option HeaderBlock := Some header_block.

(** A [keep_member] that looks at the kind of the member only. *)
Definition is_way (member : osmium.RelationMember) : bool :=
  match osmium.member_type member with
  | osmium.way => true
  | _ => false
  end.

(** A [std::sort]: the insertion sort, which keeps entries of equal ids
    in the order they come in. *)
Fixpoint insert_sorted (m : relations.MemberMeta)
    (l : list relations.MemberMeta) : list relations.MemberMeta :=
  match l with
  | [] => [m]
  | a :: l' =>
      if relations.member_id m <? relations.member_id a then m :: l
      else a :: insert_sorted m l'
  end.

Definition insertion_sort (l : list relations.MemberMeta)
  : list relations.MemberMeta :=
  fold_left (fun acc m => insert_sorted m acc) l [].

(** The members buffer and the member vectors once way 7 is stored. *)
Definition members_with_way_7 : Buffer.t osmium.Entity :=
  {| Buffer.data := [a_way_of 7]; Buffer.committed := 1 |}.

Definition vectors_with_way_7 : relations.member_vectors :=
  {| relations.mm_node := [];
     relations.mm_way :=
       [{| relations.member_id := 7; relations.relation_pos := 0;
           relations.member_pos := 0;
           relations.buffer_offset := Some 0%nat |};
        {| relations.member_id := 8; relations.relation_pos := 0;
           relations.member_pos := 1;
           relations.buffer_offset := None |}];
     relations.mm_relation := [] |}.

(** A relation that carries one member id more than it has types and
    roles. *)
Definition relation_with_spare_memid : Relation :=
  {| relation_id := 2; relation_keys := []; relation_vals := [];
     relation_info := None; roles_sid := [0; 0];
     memids := [7; 1; 1]; types := [WAY; WAY] |}.

Definition spare_memid_group : PrimitiveGroup :=
  {| nodes := []; dense := None; ways := [];
     relations := [relation_with_spare_memid] |}.

(** A block with a granularity of 1000 nanodegrees and with offsets, and a
    dense group of two nodes whose second one lies west and north of the
    first. *)
Definition block_with_offsets (groups : list PrimitiveGroup)
  : PrimitiveBlock :=
  {| stringtable := strings; primitivegroup := groups;
     opt_granularity := Some 1000; opt_lat_offset := Some 50;
     opt_lon_offset := Some 250; opt_date_granularity := None |}.

Definition dense_moving : DenseNodes :=
  {| dense_id := [10; 5]; denseinfo := None;
     dense_lat := [520000; 10]; dense_lon := [1300000; -20];
     keys_vals := [] |}.

End Sample.

(** * Properties *)

(** ** Machine integers *)

Lemma wrap64_id z : Int.in_int64 z -> Int.wrap64 z = z.
Proof.
  unfold Int.in_int64, Int.wrap64, Int.wrap. intros H.
  rewrite Z.mod_small; lia.
Qed.

Lemma wrap32_id z : Int.in_int32 z -> Int.wrap32 z = z.
Proof.
  unfold Int.in_int32, Int.wrap32, Int.wrap. intros H.
  rewrite Z.mod_small; lia.
Qed.

Lemma wrap64_range z : Int.in_int64 (Int.wrap64 z).
Proof.
  unfold Int.in_int64, Int.wrap64, Int.wrap.
  pose proof (Z.mod_pos_bound (z + 2 ^ (64 - 1)) (2 ^ 64) ltac:(lia)). lia.
Qed.

Lemma wrap64_add_l a b : Int.wrap64 (Int.wrap64 a + b) = Int.wrap64 (a + b).
Proof.
  unfold Int.wrap64, Int.wrap. f_equal.
  replace ((a + 2 ^ (64 - 1)) mod 2 ^ 64 - 2 ^ (64 - 1) + b + 2 ^ (64 - 1))
    with ((a + 2 ^ (64 - 1)) mod 2 ^ 64 + b) by lia.
  rewrite Zplus_mod_idemp_l. f_equal. lia.
Qed.

Lemma uwrap32_id z : 0 <= z < 2 ^ 32 -> Int.uwrap32 z = z.
Proof. unfold Int.uwrap32. intros H. apply Z.mod_small. lia. Qed.

(** ** The outcome monad and loops *)

Lemma bind_Ok_inv {A B : Type} (m : outcome A) (f : A -> outcome B) (b : B) :
  bind m f = Ok b -> exists a, m = Ok a /\ f a = Ok b.
Proof. destruct m; simpl; intros H; try discriminate. eauto. Qed.

Lemma outcome_map_Ok_inv {A B : Type} (f : A -> B) (m : outcome A) (b : B) :
  outcome_map f m = Ok b -> exists a, m = Ok a /\ b = f a.
Proof.
  unfold outcome_map. intros H. apply bind_Ok_inv in H as (a & -> & H).
  exists a. split; [reflexivity | congruence].
Qed.

Lemma get_Ok_inv {A : Type} (l : list A) (i : nat) (a : A) :
  get l i = Ok a -> l !! i = Some a.
Proof. unfold get. destruct (l !! i); congruence. Qed.

Lemma get_lookup {A : Type} (l : list A) (i : nat) (a : A) :
  l !! i = Some a -> get l i = Ok a.
Proof. unfold get. intros ->. reflexivity. Qed.

Lemma assert_Ok_inv N b u : assert N b = Ok u -> N = true \/ b = true.
Proof. unfold assert. destruct N, b; intros H; auto; discriminate. Qed.

(** Take a successful sequence of binds apart, one bind at a time. *)
Ltac inv_bind H :=
  let a := fresh "a" in
  let Ha := fresh "Hb" in
  apply bind_Ok_inv in H as (a & Ha & H).

Tactic Notation "inv_bind_as" hyp(H) ident(a) ident(Ha) :=
  apply bind_Ok_inv in H as (a & Ha & H).

(** The loop rule: an invariant that every successful round preserves holds
    when the loop has returned. *)
Lemma for_loop_invariant {S : Type} (Inv : nat -> S -> Prop)
    (body : nat -> S -> outcome S) :
  forall (n lo : nat) (s s' : S),
    for_loop lo n body s = Ok s' ->
    Inv lo s ->
    (forall i st st',
        (lo <= i < lo + n)%nat -> Inv i st -> body i st = Ok st' ->
        Inv (Datatypes.S i) st') ->
    Inv (lo + n)%nat s'.
Proof.
  induction n as [|n IH]; intros lo s s' Hrun Hinv Hstep; simpl in Hrun.
  - injection Hrun as <-. by rewrite Nat.add_0_r.
  - inv_bind Hrun.
    replace (lo + Datatypes.S n)%nat with (Datatypes.S lo + n)%nat by lia.
    apply (IH (Datatypes.S lo) a s' Hrun).
    + apply (Hstep lo s a); [lia | done | done].
    + intros i st st' Hi. apply Hstep. lia.
Qed.

(** A loop whose rounds all succeed returns. *)
Lemma for_loop_total {S : Type} (Inv : nat -> S -> Prop)
    (body : nat -> S -> outcome S) :
  forall (n lo : nat) (s : S),
    Inv lo s ->
    (forall i st,
        (lo <= i < lo + n)%nat -> Inv i st ->
        exists st', body i st = Ok st' /\ Inv (Datatypes.S i) st') ->
    exists s', for_loop lo n body s = Ok s' /\ Inv (lo + n)%nat s'.
Proof.
  induction n as [|n IH]; intros lo s Hinv Hstep; simpl.
  - exists s. by rewrite Nat.add_0_r.
  - destruct (Hstep lo s) as (st' & Hb & Hinv'); [lia | done |].
    rewrite Hb. simpl.
    replace (lo + Datatypes.S n)%nat with (Datatypes.S lo + n)%nat by lia.
    apply IH; [done |]. intros i st Hi. apply Hstep. lia.
Qed.

(** ** Prefix sums *)

Lemma Zsum_app l1 l2 : Zsum (l1 ++ l2) = Zsum l1 + Zsum l2.
Proof. unfold Zsum. induction l1 as [|a l1 IH]; simpl; lia. Qed.

Lemma scan64_length acc l : length (scan64 acc l) = length l.
Proof. revert acc. induction l; intros; simpl; auto. Qed.

Lemma scan64_app acc l1 l2 :
  scan64 acc (l1 ++ l2) =
  scan64 acc l1 ++ scan64 (fold_left Int.add64 l1 acc) l2.
Proof.
  revert acc. induction l1 as [|a l1 IH]; intros acc; simpl; [done |].
  by rewrite IH.
Qed.

Lemma fold_add64_wrap l acc :
  Int.wrap64 (fold_left Int.add64 l acc) = Int.wrap64 (acc + Zsum l).
Proof.
  revert acc. induction l as [|a l IH]; intros acc; simpl.
  - f_equal. unfold Zsum. simpl. lia.
  - rewrite IH. unfold Int.add64. rewrite wrap64_add_l. f_equal.
    unfold Zsum. simpl. lia.
Qed.

(** Entry [k] of the decoded sequence is the [int64_t] sum of the first
    [k + 1] deltas. *)
Lemma scan64_lookup l k :
  (k < length l)%nat ->
  scan64 0 l !! k = Some (Int.wrap64 (Zsum (take (Datatypes.S k) l))).
Proof.
  intros Hk.
  destruct (lookup_lt_is_Some_2 l k Hk) as [d Hd].
  rewrite <- (take_drop_middle l k d Hd) at 1.
  rewrite scan64_app. simpl.
  rewrite lookup_app_r; rewrite scan64_length, length_take_le by lia; [|lia].
  rewrite Nat.sub_diag. simpl. f_equal.
  rewrite (take_S_r l k d Hd), Zsum_app.
  unfold Int.add64.
  rewrite <- (wrap64_add_l (fold_left _ _ _)), fold_add64_wrap, wrap64_add_l.
  f_equal. unfold Zsum. simpl. lia.
Qed.

Lemma prefix_sums_from_length acc l :
  length (prefix_sums_from acc l) = length l.
Proof. revert acc. induction l; intros; simpl; auto. Qed.

Lemma prefix_sums_from_lookup l : forall acc k,
  (k < length l)%nat ->
  prefix_sums_from acc l !! k = Some (acc + Zsum (take (Datatypes.S k) l)).
Proof.
  induction l as [|d l IH]; intros acc k Hk; simpl in *; [lia |].
  destruct k as [|k]; simpl.
  - f_equal. unfold Zsum. simpl. lia.
  - rewrite IH by lia. f_equal. unfold Zsum. simpl. lia.
Qed.

(** Without overflow the [int64_t] loop computes the prefix sums. *)
Lemma scan64_prefix_sums l :
  Forall Int.in_int64 (prefix_sums l) -> scan64 0 l = prefix_sums l.
Proof.
  intros Hr. apply list_eq. intros k.
  destruct (decide (k < length l)%nat) as [Hk|Hk].
  - rewrite scan64_lookup by done.
    unfold prefix_sums in *. rewrite prefix_sums_from_lookup by done.
    f_equal. rewrite Z.add_0_l. apply wrap64_id.
    rewrite Forall_lookup in Hr.
    apply (Hr k). rewrite prefix_sums_from_lookup by done. by rewrite Z.add_0_l.
  - rewrite !lookup_ge_None_2; [done | |].
    + unfold prefix_sums. rewrite prefix_sums_from_length. lia.
    + rewrite scan64_length. lia.
Qed.

(** ** The block parser *)

Section BlockParserFacts.

Import OSMPBF osmium PBFPrimitiveBlockParser.

Lemma fold_add64_snoc l d :
Int.add64 (fold_left Int.add64 l 0) d = Int.wrap64 (Zsum (l ++ [d])).
Proof.
unfold Int.add64.
rewrite <- wrap64_add_l, fold_add64_wrap, wrap64_add_l, Zsum_app.
f_equal. unfold Zsum. simpl. lia.
Qed.

Lemma parse_refs_loop rest : forall pre acc out,
for_loop (length pre) (length rest)
  (fun n (st : Z * list Z) =>
     let* d := get (pre ++ rest) n in
     let ref := Int.add64 (fst st) d in
     Ok (ref, snd st ++ [ref]))
  (acc, out)
= Ok (fold_left Int.add64 rest acc, out ++ scan64 acc rest).
Proof.
induction rest as [|d rest IH]; intros pre acc out; simpl.
- by rewrite app_nil_r.
- unfold get at 1. rewrite list_lookup_middle by done. simpl.
  specialize (IH (pre ++ [d]) (Int.add64 acc d) (out ++ [Int.add64 acc d])).
  rewrite length_app in IH. simpl in IH.
  rewrite Nat.add_1_r, <- !app_assoc in IH. simpl in IH.
  exact IH.
Qed.

(** The reference loop of a way always returns, with the [int64_t] prefix
  sums of the deltas. *)
Lemma parse_refs_scan refs : parse_refs refs = Ok (scan64 0 refs).
Proof.
unfold parse_refs.
pose proof (parse_refs_loop refs [] 0 []) as H. simpl in H.
rewrite H. reflexivity.
Qed.

Lemma parse_members_Ok p pr ms :
parse_members p pr = Ok ms ->
length ms = length (types pr) /\
forall k, (k < length (types pr))%nat ->
  exists m d ty sid,
    ms !! k = Some m /\ memids pr !! k = Some d /\
    types pr !! k = Some ty /\ roles_sid pr !! k = Some sid /\
    member_ref m = Int.wrap64 (Zsum (take (S k) (memids pr))) /\
    member_type m = osmpbf_membertype_to_item_type ty /\
    s p sid = Ok (member_role m).
Proof.
unfold parse_members. intros H.
apply outcome_map_Ok_inv in H as ([ref rml] & H & ->). simpl.
apply (for_loop_invariant
  (fun i (st : Z * list RelationMember) =>
     fst st = fold_left Int.add64 (take i (memids pr)) 0 /\
     length (snd st) = i /\
     forall k, (k < i)%nat ->
       exists m d ty sid,
         snd st !! k = Some m /\ memids pr !! k = Some d /\
         types pr !! k = Some ty /\ roles_sid pr !! k = Some sid /\
         member_ref m = Int.wrap64 (Zsum (take (S k) (memids pr))) /\
         member_type m = osmpbf_membertype_to_item_type ty /\
         s p sid = Ok (member_role m))) in H.
- simpl in H. destruct H as (_ & Hlen & Hk). split; [done |]. exact Hk.
- simpl. split; [done |]. split; [done |]. intros k Hk. lia.
- clear H. intros i [r l] st' Hi (Hr & Hl & Hk) Hb. simpl in *.
  inv_bind Hb. apply get_Ok_inv in Hb0.
  inv_bind Hb. apply get_Ok_inv in Hb1.
  inv_bind Hb. apply get_Ok_inv in Hb2.
  inv_bind Hb. injection Hb as <-. simpl.
  rewrite (take_S_r _ _ _ Hb0), fold_left_app. simpl.
  subst r. split; [done |]. split; [rewrite length_app; simpl; lia |].
  intros k Hk'. destruct (decide (k = i)) as [->|Hne].
  + eexists _, a, a0, a1. rewrite lookup_app_r, Hl, Nat.sub_diag by lia.
    simpl. repeat split; try done.
    rewrite (take_S_r _ _ _ Hb0). apply fold_add64_snoc.
  + destruct (Hk k) as (m & d & ty & sid & Hm & Hrest); [lia |].
    exists m, d, ty, sid. rewrite lookup_app_l by lia. by split.
Qed.

(** A loop that appends one decoded item per wire item. *)
Lemma for_loop_collect {A B : Type} (l : list A) (R : A -> B -> Prop)
  (body : nat -> list B -> outcome (list B)) (buf buf' : list B) :
(forall i b b', body i b = Ok b' ->
   exists a x, l !! i = Some a /\ b' = b ++ [x] /\ R a x) ->
for_loop 0 (length l) body buf = Ok buf' ->
exists xs, buf' = buf ++ xs /\ Forall2 R l xs.
Proof.
intros Hbody Hrun.
apply (for_loop_invariant
  (fun i b => exists xs, b = buf ++ xs /\ Forall2 R (take i l) xs)) in Hrun.
- simpl in Hrun. by rewrite firstn_all in Hrun.
- exists []. rewrite app_nil_r. split; [done | constructor].
- intros i st st' _ (xs & -> & HF) Hb.
  destruct (Hbody _ _ _ Hb) as (a & x & Ha & -> & HR).
  exists (xs ++ [x]). rewrite app_assoc. split; [done |].
  rewrite (take_S_r _ _ _ Ha). apply Forall2_app; [done |].
  by constructor.
Qed.

Lemma parse_way_group_Ok N p group buf buf' :
parse_way_group N p group buf = Ok buf' ->
exists es, buf' = buf ++ es /\
  Forall2 (fun pw e => exists w, e = a_way w /\
             parse_attributes N p (way_id pw) (way_info pw)
               = Ok (w_object w) /\
             w_nodes w = scan64 0 (way_refs pw) /\
             parse_tags p (way_keys pw) (way_vals pw) = Ok (w_tags w))
    (ways group) es.
Proof.
apply for_loop_collect. intros i b b' Hb.
inv_bind Hb. apply get_Ok_inv in Hb0.
inv_bind Hb. inv_bind Hb. inv_bind Hb. injection Hb as <-.
rewrite parse_refs_scan in Hb2. injection Hb2 as <-.
eexists a, _. split; [done |]. split; [done |].
eexists. split; [done |]. simpl. done.
Qed.

Lemma parse_relation_group_Ok N p group buf buf' :
parse_relation_group N p group buf = Ok buf' ->
exists es, buf' = buf ++ es /\
  Forall2 (fun pr e => exists r, e = a_relation r /\
             parse_attributes N p (relation_id pr) (relation_info pr)
               = Ok (r_object r) /\
             parse_members p pr = Ok (r_members r) /\
             parse_tags p (relation_keys pr) (relation_vals pr)
               = Ok (r_tags r))
    (relations group) es.
Proof.
apply for_loop_collect. intros i b b' Hb.
inv_bind Hb. apply get_Ok_inv in Hb0.
inv_bind Hb. inv_bind Hb. inv_bind Hb. injection Hb as <-.
eexists a, _. split; [done |]. split; [done |].
eexists. split; [done |]. simpl. done.
Qed.

Lemma parse_node_group_Ok N p group buf buf' :
parse_node_group N p group buf = Ok buf' ->
exists es, buf' = buf ++ es /\
  Forall2 (fun pn e => exists n, e = a_node n /\
             parse_attributes N p (node_id pn) (node_info pn)
               = Ok (n_object n) /\
             n_location n =
               (if visible (n_object n)
                then make_location p (node_lon pn) (node_lat pn)
                else Location_undefined) /\
             parse_tags p (node_keys pn) (node_vals pn) = Ok (n_tags n))
    (nodes group) es.
Proof.
apply for_loop_collect. intros i b b' Hb.
inv_bind Hb. apply get_Ok_inv in Hb0.
inv_bind Hb. inv_bind Hb. injection Hb as <-.
eexists a, _. split; [done |]. split; [done |].
eexists. split; [done |]. simpl. done.
Qed.

Lemma s_cases p i : (exists x, s p i = Ok x) \/ s p i = Undefined.
Proof.
unfold s, get. destruct (i <? 0); [by right |].
destruct (_ !! _); [left; eauto | by right].
Qed.

Lemma add_tags_while_spec p kv : forall fuel n tl0,
(n <= length kv)%nat -> (length kv <= n + fuel)%nat ->
add_tags_while p fuel kv n tl0 =
outcome_map (fun r => ((length kv - length (snd r))%nat, tl0 ++ fst r))
            (spec_node_tags p (drop n kv)).
Proof.
induction fuel as [|fuel IH]; intros n tl0 Hn Hfuel.
- assert (n = length kv) as -> by lia.
  simpl. rewrite Nat.ltb_irrefl, drop_all. simpl.
  by rewrite Nat.sub_0_r, app_nil_r.
- simpl. destruct (n <? length kv)%nat eqn:Hlt.
  + apply Nat.ltb_lt in Hlt.
    destruct (lookup_lt_is_Some_2 kv n Hlt) as [k Hk].
    rewrite (drop_S _ _ _ Hk). unfold get at 1. rewrite Hk. simpl.
    destruct (k =? 0) eqn:Hk0.
    * simpl. rewrite length_drop, app_nil_r. do 2 f_equal. lia.
    * destruct (drop (S n) kv) as [|v rest] eqn:Hdrop.
      -- assert (kv !! S n = None) as Hnone.
         { apply lookup_ge_None_2.
           apply (f_equal length) in Hdrop. rewrite length_drop in Hdrop.
           simpl in Hdrop. lia. }
         unfold get. rewrite Hnone.
         destruct (s_cases p k) as [[x ->]| ->]; reflexivity.
      -- assert (kv !! S n = Some v) as Hv.
         { rewrite <- (Nat.add_0_r (S n)), <- lookup_drop, Hdrop. done. }
         assert (rest = drop (S (S n)) kv) as ->.
         { rewrite (drop_S _ _ _ Hv) in Hdrop. congruence. }
         unfold get. rewrite Hv.
         destruct (s_cases p k) as [[ks ->]| ->]; [|reflexivity]. simpl.
         destruct (s_cases p v) as [[vs ->]| ->]; [|reflexivity]. simpl.
         rewrite IH.
         ++ destruct (spec_node_tags p (drop (S (S n)) kv)) as [[tl r]| | |];
              simpl; try reflexivity.
            by rewrite <- app_assoc.
         ++ apply lookup_lt_Some in Hv. lia.
         ++ lia.
  + apply Nat.ltb_ge in Hlt. assert (n = length kv) as -> by lia.
    rewrite drop_all. simpl. by rewrite Nat.sub_0_r, app_nil_r.
Qed.

(** [add_tags] at cursor [n] does what the specification says on the
  stream from [n] on; the new cursor is where the stream left begins. *)
Lemma add_tags_spec p dense n :
(n <= length (keys_vals dense))%nat ->
add_tags p dense n =
outcome_map
  (fun r => ((length (keys_vals dense) - length (snd r))%nat, fst r))
  (spec_node_tags p (drop n (keys_vals dense))).
Proof.
intros Hn. unfold add_tags.
destruct (length (keys_vals dense) <=? n)%nat eqn:Hle.
- apply Nat.leb_le in Hle.
  assert (n = length (keys_vals dense)) as Heq by lia.
  rewrite Heq at 2. rewrite drop_all. simpl. rewrite Nat.sub_0_r.
  by rewrite <- Heq.
- apply Nat.leb_gt in Hle.
  destruct (lookup_lt_is_Some_2 _ n Hle) as [k Hk].
  unfold get. rewrite Hk. simpl.
  destruct (k =? 0) eqn:Hk0.
  + rewrite (drop_S _ _ _ Hk). simpl. rewrite Hk0. simpl.
    rewrite length_drop. do 2 f_equal. lia.
  + rewrite add_tags_while_spec by lia. reflexivity.
Qed.

Lemma acc64_S l i d : l !! i = Some d -> acc64 l (S i) = Int.add64 (acc64 l i) d.
Proof.
intros H. unfold acc64. rewrite (take_S_r _ _ _ H), fold_left_app. done.
Qed.

Lemma acc64_0 l : acc64 l 0 = 0.
Proof. reflexivity. Qed.

Lemma acc64_sum l i :
(i < length l)%nat -> acc64 l (S i) = Int.wrap64 (Zsum (take (S i) l)).
Proof.
intros Hi. destruct (lookup_lt_is_Some_2 l i Hi) as [d Hd].
rewrite (acc64_S _ _ _ Hd). unfold Int.add64, acc64.
rewrite <- wrap64_add_l, fold_add64_wrap, wrap64_add_l.
rewrite (take_S_r _ _ _ Hd), Zsum_app. f_equal. unfold Zsum. simpl. lia.
Qed.

(** The stream left by one node is a suffix of the stream it started on. *)
Lemma spec_node_tags_suffix p : forall n l r,
(length l <= n)%nat ->
spec_node_tags p l = Ok r ->
exists k, (k <= length l)%nat /\ snd r = drop k l.
Proof.
induction n as [|n IH]; intros l r Hlen H.
- destruct l; [|simpl in Hlen; lia]. simpl in H. injection H as <-.
  exists 0%nat. done.
- destruct l as [|k l]; simpl in H.
  + injection H as <-. exists 0%nat. done.
  + destruct (k =? 0).
    * injection H as <-. exists 1%nat. simpl. split; [lia | done].
    * destruct l as [|v rest]; [discriminate |].
      inv_bind H. inv_bind H. inv_bind H. injection H as <-. simpl.
      destruct (IH rest a1) as (j & Hj & ->); [simpl in *; lia | done |].
      exists (S (S j)). simpl. split; [lia | done].
Qed.

Lemma spec_dense_tags_snoc p : forall i kv segs rest seg rest',
spec_dense_tags p i kv = Ok (segs, rest) ->
spec_node_tags p rest = Ok (seg, rest') ->
spec_dense_tags p (S i) kv = Ok (segs ++ [seg], rest').
Proof.
induction i as [|i IH]; intros kv segs rest seg rest' H1 H2.
- simpl in H1. injection H1 as <- <-. simpl. rewrite H2. done.
- simpl in H1. inv_bind H1. inv_bind H1. injection H1 as <- <-.
  destruct a0 as [segs0 rest0]. simpl in *.
  change (spec_dense_tags p (S (S i)) kv)
    with (let* r := spec_node_tags p kv in
          let* rs := spec_dense_tags p (S i) (snd r) in
          Ok (fst r :: fst rs, snd rs)).
  rewrite Hb. simpl bind at 1.
  rewrite (IH _ _ _ _ _ Hb0 H2). done.
Qed.

Lemma dense_step_Ok N p d i l b l' b' :
dense_step N p d i (l, b) = Ok (l', b') ->
(last_dense_tag l <= length (keys_vals d))%nat ->
dense_accs d l i ->
exists n r,
  b' = b ++ [a_node n] /\
  dense_accs d l' (S i) /\
  dense_node_ok N p d i n /\
  spec_node_tags p (drop (last_dense_tag l) (keys_vals d)) = Ok r /\
  n_tags n = fst r /\
  (last_dense_tag l' <= length (keys_vals d))%nat /\
  drop (last_dense_tag l') (keys_vals d) = snd r.
Proof.
intros H Hcur (Hid & Hlat & Hlon & Hinfo).
unfold dense_step in H. simpl fst in H. simpl snd in H.
inv_bind H. destruct a as [l1 vis]. simpl fst in H. simpl snd in H.
inv_bind H. inv_bind H. injection H as <- <-.
assert (last_dense_tag l1 = last_dense_tag l) as Htag.
{ unfold dense_advance in Hb.
  inv_bind Hb. inv_bind Hb. inv_bind Hb.
  destruct (denseinfo d).
  - do 9 inv_bind Hb. by injection Hb as <- <-.
  - by injection Hb as <- <-. }
rewrite Htag in Hb1.
rewrite add_tags_spec in Hb1 by done.
apply outcome_map_Ok_inv in Hb1 as (r & Hr & ->).
destruct (spec_node_tags_suffix p _ _ r (Nat.le_refl _) Hr)
  as (k & Hk & Hsuf).
rewrite length_drop in Hk.
eexists _, r. split; [reflexivity |]. simpl.
unfold dense_advance in Hb.
inv_bind Hb. apply get_Ok_inv in Hb1.
inv_bind Hb. apply get_Ok_inv in Hb2.
inv_bind Hb. apply get_Ok_inv in Hb3.
assert (Hcursor :
  (length (keys_vals d) - length (snd r) <= length (keys_vals d))%nat /\
  drop (length (keys_vals d) - length (snd r)) (keys_vals d) = snd r).
{ split; [lia |]. rewrite Hsuf at 2. rewrite Hsuf, length_drop, length_drop.
  rewrite drop_drop. f_equal. lia. }
unfold dense_object in Hb0. unfold dense_accs, dense_node_ok.
destruct (denseinfo d) as [di|] eqn:Hdi.
- destruct (Hinfo di eq_refl) as (Hcs & Hts & Huid & Husid).
  inv_bind Hb. apply get_Ok_inv in Hb4.
  inv_bind Hb. apply get_Ok_inv in Hb5.
  inv_bind Hb. apply get_Ok_inv in Hb6.
  inv_bind Hb. apply get_Ok_inv in Hb7.
  inv_bind Hb.
  inv_bind Hb. apply assert_Ok_inv in Hb9.
  inv_bind Hb. apply assert_Ok_inv in Hb10.
  inv_bind Hb. apply assert_Ok_inv in Hb11.
  inv_bind Hb. apply assert_Ok_inv in Hb12.
  injection Hb as <- <-. simpl in *.
  inv_bind Hb0. apply get_Ok_inv in Hb.
  inv_bind Hb0. apply assert_Ok_inv in Hb13.
  inv_bind Hb0. injection Hb0 as <-. simpl.
  rewrite (acc64_S _ _ _ Hb1), (acc64_S _ _ _ Hb2), (acc64_S _ _ _ Hb3),
    (acc64_S _ _ _ Hb4), (acc64_S _ _ _ Hb5), (acc64_S _ _ _ Hb6),
    (acc64_S _ _ _ Hb7), <- Hid, <- Hlat, <- Hlon, <- Hcs, <- Hts, <- Huid,
    <- Husid.
  split.
  { repeat (split; [done |]). intros di' [= <-].
    rewrite (acc64_S _ _ _ Hb4), (acc64_S _ _ _ Hb5), (acc64_S _ _ _ Hb6),
      (acc64_S _ _ _ Hb7), <- Hcs, <- Hts, <- Huid, <- Husid. done. }
  split.
  { repeat (split; [done |]). intros ->.
    destruct Hb9 as [|Hb9]; [done |]. destruct Hb10 as [|Hb10]; [done |].
    destruct Hb11 as [|Hb11]; [done |]. destruct Hb12 as [|Hb12]; [done |].
    destruct Hb13 as [|Hb13]; [done |].
    repeat split; try lia. eexists. split; [done | lia]. }
  split; [done |]. split; [done |]. exact Hcursor.
- injection Hb as <- <-. injection Hb0 as <-. simpl.
  rewrite (acc64_S _ _ _ Hb1), (acc64_S _ _ _ Hb2), (acc64_S _ _ _ Hb3),
    <- Hid, <- Hlat, <- Hlon.
  split; [done |]. split; [done |]. split; [done |]. split; [done |].
  exact Hcursor.
Qed.

(** A dense group that decodes yields one node per entry of the id array,
  in order; node [i] is made of the values accumulated over the entries
  up to [i], and its tags are the [i]-th run of the key/value stream. *)
Lemma parse_dense_node_group_Ok N p d buf buf' :
parse_dense_node_group N p d buf = Ok buf' ->
exists ns rest,
  buf' = buf ++ map a_node ns /\
  length ns = length (dense_id d) /\
  spec_dense_tags p (length (dense_id d)) (keys_vals d)
    = Ok (map n_tags ns, rest) /\
  forall i n, ns !! i = Some n -> dense_node_ok N p d i n.
Proof.
unfold parse_dense_node_group. intros H.
apply outcome_map_Ok_inv in H as ([l b] & H & ->). simpl.
apply (for_loop_invariant
  (fun i (st : dense_locals * list Entity) =>
     exists ns,
       snd st = buf ++ map a_node ns /\ length ns = i /\
       dense_accs d (fst st) i /\
       (last_dense_tag (fst st) <= length (keys_vals d))%nat /\
       spec_dense_tags p i (keys_vals d)
         = Ok (map n_tags ns, drop (last_dense_tag (fst st)) (keys_vals d)) /\
       forall j n, ns !! j = Some n -> dense_node_ok N p d j n)) in H.
- simpl in H. destruct H as (ns & -> & Hlen & _ & _ & Htags & Hok).
  exists ns, (drop (last_dense_tag l) (keys_vals d)). done.
- exists []. simpl. rewrite app_nil_r.
  split; [done |]. split; [done |].
  split; [by repeat split |]. split; [lia |]. split; [done |].
  intros j n Hj. done.
- clear H. intros i [l0 b0] [l1 b1] Hi
    (ns & Hb & Hlen & Haccs & Hcur & Htags & Hok) Hstep.
  simpl in *. subst b0.
  apply dense_step_Ok in Hstep; [|done|done].
  destruct Hstep as (n & r & -> & Haccs' & Hn & Hr & Hnt & Hcur' & Hdrop).
  exists (ns ++ [n]). rewrite map_app, app_assoc. simpl.
  split; [done |]. split; [rewrite length_app; simpl; lia |].
  split; [done |]. split; [done |]. split.
  + rewrite map_app. simpl. rewrite Hnt, Hdrop.
    eapply spec_dense_tags_snoc; [exact Htags |]. by destruct r.
  + intros j n' Hj. destruct (decide (j = i)) as [->|Hne].
    * rewrite lookup_app_r, Hlen, Nat.sub_diag in Hj by lia.
      by injection Hj as <-.
    * apply (Hok j). rewrite lookup_app_l in Hj; [done |].
      apply lookup_lt_Some in Hj. rewrite length_app in Hj. simpl in Hj. lia.
Qed.

Lemma Forall2_lookup_sig {A B} (R : A -> B -> Prop) l k :
Forall2 R l k -> forall i b, k !! i = Some b -> exists a, l !! i = Some a /\ R a b.
Proof.
intros HF i b Hb.
destruct (Forall2_lookup_r _ _ _ _ _ HF Hb) as (a & Ha & HR). eauto.
Qed.

(** Every entity a group contributes is decoded from the wire object at
  the same position of the group. *)
Lemma parse_group_Ok N p group buf buf' :
parse_group N p group buf = Ok buf' ->
exists es, buf' = buf ++ es /\
  forall i e, es !! i = Some e -> decoded_from N p group i e.
Proof.
unfold parse_group, decoded_from. intros H.
assert (Hnone : exists es : list Entity, buf = buf ++ es /\
          forall i e, es !! i = Some e ->
            match dense group with
            | Some d => exists n, e = a_node n /\ dense_node_ok N p d i n
            | None => False
            end).
{ exists []. rewrite app_nil_r. split; [done |]. intros i e Hi. done. }
destruct (dense group) as [d|] eqn:Hd.
- destruct (want_node (m_read_types p)).
  + apply parse_dense_node_group_Ok in H
      as (ns & rest & -> & Hlen & _ & Hok).
    exists (map a_node ns). split; [done |]. intros i e Hi.
    rewrite list_lookup_fmap in Hi.
    destruct (ns !! i) as [n|] eqn:Hn; [|done]. injection Hi as <-.
    exists n. split; [done |]. by apply Hok.
  + injection H as <-. exact Hnone.
- assert (Hnil : exists es : list Entity, buf = buf ++ es /\
            forall i e, es !! i = Some e -> False).
  { exists []. rewrite app_nil_r. split; [done |]. intros i e Hi. done. }
  destruct (negb (length (ways group) =? 0)%nat).
  { destruct (want_way (m_read_types p)).
    - apply parse_way_group_Ok in H as (es & -> & HF).
      exists es. split; [done |]. intros i e Hi.
      destruct (Forall2_lookup_sig _ _ _ HF i e Hi) as (pw & Hpw & w & -> & ?).
      exists pw. done.
    - injection H as <-. destruct Hnil as (es & ? & Hes).
      exists es. split; [done |]. intros i e Hi. destruct (Hes i e Hi). }
  destruct (negb (length (relations group) =? 0)%nat).
  { destruct (want_relation (m_read_types p)).
    - apply parse_relation_group_Ok in H as (es & -> & HF).
      exists es. split; [done |]. intros i e Hi.
      destruct (Forall2_lookup_sig _ _ _ HF i e Hi) as (pr & Hpr & r & -> & ?).
      exists pr. done.
    - injection H as <-. destruct Hnil as (es & ? & Hes).
      exists es. split; [done |]. intros i e Hi. destruct (Hes i e Hi). }
  destruct (negb (length (nodes group) =? 0)%nat); [|discriminate].
  destruct (want_node (m_read_types p)).
  + apply parse_node_group_Ok in H as (es & -> & HF).
    exists es. split; [done |]. intros i e Hi.
    destruct (Forall2_lookup_sig _ _ _ HF i e Hi) as (pn & Hpn & n & -> & ?).
    exists pn. done.
  + injection H as <-. destruct Hnil as (es & ? & Hes).
    exists es. split; [done |]. intros i e Hi. destruct (Hes i e Hi).
Qed.

Lemma prefix_summed_scan64 l : prefix_summed (length l) l (scan64 0 l).
Proof.
split; [apply scan64_length |]. intros k Hk.
rewrite scan64_lookup by done. split; [done |].
intros Hr. by rewrite wrap64_id.
Qed.

Lemma parse_members_prefix_summed p pr ms :
parse_members p pr = Ok ms ->
length ms = length (types pr) /\
(length (types pr) <= length (memids pr))%nat /\
prefix_summed (length (types pr)) (memids pr) (map member_ref ms).
Proof.
intros H. apply parse_members_Ok in H as (Hlen & Hk).
split; [done |]. split.
- destruct (length (types pr)) as [|k] eqn:Hty; [lia |].
  destruct (Hk k ltac:(lia)) as (m & d & ty & sid & _ & Hd & _).
  apply lookup_lt_Some in Hd. lia.
- split; [by rewrite length_map |]. intros k Hlt.
  destruct (Hk k Hlt) as (m & d & ty & sid & Hm & _ & _ & _ & Href & _).
  rewrite list_lookup_fmap, Hm. simpl. rewrite Href.
  split; [done |]. intros Hr. by rewrite wrap64_id.
Qed.

(** C5 (as amended): every delta-encoded reference array (the node refs of
  a way, the member ids of a relation) is rebuilt by prefix sum from 0:
  entry [k] of the decoded sequence is the sum of the first [k + 1] wire
  deltas, in input order.  The refs of a way are as many as its wire
  refs; the members of a relation are as many as its types, of which a
  relation that decodes has no more than member ids, not as many as its
  member ids.  Every way of a group decoded as ways and every relation of
  a group decoded as relations is emitted, at its position. *)
Theorem C5_reference_arrays_prefix_sum N p group buf buf' :
parse_group N p group buf = Ok buf' ->
exists es, buf' = buf ++ es /\
  (forall i e, es !! i = Some e -> refs_by_prefix_sum group i e) /\
  (dense group = None -> ways group <> [] ->
   want_way (m_read_types p) = true ->
   forall i pw, ways group !! i = Some pw ->
     exists w, es !! i = Some (a_way w) /\
       prefix_summed (length (way_refs pw)) (way_refs pw) (w_nodes w)) /\
  (dense group = None -> ways group = [] -> relations group <> [] ->
   want_relation (m_read_types p) = true ->
   forall i pr, relations group !! i = Some pr ->
     exists r, es !! i = Some (a_relation r) /\
       length (r_members r) = length (types pr) /\
       (length (types pr) <= length (memids pr))%nat /\
       prefix_summed (length (types pr)) (memids pr)
         (map member_ref (r_members r))).
Proof.
intros H. destruct (parse_group_Ok _ _ _ _ _ H) as (es & -> & Hes).
exists es. split; [done |]. split; [|split].
- intros i e Hi.
  specialize (Hes i e Hi). unfold decoded_from in Hes.
  unfold refs_by_prefix_sum.
  destruct (dense group) as [d|].
  + destruct Hes as (n & -> & _). done.
  + destruct e as [n|w|r]; [done | |].
    * destruct Hes as (pw & Hpw & _ & Hrefs & _).
      exists pw. split; [done |]. rewrite Hrefs. apply prefix_summed_scan64.
    * destruct Hes as (pr & Hpr & _ & Hms & _).
      exists pr. split; [done |].
      by apply (parse_members_prefix_summed p) in Hms as (_ & ? & ?).
- intros Hd Hw Hwant i pw Hpw. unfold parse_group in H. rewrite Hd in H.
  assert (negb (length (ways group) =? 0)%nat = true) as Hnz
    by by destruct (ways group).
  rewrite Hnz, Hwant in H.
  apply parse_way_group_Ok in H as (es' & Heq & HF).
  apply app_inv_head in Heq. subst es'.
  destruct (Forall2_lookup_l _ _ _ _ _ HF Hpw)
    as (e & He & w & -> & _ & Hrefs & _).
  exists w. split; [done |]. rewrite Hrefs. apply prefix_summed_scan64.
- intros Hd Hw Hr Hwant i pr Hpr. unfold parse_group in H.
  rewrite Hd, Hw in H.
  assert (negb (length (relations group) =? 0)%nat = true) as Hnz
    by by destruct (relations group).
  simpl in H. rewrite Hnz, Hwant in H.
  apply parse_relation_group_Ok in H as (es' & Heq & HF).
  apply app_inv_head in Heq. subst es'.
  destruct (Forall2_lookup_l _ _ _ _ _ HF Hpr)
    as (e & He & r & -> & _ & Hms & _).
  exists r. split; [done |]. by apply (parse_members_prefix_summed p).
Qed.

Lemma C5_witness :
parse_group false (configure all (Sample.block [Sample.way_group]))
  Sample.way_group []
= Ok ([] ++
      [a_way {| w_object := {| id := 1; version := 1; changeset := 1;
                               timestamp := 5; uid := 1; visible := true;
                               user := "" |};
                w_nodes := [100; 105; 95];
                w_tags := [("k1", "v1")]%string |}]) /\
parse_group false (configure all (Sample.block [Sample.relation_group]))
  Sample.relation_group []
= Ok ([] ++
      [a_relation
         {| r_object := {| id := 2; version := 0; changeset := 0;
                           timestamp := 0; uid := 0; visible := true;
                           user := "" |};
            r_members :=
              [{| member_type := way; member_ref := 7; member_role := "" |};
               {| member_type := way; member_ref := 8; member_role := "" |}];
            r_tags := [] |}]) /\
(exists w,
   [a_way {| w_object := {| id := 1; version := 1; changeset := 1;
                            timestamp := 5; uid := 1; visible := true;
                            user := "" |};
             w_nodes := [100; 105; 95];
             w_tags := [("k1", "v1")]%string |}] !! 0%nat = Some (a_way w) /\
   prefix_summed 3 [100; 5; -10] (w_nodes w)) /\
(exists r,
   [a_relation
      {| r_object := {| id := 2; version := 0; changeset := 0;
                        timestamp := 0; uid := 0; visible := true;
                        user := "" |};
         r_members :=
           [{| member_type := way; member_ref := 7; member_role := "" |};
            {| member_type := way; member_ref := 8; member_role := "" |}];
         r_tags := [] |}] !! 0%nat = Some (a_relation r) /\
   length (r_members r) = 2%nat /\
   (2 <= 2)%nat /\
   prefix_summed 2 [7; 1] (map member_ref (r_members r))).
Proof.
split; [reflexivity |]. split; [reflexivity |]. split.
- destruct (C5_reference_arrays_prefix_sum false
              (configure all (Sample.block [Sample.way_group]))
              Sample.way_group [] _ eq_refl) as (es & Hes & _ & Hways & _).
  apply app_inv_head in Hes. subst es.
  apply (Hways eq_refl ltac:(discriminate) eq_refl 0%nat Sample.way eq_refl).
- destruct (C5_reference_arrays_prefix_sum false
              (configure all (Sample.block [Sample.relation_group]))
              Sample.relation_group [] _ eq_refl) as (es & Hes & _ & _ & Hrels).
  apply app_inv_head in Hes. subst es.
  apply (Hrels eq_refl eq_refl ltac:(discriminate) eq_refl 0%nat
           Sample.relation eq_refl).
Defined.

(** C5 as stated fails for a relation whose member ids are not as many as
  its types: with the member ids 7, 1, 1 and two types the relation
  decodes, to the two members 7 and 8, and the decoded sequence is not as
  long as the wire array. *)
Lemma C5_counterexample :
exists r pr,
  parse_group false (configure all (Sample.block [Sample.spare_memid_group]))
    Sample.spare_memid_group [] = Ok [a_relation r] /\
  relations Sample.spare_memid_group !! 0%nat = Some pr /\
  memids pr = [7; 1; 1] /\
  map member_ref (r_members r) = [7; 8] /\
  length (map member_ref (r_members r)) <> length (memids pr).
Proof.
eexists _, _. split; [reflexivity |]. split; [reflexivity |].
split; [reflexivity |]. split; [reflexivity |]. simpl. discriminate.
Qed.

Lemma quot_bounds z d lo hi :
0 < d -> lo <= 0 -> 0 < hi -> lo <= z < hi -> lo <= z ÷ d < hi.
Proof.
intros Hd Hlo Hhi H.
pose proof (Z.quot_rem z d ltac:(lia)) as Hqr.
destruct (Z_le_gt_dec 0 z) as [Hz|Hz].
- pose proof (Z.rem_bound_pos z d Hz Hd) as Hr.
  revert Hqr Hr. generalize (z ÷ d) (Z.rem z d). intros q r Hqr Hr. nia.
- pose proof (Z.rem_bound_pos_neg z d Hd ltac:(lia)) as Hr.
  revert Hqr Hr. generalize (z ÷ d) (Z.rem z d). intros q r Hqr Hr. nia.
Qed.

Lemma quot_1000_int32 z : Int.in_int32 z -> Int.in_int32 (z ÷ 1000).
Proof. unfold Int.in_int32. apply quot_bounds; lia. Qed.

Lemma timestamp_rule_mul64 b raw :
timestamp_rule b raw (Int.mul64 raw (Int.div32 (date_granularity b) 1000)).
Proof.
split; [done |]. intros Hdg Hfit.
unfold Int.div32. rewrite wrap32_id by by apply quot_1000_int32.
unfold Int.mul64. by rewrite wrap64_id.
Qed.

Lemma parse_attributes_timestamp N p pbf_id info o :
parse_attributes N p pbf_id (Some info) = Ok o ->
timestamp o = Int.mul64 (info_timestamp info) (m_date_factor p).
Proof.
unfold parse_attributes. intros H.
do 4 inv_bind H. by injection H as <-.
Qed.

(** C1 (as amended): for every decoded object (node, way, relation, dense
  node) whose info or denseinfo is present, the decoded timestamp is the
  raw wire timestamp times the block's date_granularity divided by 1000
  (integer division, 1 by default): a time in seconds, not the raw value
  times date_granularity. *)
Theorem C1_timestamp_is_raw_times_granularity_over_1000 N rt b group buf buf' :
parse_group N (configure rt b) group buf = Ok buf' ->
exists es, buf' = buf ++ es /\
  forall i e raw,
    es !! i = Some e -> wire_timestamp group i e = Some raw ->
    timestamp_rule b raw (timestamp (object e)).
Proof.
intros H. apply parse_group_Ok in H as (es & -> & Hes).
exists es. split; [done |]. intros i e raw Hi Hraw.
specialize (Hes i e Hi). unfold decoded_from in Hes.
unfold wire_timestamp in Hraw.
destruct (dense group) as [d|].
- destruct Hes as (n & -> & _ & _ & Hinfo). simpl.
  destruct (denseinfo d) as [di|]; [|done]. injection Hraw as <-.
  destruct Hinfo as [-> _]. apply timestamp_rule_mul64.
- destruct e as [n|w|r]; simpl.
  + destruct Hes as (pn & Hpn & Hattr & _). rewrite Hpn in Hraw.
    destruct (node_info pn) as [info|]; [|done]. injection Hraw as <-.
    rewrite (parse_attributes_timestamp _ _ _ _ _ Hattr).
    apply timestamp_rule_mul64.
  + destruct Hes as (pw & Hpw & Hattr & _). rewrite Hpw in Hraw.
    destruct (way_info pw) as [info|]; [|done]. injection Hraw as <-.
    rewrite (parse_attributes_timestamp _ _ _ _ _ Hattr).
    apply timestamp_rule_mul64.
  + destruct Hes as (pr & Hpr & Hattr & _). rewrite Hpr in Hraw.
    destruct (relation_info pr) as [info|]; [|done]. injection Hraw as <-.
    rewrite (parse_attributes_timestamp _ _ _ _ _ Hattr).
    apply timestamp_rule_mul64.
Qed.

Lemma C1_witness :
parse_group false (configure all (Sample.block [Sample.way_group]))
  Sample.way_group []
= Ok ([] ++ [a_way {| w_object := {| id := 1; version := 1; changeset := 1;
                               timestamp := 5; uid := 1; visible := true;
                               user := "" |};
               w_nodes := [100; 105; 95];
               w_tags := [("k1", "v1")]%string |}]) /\
exists es,
  [] ++ [a_way {| w_object := {| id := 1; version := 1; changeset := 1;
                           timestamp := 5; uid := 1; visible := true;
                           user := "" |};
            w_nodes := [100; 105; 95];
            w_tags := [("k1", "v1")]%string |}] = [] ++ es /\
  forall i e raw,
    es !! i = Some e -> wire_timestamp Sample.way_group i e = Some raw ->
    timestamp_rule (Sample.block [Sample.way_group]) raw
      (timestamp (object e)).
Proof.
split; [reflexivity |].
apply (C1_timestamp_is_raw_times_granularity_over_1000 false all
         (Sample.block [Sample.way_group]) Sample.way_group []).
reflexivity.
Defined.

(** C1 as stated fails: with the default date_granularity of 1000 a way
  whose info carries the raw timestamp 5 is decoded with timestamp 5, not
  5 * 1000. *)
Lemma C1_counterexample :
exists w pw info,
  parse_group false (configure all (Sample.block [Sample.way_group]))
    Sample.way_group [] = Ok [a_way w] /\
  ways Sample.way_group !! 0%nat = Some pw /\
  way_info pw = Some info /\
  timestamp (w_object w) <>
    info_timestamp info * date_granularity (Sample.block [Sample.way_group]).
Proof.
eexists _, _, _. split; [reflexivity |]. split; [reflexivity |].
split; [reflexivity |]. simpl. vm_compute. discriminate.
Qed.

Lemma resolution_convert_100 : resolution_convert = 100.
Proof. reflexivity. Qed.

Lemma coordinate_exact p raw offset :
coordinate_fits (m_granularity p) offset raw ->
Int.wrap32 (coordinate p raw offset)
= (raw * m_granularity p + offset) ÷ 100.
Proof.
intros (Hmul & Hadd & Hq).
unfold coordinate, Int.div64, Int.add64, Int.mul64.
rewrite resolution_convert_100.
rewrite (wrap64_id _ Hmul), (wrap64_id _ Hadd).
rewrite wrap64_id, wrap32_id; [done | done |].
unfold Int.in_int32, Int.in_int64 in *. lia.
Qed.

(** Every wire node of a group that is decoded as nodes, for a caller that
  asks for nodes, yields a node at its position. *)
Lemma parse_group_nodes N p group buf es :
parse_group N p group buf = Ok (buf ++ es) ->
want_node (m_read_types p) = true ->
forall i, (i < node_count group)%nat -> exists n, es !! i = Some (a_node n).
Proof.
unfold parse_group, node_count. intros H Hwant i Hi.
destruct (dense group) as [d|].
- rewrite Hwant in H.
  apply parse_dense_node_group_Ok in H as (ns & rest & Heq & Hlen & _).
  apply app_inv_head in Heq. subst es.
  destruct (lookup_lt_is_Some_2 ns i) as [n Hn]; [lia |].
  exists n. by rewrite list_lookup_fmap, Hn.
- destruct (ways group) as [|pw ws]; [|lia].
  destruct (relations group) as [|pr rs]; [|lia].
  simpl in H.
  destruct (nodes group) as [|pn pns] eqn:Hnodes; [simpl in Hi; lia |].
  simpl in H. rewrite Hwant in H.
  apply parse_node_group_Ok in H as (es' & Heq & HF).
  apply app_inv_head in Heq. subst es'.
  rewrite Hnodes in HF.
  destruct (lookup_lt_is_Some_2 (pn :: pns) i Hi) as [pn' Hpn'].
  destruct (Forall2_lookup_l _ _ _ _ _ HF Hpn') as (e & He & n & -> & _).
  by exists n.
Qed.

(** C7: for every visible decoded node, dense or not, each fixed-point
  coordinate is (raw * granularity + offset) / 100 in integer arithmetic
  on the (accumulated) raw value, the divisor 100 being the nanodegree
  resolution 10^9 divided by the coordinate precision 10^7; and every
  wire node of a group decoded as nodes, dense or not, is decoded to a
  node that has its location by this rule, or none if it is not
  visible. *)
Theorem C7_coordinate_rule N rt b group buf buf' :
parse_group N (configure rt b) group buf = Ok buf' ->
resolution_convert = lonlat_resolution ÷ coordinate_precision /\
resolution_convert = 100 /\
exists es, buf' = buf ++ es /\
  (forall i n lon lat,
    es !! i = Some (a_node n) ->
    visible (n_object n) = true ->
    wire_lonlat group i = Some (lon, lat) ->
    n_location n = make_location (configure rt b) lon lat /\
    (coordinate_fits (granularity b) (lon_offset b) lon ->
     x (n_location n) = (lon * granularity b + lon_offset b) ÷ 100) /\
    (coordinate_fits (granularity b) (lat_offset b) lat ->
     y (n_location n) = (lat * granularity b + lat_offset b) ÷ 100)) /\
  (want_node rt = true ->
   forall i, (i < node_count group)%nat ->
     exists n lon lat,
       es !! i = Some (a_node n) /\
       wire_lonlat group i = Some (lon, lat) /\
       n_location n =
         (if visible (n_object n)
          then make_location (configure rt b) lon lat
          else Location_undefined) /\
       (visible (n_object n) = true ->
        coordinate_fits (granularity b) (lon_offset b) lon ->
        coordinate_fits (granularity b) (lat_offset b) lat ->
        n_location n =
          {| x := (lon * granularity b + lon_offset b) ÷ 100;
             y := (lat * granularity b + lat_offset b) ÷ 100 |})).
Proof.
intros H. split; [reflexivity |]. split; [reflexivity |].
destruct (parse_group_Ok _ _ _ _ _ H) as (es & -> & Hes).
exists es. split; [done |].
assert (Hloc : forall i n lon lat,
  es !! i = Some (a_node n) -> wire_lonlat group i = Some (lon, lat) ->
  n_location n =
    (if visible (n_object n)
     then make_location (configure rt b) lon lat else Location_undefined)).
{ intros i n lon lat Hi Hwire.
  specialize (Hes i _ Hi). unfold decoded_from in Hes.
  unfold wire_lonlat in Hwire.
  destruct (dense group) as [d|].
  - destruct Hes as (n' & [= <-] & _ & Hloc & _).
    by injection Hwire as <- <-.
  - destruct Hes as (pn & Hpn & _ & Hloc & _). rewrite Hpn in Hwire.
    by injection Hwire as <- <-. }
split.
- intros i n lon lat Hi Hvis Hwire.
  pose proof (Hloc i n lon lat Hi Hwire) as Hl. rewrite Hvis in Hl.
  split; [done |]. rewrite Hl. unfold make_location, Location_of. simpl.
  split; intros Hfit.
  + by apply (coordinate_exact (configure rt b)).
  + by apply (coordinate_exact (configure rt b)).
- intros Hwant i Hi.
  destruct (parse_group_nodes _ _ _ _ _ H Hwant i Hi) as [n Hn].
  assert (exists lon lat, wire_lonlat group i = Some (lon, lat))
    as (lon & lat & Hwire).
  { specialize (Hes i _ Hn). unfold decoded_from in Hes.
    unfold wire_lonlat. destruct (dense group) as [d|]; [by eexists _, _ |].
    destruct Hes as (pn & -> & _). by eexists _, _. }
  exists n, lon, lat. split; [done |]. split; [done |].
  pose proof (Hloc i n lon lat Hn Hwire) as Hl. split; [done |].
  intros Hvis Hlon Hlat. rewrite Hvis in Hl. rewrite Hl.
  unfold make_location, Location_of. f_equal.
  + by apply (coordinate_exact (configure rt b)).
  + by apply (coordinate_exact (configure rt b)).
Qed.

Lemma C7_witness :
parse_group false
  (configure all
     (Sample.block_with_offsets [Sample.dense_group Sample.dense_moving]))
  (Sample.dense_group Sample.dense_moving) []
= Ok ([] ++
      [a_node {| n_object := {| id := 10; version := 0; changeset := 0;
                                timestamp := 0; uid := 0; visible := true;
                                user := "" |};
                 n_location := {| x := 13000002; y := 5200000 |};
                 n_tags := [] |};
       a_node {| n_object := {| id := 15; version := 0; changeset := 0;
                                timestamp := 0; uid := 0; visible := true;
                                user := "" |};
                 n_location := {| x := 12999802; y := 5200100 |};
                 n_tags := [] |}]) /\
{| x := 12999802; y := 5200100 |}
= {| x := ((1300000 - 20) * 1000 + 250) ÷ 100;
     y := ((520000 + 10) * 1000 + 50) ÷ 100 |} /\
parse_group false (configure all (Sample.block [Sample.node_group]))
  Sample.node_group []
= Ok ([] ++
      [a_node {| n_object := {| id := 3; version := 1; changeset := 1;
                                timestamp := 7; uid := 1; visible := true;
                                user := "" |};
                 n_location := {| x := 1300000000; y := 520000000 |};
                 n_tags := [] |}]) /\
{| x := 1300000000; y := 520000000 |}
= {| x := (1300000000 * 100 + 0) ÷ 100; y := (520000000 * 100 + 0) ÷ 100 |}.
Proof.
split; [reflexivity |]. split; [|split; [reflexivity |]].
- destruct (C7_coordinate_rule false all
              (Sample.block_with_offsets
                 [Sample.dense_group Sample.dense_moving])
              (Sample.dense_group Sample.dense_moving) [] _ eq_refl)
    as (_ & _ & es & Hes & _ & Hall).
  vm_compute in Hes. subst es.
  destruct (Hall eq_refl 1%nat ltac:(unfold node_count; simpl; lia))
    as (n & lon & lat & [= <-] & [= <- <-] & _ & Hxy).
  apply Hxy; [reflexivity | |];
    unfold coordinate_fits, Int.in_int64, Int.in_int32;
    vm_compute; repeat split; done.
- destruct (C7_coordinate_rule false all (Sample.block [Sample.node_group])
              Sample.node_group [] _ eq_refl)
    as (_ & _ & es & Hes & _ & Hall).
  vm_compute in Hes. subst es.
  destruct (Hall eq_refl 0%nat ltac:(unfold node_count; simpl; lia))
    as (n & lon & lat & [= <-] & [= <- <-] & _ & Hxy).
  apply Hxy; [reflexivity | |];
    unfold coordinate_fits, Int.in_int64, Int.in_int32;
    vm_compute; repeat split; done.
Defined.

(** Scenarios 1 and 2 of the specification. *)
Example scenario_tiny_dense_node :
  parse_block false all
    (Sample.block [Sample.dense_group (Sample.dense_of [1001] None [])])
  = Ok [a_node {| n_object := {| id := 1001; version := 0; changeset := 0;
                                 timestamp := 0; uid := 0; visible := true;
                                 user := "" |};
                  n_location := {| x := 1300000000; y := 520000000 |};
                  n_tags := [] |}].
Proof. reflexivity. Qed.

Example scenario_delta_chain :
  outcome_map (map (fun e => id (object e)))
    (parse_block false all
       (Sample.block [Sample.dense_group (Sample.dense_of [10; 5; -3] None [])]))
  = Ok [10; 15; 12].
Proof. reflexivity. Qed.

(** C6: in a dense group every node's tags are the next run of (key_sid,
  value_sid) pairs taken from one cursor into keys_vals that all nodes
  share; a run ends at a 0 in key position, which is consumed, or with
  the stream, after which the remaining nodes have no tags; a node whose
  run starts with 0 has no tags. *)
Theorem C6_dense_tags_from_shared_cursor N p d buf buf' :
parse_dense_node_group N p d buf = Ok buf' ->
(forall n, (n <= length (keys_vals d))%nat ->
   add_tags p d n =
   outcome_map
     (fun r => ((length (keys_vals d) - length (snd r))%nat, fst r))
     (spec_node_tags p (drop n (keys_vals d)))) /\
exists ns rest,
  buf' = buf ++ map a_node ns /\
  length ns = length (dense_id d) /\
  spec_dense_tags p (length (dense_id d)) (keys_vals d)
    = Ok (map n_tags ns, rest).
Proof.
intros H. split; [intros n Hn; by apply add_tags_spec |].
apply parse_dense_node_group_Ok in H as (ns & rest & -> & Hlen & Htags & _).
by exists ns, rest.
Qed.

Lemma C6_witness :
parse_dense_node_group false (configure all (Sample.block []))
  Sample.dense_tagged []
= Ok (map a_node
        [{| n_object := {| id := 10; version := 0; changeset := 0;
                           timestamp := 0; uid := 0; visible := true;
                           user := "" |};
            n_location := {| x := 1300000000; y := 520000000 |};
            n_tags := [("k1", "v1")]%string |};
         {| n_object := {| id := 15; version := 0; changeset := 0;
                           timestamp := 0; uid := 0; visible := true;
                           user := "" |};
            n_location := {| x := 1300000000; y := 520000000 |};
            n_tags := [("k2", "v2")]%string |}]) /\
spec_dense_tags (configure all (Sample.block [])) 2
  (keys_vals Sample.dense_tagged)
= Ok ([[("k1", "v1")]; [("k2", "v2")]]%string, []).
Proof.
split; [reflexivity |].
destruct (C6_dense_tags_from_shared_cursor false
            (configure all (Sample.block [])) Sample.dense_tagged [] _
            eq_refl) as (_ & ns & rest & Hns & Hlen & Htags).
reflexivity.
Defined.

(** The ids of the nodes of a dense group are the prefix sums of its id
  column. *)
Lemma dense_node_ids N p d ns :
length ns = length (dense_id d) ->
(forall i n, ns !! i = Some n -> dense_node_ok N p d i n) ->
map (fun n => id (n_object n)) ns = scan64 0 (dense_id d).
Proof.
intros Hlen Hok. apply list_eq. intros i.
rewrite list_lookup_fmap.
destruct (ns !! i) as [n|] eqn:Hn; simpl.
- destruct (Hok i n Hn) as (Hid & _). rewrite Hid.
  assert (i < length (dense_id d))%nat as Hi.
  { rewrite <- Hlen. by apply lookup_lt_Some in Hn. }
  by rewrite scan64_lookup, acc64_sum.
- symmetry. apply lookup_ge_None_2. rewrite scan64_length, <- Hlen.
  by apply lookup_ge_None_1.
Qed.

Lemma scan64_last l x :
last (scan64 0 l) = Some x -> x = Int.wrap64 (Zsum l).
Proof.
destruct l as [|d l] using rev_ind; [done |]. clear IHl.
intros H. rewrite last_lookup, scan64_length in H.
rewrite length_app in H. simpl in H.
replace (Init.Nat.pred (length l + 1)) with (length l) in H by lia.
rewrite scan64_lookup in H by (rewrite length_app; simpl; lia).
injection H as <-. f_equal. f_equal.
rewrite firstn_all2; [done |]. rewrite length_app. simpl. lia.
Qed.

(** A block of dense groups only, nodes wanted: the output is the nodes of
  the groups one after the other, those of a group carrying the prefix
  sums of its id column. *)
Lemma parse_block_dense N rt b out :
want_node rt = true ->
Forall (fun g => is_Some (dense g)) (primitivegroup b) ->
parse_block N rt b = Ok out ->
exists nss,
  out = map a_node (concat nss) /\
  Forall2 (fun g ns =>
             map (fun n => id (n_object n)) ns = scan64 0 (dense_ids g))
    (primitivegroup b) nss.
Proof.
intros Hwant Hdense H. unfold parse_block in H.
apply (for_loop_invariant
  (fun i buf => exists nss,
     buf = map a_node (concat nss) /\
     Forall2 (fun g ns =>
                map (fun n => id (n_object n)) ns = scan64 0 (dense_ids g))
       (take i (primitivegroup b)) nss)) in H.
- simpl in H. by rewrite firstn_all in H.
- exists []. split; [done | constructor].
- clear H. intros i buf buf' _ (nss & -> & HF) Hb.
  inv_bind Hb. apply get_Ok_inv in Hb0.
  rewrite Forall_lookup in Hdense.
  destruct (Hdense i a Hb0) as [d Hd].
  unfold parse_group in Hb. rewrite Hd in Hb. simpl in Hb.
  rewrite Hwant in Hb.
  apply parse_dense_node_group_Ok in Hb as (ns & rest & -> & Hlen & _ & Hok).
  exists (nss ++ [ns]). split.
  + rewrite concat_app, map_app. simpl. by rewrite app_nil_r.
  + rewrite (take_S_r _ _ _ Hb0). apply Forall2_app; [done |].
    constructor; [|constructor].
    unfold dense_ids. rewrite Hd. by apply (dense_node_ids N (configure rt b)).
Qed.

(** C8 (as amended): a block of DenseNodes groups only, nodes wanted, that
  decodes emits exactly as many nodes as the id arrays have entries, in
  file order; the ids of the nodes of a group are the prefix sums of that
  group's id deltas, so the last node of a group carries the sum of the
  deltas of its own group, which is the sum of all deltas of the block
  when the block has one group. *)
Theorem C8_dense_nodes_emitted_in_order N rt b out :
want_node rt = true ->
Forall (fun g => is_Some (dense g)) (primitivegroup b) ->
parse_block N rt b = Ok out ->
exists nss,
  out = map a_node (concat nss) /\
  length out = length (concat (map dense_ids (primitivegroup b))) /\
  Forall2 (fun g ns =>
             map (fun n => id (n_object n)) ns = scan64 0 (dense_ids g) /\
             forall n, last ns = Some n ->
               id (n_object n) = Int.wrap64 (Zsum (dense_ids g)) /\
               (Int.in_int64 (Zsum (dense_ids g)) ->
                id (n_object n) = Zsum (dense_ids g)))
    (primitivegroup b) nss /\
  (forall g e, primitivegroup b = [g] -> last out = Some e ->
     id (object e) = Int.wrap64 (Zsum (dense_ids g))).
Proof.
intros Hwant Hdense H.
destruct (parse_block_dense N rt b out Hwant Hdense H) as (nss & -> & HF).
assert (HF' : Forall2 (fun g ns =>
             map (fun n => id (n_object n)) ns = scan64 0 (dense_ids g) /\
             forall n, last ns = Some n ->
               id (n_object n) = Int.wrap64 (Zsum (dense_ids g)) /\
               (Int.in_int64 (Zsum (dense_ids g)) ->
                id (n_object n) = Zsum (dense_ids g)))
    (primitivegroup b) nss).
{ eapply Forall2_impl; [exact HF |]. intros g ns Hids. split; [done |].
  intros n Hn.
  assert (id (n_object n) = Int.wrap64 (Zsum (dense_ids g))) as Hid.
  { apply scan64_last. rewrite <- Hids, fmap_last, Hn. done. }
  split; [done |]. intros Hr. by rewrite Hid, wrap64_id. }
exists nss. split; [done |]. split; [|split; [done |]].
- rewrite length_map. clear -HF.
  induction HF as [|g ns gs nss Hg _ IH]; [done |]. simpl.
  rewrite !length_app, IH. f_equal.
  apply (f_equal length) in Hg. by rewrite length_map, scan64_length in Hg.
- intros g e Hb He. rewrite Hb in HF'.
  apply Forall2_cons_inv_l in HF' as (ns & nss' & (_ & Hlast) & Hnil & ->).
  apply Forall2_nil_inv_l in Hnil as ->. simpl in He.
  rewrite app_nil_r, fmap_last in He.
  destruct (last ns) as [n|] eqn:Hn; [|done]. injection He as <-. simpl.
  by destruct (Hlast n eq_refl).
Qed.

Lemma C8_witness :
want_node all = true /\
Forall (fun g => is_Some (dense g))
  (primitivegroup (Sample.block [Sample.dense_group Sample.dense_tagged])) /\
exists out,
  parse_block false all (Sample.block [Sample.dense_group Sample.dense_tagged])
    = Ok out /\
  exists nss,
    out = map a_node (concat nss) /\
    length out = 2%nat.
Proof.
split; [reflexivity |]. split; [repeat constructor; by eexists |].
eexists. split; [reflexivity |].
destruct (C8_dense_nodes_emitted_in_order false all
            (Sample.block [Sample.dense_group Sample.dense_tagged]) _
            eq_refl
            ltac:(repeat constructor; by eexists) eq_refl)
  as (nss & Hout & Hlen & _).
exists nss. split; [exact Hout | exact Hlen].
Defined.

(** C8 as stated fails on a block of two dense groups with id columns [10]
  and [5]: the nodes 10 and 5 are emitted, and the id of the last one is
  5, not the sum 15 of all id deltas. *)
Lemma C8_counterexample :
Forall (fun g => is_Some (dense g)) (primitivegroup Sample.two_dense_groups) /\
exists n1 n2,
  parse_block false all Sample.two_dense_groups = Ok [a_node n1; a_node n2] /\
  id (n_object n2) = 5 /\
  Zsum (concat (map dense_ids (primitivegroup Sample.two_dense_groups))) = 15 /\
  id (n_object n2) <>
    Zsum (concat (map dense_ids (primitivegroup Sample.two_dense_groups))).
Proof.
split; [repeat constructor; by eexists |].
eexists _, _. split; [reflexivity |]. split; [reflexivity |].
split; [reflexivity |]. simpl. vm_compute. discriminate.
Qed.

(** *** How the dense decoder can fail *)

Lemma fails_only_Ok {A} Q (a : A) : fails_only Q (Ok a).
Proof. intros f Hf. discriminate. Qed.

Lemma fails_only_bind {A B} Q (m : outcome A) (f : A -> outcome B) :
fails_only Q m -> (forall a, fails_only Q (f a)) -> fails_only Q (bind m f).
Proof.
intros Hm Hf. destruct m; simpl; [apply Hf | exact Hm | exact Hm | exact Hm].
Qed.

Lemma fails_only_map {A B} Q (g : A -> B) (m : outcome A) :
fails_only Q m -> fails_only Q (outcome_map g m).
Proof.
intros Hm. apply fails_only_bind; [done |]. intros a. apply fails_only_Ok.
Qed.

Lemma fails_only_for_loop {S} Q (body : nat -> S -> outcome S) :
(forall i s, fails_only Q (body i s)) ->
forall n lo s, fails_only Q (for_loop lo n body s).
Proof.
intros Hbody. induction n as [|n IH]; intros lo s; simpl.
- apply fails_only_Ok.
- apply fails_only_bind; [apply Hbody |]. intros s'. apply IH.
Qed.

Lemma fails_only_get {A} Q (l : list A) i :
Q fails_undefined -> fails_only Q (get l i).
Proof.
intros HQ. unfold get. destruct (l !! i); [apply fails_only_Ok |].
intros f [= <-]. done.
Qed.

Lemma fails_only_assert Q N b :
(N = false -> Q fails_assert) -> fails_only Q (assert N b).
Proof.
intros HQ. unfold assert. destruct N; [apply fails_only_Ok |].
destruct b; [apply fails_only_Ok |]. intros f [= <-]. by apply HQ.
Qed.

Lemma fails_only_s Q p i : Q fails_undefined -> fails_only Q (s p i).
Proof.
intros HQ. unfold s. destruct (i <? 0); [|by apply fails_only_get].
intros f [= <-]. done.
Qed.

Lemma fails_only_add_tags_while Q p kv :
Q fails_undefined ->
forall fuel n tl, fails_only Q (add_tags_while p fuel kv n tl).
Proof.
intros HQ. induction fuel as [|fuel IH]; intros n tl; simpl.
- destruct (n <? length kv)%nat; [|apply fails_only_Ok].
  intros f [= <-]. done.
- destruct (n <? length kv)%nat; [|apply fails_only_Ok].
  apply fails_only_bind; [by apply fails_only_get |]. intros k.
  destruct (k =? 0); [apply fails_only_Ok |].
  apply fails_only_bind; [by apply fails_only_s |]. intros ks.
  apply fails_only_bind; [by apply fails_only_get |]. intros v.
  apply fails_only_bind; [by apply fails_only_s |]. intros vs.
  apply IH.
Qed.

Lemma fails_only_add_tags Q p d n :
Q fails_undefined -> fails_only Q (add_tags p d n).
Proof.
intros HQ. unfold add_tags.
destruct (_ <=? _)%nat; [apply fails_only_Ok |].
apply fails_only_bind; [by apply fails_only_get |]. intros k.
destruct (k =? 0); [apply fails_only_Ok |].
by apply fails_only_add_tags_while.
Qed.

(** The dense decoder throws nothing: it fails by an assert, when asserts
  are compiled in, or by reading a column out of range. *)
Lemma fails_only_parse_dense_node_group Q N p d buf :
Q fails_undefined -> (N = false -> Q fails_assert) ->
fails_only Q (parse_dense_node_group N p d buf).
Proof.
intros HU HA. unfold parse_dense_node_group.
apply fails_only_map, fails_only_for_loop. intros i [l b].
unfold dense_step. simpl.
apply fails_only_bind.
{ unfold dense_advance.
  do 3 (apply fails_only_bind; [by apply fails_only_get |]; intros ?).
  destruct (denseinfo d) as [di|]; [|apply fails_only_Ok].
  do 4 (apply fails_only_bind; [by apply fails_only_get |]; intros ?).
  apply fails_only_bind.
  { destruct (_ <? _)%nat; [by apply fails_only_get | apply fails_only_Ok]. }
  intros vis.
  do 4 (apply fails_only_bind; [by apply fails_only_assert |]; intros ?).
  apply fails_only_Ok. }
intros [l1 vis]. simpl.
apply fails_only_bind.
{ unfold dense_object. destruct (denseinfo d) as [di|]; [|apply fails_only_Ok].
  apply fails_only_bind; [by apply fails_only_get |]. intros v.
  apply fails_only_bind; [by apply fails_only_assert |]. intros _.
  apply fails_only_bind; [by apply fails_only_s |]. intros u.
  apply fails_only_Ok. }
intros o.
apply fails_only_bind; [by apply fails_only_add_tags |]. intros nt.
apply fails_only_Ok.
Qed.

Lemma assert_false_false : assert false false = AssertFail.
Proof. reflexivity. Qed.

(** With asserts compiled in, a round whose new accumulators break one of
  the four range conditions ends in the failing assert. *)
Lemma dense_advance_violation d di i l :
denseinfo d = Some di ->
(i < length (dense_id d))%nat -> (i < length (dense_lat d))%nat ->
(i < length (dense_lon d))%nat ->
(i < length (di_changeset di))%nat -> (i < length (di_timestamp di))%nat ->
(i < length (di_uid di))%nat -> (i < length (di_user_sid di))%nat ->
(di_visible di = [] \/ (i < length (di_visible di))%nat) ->
Int.add64 (last_dense_changeset l) (default 0 (di_changeset di !! i)) < 0 \/
Int.add64 (last_dense_timestamp l) (default 0 (di_timestamp di !! i)) < 0 \/
Int.add64 (last_dense_uid l) (default 0 (di_uid di !! i)) < -1 \/
Int.add64 (last_dense_user_sid l) (default 0 (di_user_sid di !! i)) < 0 ->
dense_advance false d i l = AssertFail.
Proof.
intros Hdi H1 H2 H3 H4 H5 H6 H7 Hvis Hviol.
unfold dense_advance. rewrite Hdi.
destruct (lookup_lt_is_Some_2 _ _ H1) as [x1 E1].
destruct (lookup_lt_is_Some_2 _ _ H2) as [x2 E2].
destruct (lookup_lt_is_Some_2 _ _ H3) as [x3 E3].
destruct (lookup_lt_is_Some_2 _ _ H4) as [x4 E4].
destruct (lookup_lt_is_Some_2 _ _ H5) as [x5 E5].
destruct (lookup_lt_is_Some_2 _ _ H6) as [x6 E6].
destruct (lookup_lt_is_Some_2 _ _ H7) as [x7 E7].
rewrite E4, E5, E6, E7 in Hviol. simpl in Hviol.
rewrite (get_lookup _ _ _ E1), (get_lookup _ _ _ E2), (get_lookup _ _ _ E3),
  (get_lookup _ _ _ E4), (get_lookup _ _ _ E5), (get_lookup _ _ _ E6),
  (get_lookup _ _ _ E7). simpl.
assert (exists vis,
  (if (0 <? length (di_visible di))%nat then get (di_visible di) i
   else Ok true) = Ok vis) as [vis ->].
{ destruct Hvis as [-> | Hlt].
  - by exists true.
  - destruct (lookup_lt_is_Some_2 _ _ Hlt) as [v Ev].
    exists v. rewrite (get_lookup _ _ _ Ev).
    destruct (0 <? _)%nat eqn:E; [done |]. apply Nat.ltb_ge in E. lia. }
simpl. unfold assert.
destruct (0 <=? Int.add64 (last_dense_changeset l) x4) eqn:Ecs; [|done].
destruct (0 <=? Int.add64 (last_dense_timestamp l) x5) eqn:Ets; [|done].
destruct (-1 <=? Int.add64 (last_dense_uid l) x6) eqn:Euid; [|done].
destruct (0 <=? Int.add64 (last_dense_user_sid l) x7) eqn:Eusid; [|done].
lia.
Qed.

Lemma dense_object_violation p d di i l vis v :
denseinfo d = Some di -> di_version di !! i = Some v -> v <= 0 ->
dense_object false p d i l vis = AssertFail.
Proof.
intros Hdi Hv Hle. unfold dense_object. rewrite Hdi, (get_lookup _ _ _ Hv).
simpl. unfold assert. destruct (0 <? v) eqn:E; [lia | done].
Qed.

(** C2 (as amended): in dense decoding the conditions changeset >= 0,
  timestamp >= 0, uid >= -1, user_sid >= 0 on the accumulated values and
  version > 0 are assert()s: the decoder never throws (no Corrupt error
  is raised); compiled with asserts, a round that breaks a condition
  ends in the failing assert and a group decodes only when every round
  keeps all five; compiled with NDEBUG, nothing is checked. *)
Theorem C2_dense_checks_are_asserts :
(forall N p d buf,
   fails_only not_an_exception (parse_dense_node_group N p d buf)) /\
(forall p d buf,
   fails_only out_of_range_only (parse_dense_node_group true p d buf)) /\
(forall p d buf buf' di i,
   parse_dense_node_group false p d buf = Ok buf' ->
   denseinfo d = Some di -> (i < length (dense_id d))%nat ->
   0 <= acc64 (di_changeset di) (S i) /\
   0 <= acc64 (di_timestamp di) (S i) /\
   -1 <= acc64 (di_uid di) (S i) /\
   0 <= acc64 (di_user_sid di) (S i) /\
   exists v, di_version di !! i = Some v /\ 0 < v) /\
(forall d di i l,
   denseinfo d = Some di ->
   (i < length (dense_id d))%nat -> (i < length (dense_lat d))%nat ->
   (i < length (dense_lon d))%nat ->
   (i < length (di_changeset di))%nat ->
   (i < length (di_timestamp di))%nat ->
   (i < length (di_uid di))%nat -> (i < length (di_user_sid di))%nat ->
   (di_visible di = [] \/ (i < length (di_visible di))%nat) ->
   Int.add64 (last_dense_changeset l) (default 0 (di_changeset di !! i)) < 0 \/
   Int.add64 (last_dense_timestamp l) (default 0 (di_timestamp di !! i)) < 0 \/
   Int.add64 (last_dense_uid l) (default 0 (di_uid di !! i)) < -1 \/
   Int.add64 (last_dense_user_sid l) (default 0 (di_user_sid di !! i)) < 0 ->
   dense_advance false d i l = AssertFail) /\
(forall p d di i l vis v,
   denseinfo d = Some di -> di_version di !! i = Some v -> v <= 0 ->
   dense_object false p d i l vis = AssertFail).
Proof.
split; [|split; [|split; [|split]]].
- intros N p d buf. by apply fails_only_parse_dense_node_group.
- intros p d buf. by apply fails_only_parse_dense_node_group.
- intros p d buf buf' di i H Hdi Hi.
  apply parse_dense_node_group_Ok in H as (ns & rest & _ & Hlen & _ & Hok).
  destruct (lookup_lt_is_Some_2 ns i ltac:(lia)) as [n Hn].
  destruct (Hok i n Hn) as (_ & _ & Hinfo). rewrite Hdi in Hinfo.
  destruct Hinfo as [_ Hchecks]. by apply Hchecks.
- apply dense_advance_violation.
- apply dense_object_violation.
Qed.

Lemma C2_witness :
dense_advance false Sample.dense_negative_timestamp 1
  Sample.locals_after_first = AssertFail /\
parse_dense_node_group false (configure all (Sample.block []))
  Sample.dense_negative_timestamp [] = AssertFail /\
0 <= acc64 [5; 7] 2.
Proof.
destruct C2_dense_checks_are_asserts as (_ & _ & Hok & Hstep & _).
split; [|split; [reflexivity |]].
- apply (Hstep Sample.dense_negative_timestamp
           {| di_version := [1; 1]; di_timestamp := [5; -7];
              di_changeset := [1; 1]; di_uid := [1; 0];
              di_user_sid := [0; 0]; di_visible := [] |}
           1%nat Sample.locals_after_first);
    try reflexivity; try (simpl; lia).
  + by left.
  + right. left. reflexivity.
- destruct (Hok (configure all (Sample.block [])) Sample.dense_with_info []
              _ {| di_version := [1; 1]; di_timestamp := [5; 7];
                   di_changeset := [1; 1]; di_uid := [1; 0];
                   di_user_sid := [0; 0]; di_visible := [] |}
              1%nat eq_refl eq_refl ltac:(simpl; lia))
    as (_ & Hts & _).
  exact Hts.
Defined.

(** C2 as stated fails: the second node of the sample group brings the
  accumulated timestamp to 5 - 7 < 0, and decoding ends in a failed
  assert when asserts are compiled in and returns both nodes under
  NDEBUG; neither is a Corrupt error. *)
Lemma C2_counterexample :
acc64 [5; -7] 2 < 0 /\
parse_dense_node_group false (configure all (Sample.block []))
  Sample.dense_negative_timestamp [] = AssertFail /\
(exists n1 n2,
   parse_dense_node_group true (configure all (Sample.block []))
     Sample.dense_negative_timestamp [] = Ok [a_node n1; a_node n2]) /\
~ raises Corrupt
    (parse_dense_node_group false (configure all (Sample.block []))
       Sample.dense_negative_timestamp []) /\
~ raises Corrupt
    (parse_dense_node_group true (configure all (Sample.block []))
       Sample.dense_negative_timestamp []).
Proof.
split; [reflexivity |]. split; [reflexivity |].
split; [eexists _, _; reflexivity |].
split; intros (w & Hw & _); vm_compute in Hw; discriminate.
Qed.

End BlockParserFacts.

(** ** Blob framing *)

Section FramingFacts.

Import OSMPBF.

(** Reading no bytes succeeds and leaves the reader as it is. *)
Lemma InputQueueReader_call_0 r :
InputQueueReader.call r 0 = (Some [], r).
Proof.
unfold InputQueueReader.call. destruct r as [q buf]. simpl.
destruct q; simpl; by rewrite drop_0.
Qed.

(** On an empty input the first read meets the end. *)
Lemma InputQueueReader_call_empty q n :
empty_input q -> (0 < n)%nat ->
InputQueueReader.call (InputQueueReader.of_queue q) n
= (None, InputQueueReader.of_queue []).
Proof.
intros [-> | ->] Hn; unfold InputQueueReader.call; simpl;
  destruct n; try lia; reflexivity.
Qed.

Lemma read_blob_header_empty PBH expected q :
empty_input q ->
PBFInputFormat.read_blob_header PBH expected (InputQueueReader.of_queue q)
= (Ok 0, InputQueueReader.of_queue []).
Proof.
intros Hq. unfold PBFInputFormat.read_blob_header.
by rewrite (InputQueueReader_call_empty q 4 Hq) by lia.
Qed.

Lemma BlobParser_new_0 blob_num r :
BlobParser.new 0 blob_num r
= (Ok {| BlobParser.m_input_buffer := []; BlobParser.m_size := 0;
         BlobParser.m_blob_num := blob_num |}, r).
Proof.
unfold BlobParser.new. simpl. by rewrite InputQueueReader_call_0.
Qed.

Lemma not_truncated_undefined : not_truncated fails_undefined.
Proof. intros w H. discriminate. Qed.

Lemma not_truncated_assert : not_truncated fails_assert.
Proof. intros w H. discriminate. Qed.

Lemma handle_blob_not_truncated PHB to_iso h data :
fails_only not_truncated (HeaderBlobParser.handle_blob PHB to_iso h data).
Proof.
unfold HeaderBlobParser.handle_blob.
destruct (PHB data) as [hb|].
- apply fails_only_bind.
  { apply fails_only_for_loop. intros i s.
    apply fails_only_bind;
      [apply fails_only_get, not_truncated_undefined |].
    intros feature.
    repeat (destruct (String.eqb _ _); [apply fails_only_Ok |]).
    intros f [= <-] w [= <-]. done. }
  intros h1. apply fails_only_bind.
  { apply fails_only_for_loop. intros i s.
    apply fails_only_bind;
      [apply fails_only_get, not_truncated_undefined |].
    intros feature. apply fails_only_Ok. }
  intros h2. apply fails_only_Ok.
- intros f [= <-] w [= <-]. done.
Qed.

Lemma dispatch_not_truncated {R} N PB zlib (handle : list Byte.byte -> outcome R) bp :
(forall data, fails_only not_truncated (handle data)) ->
fails_only not_truncated (BlobParser.dispatch N PB zlib handle bp).
Proof.
intros Hh. unfold BlobParser.dispatch.
destruct (PB _) as [blob|]; [|intros f [= <-] w [= <-]; done].
destruct (blob_raw blob); [apply Hh |].
destruct (blob_zlib_data blob).
- apply fails_only_bind;
    [apply fails_only_assert; intros _; apply not_truncated_assert |].
  intros _.
  apply fails_only_bind;
    [apply fails_only_assert; intros _; apply not_truncated_assert |].
  intros _.
  destruct (zlib _ _); [|apply Hh]. intros f [= <-] w H. discriminate.
- destruct (blob_lzma_data blob); intros f [= <-] w [= <-]; done.
Qed.

Lemma raises_fails_only {A} (m : outcome A) :
fails_only not_truncated m -> ~ raises Truncated m.
Proof.
intros Hm (w & -> & Hk). by apply (Hm _ eq_refl w).
Qed.

(** C3 (as amended): on an empty input the read of the 4-byte header size
  meets the end of the input, which read_blob_header reports as a clean
  end by returning 0, throwing nothing; the constructor goes on with a
  header blob of size 0, whose read of no bytes succeeds, and fails when
  the blob is looked at: with a protobuf reader that takes no bytes for
  the empty Blob, as pbf_error "blob contains no data", a Corrupt error;
  whatever the reader, the error is not a Truncated one. *)
Theorem C3_empty_input_is_not_truncated N PBH PB PHB zlib to_iso q :
empty_input q ->
PBFInputFormat.read_blob_header PBH "OSMHeader"
  (InputQueueReader.of_queue q) = (Ok 0, InputQueueReader.of_queue []) /\
HeaderBlobParser.new 0 (InputQueueReader.of_queue [])
  = (Ok {| BlobParser.m_input_buffer := []; BlobParser.m_size := 0;
           BlobParser.m_blob_num := 0 |}, InputQueueReader.of_queue []) /\
(PB [] = Some Blob_empty ->
 fst (PBFInputFormat.new N PBH PB PHB zlib to_iso q)
 = Throw (pbf_error blob_contains_no_data)) /\
kind_of_what blob_contains_no_data = Corrupt /\
~ raises Truncated (fst (PBFInputFormat.new N PBH PB PHB zlib to_iso q)).
Proof.
intros Hq.
split; [by apply read_blob_header_empty |].
split; [apply BlobParser_new_0 |].
assert (Hnew : PBFInputFormat.new N PBH PB PHB zlib to_iso q
  = (BlobParser.dispatch N PB zlib
       (HeaderBlobParser.handle_blob PHB to_iso Header.empty)
       {| BlobParser.m_input_buffer := []; BlobParser.m_size := 0;
          BlobParser.m_blob_num := 0 |}, InputQueueReader.of_queue [])).
{ unfold PBFInputFormat.new.
  rewrite (read_blob_header_empty PBH _ q Hq).
  unfold HeaderBlobParser.new. by rewrite BlobParser_new_0. }
rewrite Hnew. simpl fst.
split; [|split; [reflexivity |]].
- intros HPB. unfold BlobParser.dispatch. simpl. by rewrite HPB.
- apply raises_fails_only, dispatch_not_truncated.
  intros data. apply handle_blob_not_truncated.
Qed.

Lemma C3_witness :
empty_input [] /\
Sample.ParseBlob [] = Some Blob_empty /\
fst (PBFInputFormat.new false Sample.ParseBlobHeader Sample.ParseBlob
       Sample.ParseHeaderBlock Sample.zlib_uncompress Sample.to_iso [])
= Throw (pbf_error blob_contains_no_data).
Proof.
split; [by left |]. split; [reflexivity |].
destruct (C3_empty_input_is_not_truncated false Sample.ParseBlobHeader
            Sample.ParseBlob Sample.ParseHeaderBlock Sample.zlib_uncompress
            Sample.to_iso [] (or_introl eq_refl)) as (_ & _ & H & _).
exact (H eq_refl).
Defined.

(** C3 as stated fails: constructing the reader on the empty input throws
  pbf_error "blob contains no data", which is none of the errors of an
  unexpected end of input; and no protobuf reader makes the constructor
  raise a Truncated error there. *)
Lemma C3_counterexample :
fst (PBFInputFormat.new false Sample.ParseBlobHeader Sample.ParseBlob
       Sample.ParseHeaderBlock Sample.zlib_uncompress Sample.to_iso [])
= Throw (pbf_error blob_contains_no_data) /\
~ raises Truncated
    (fst (PBFInputFormat.new false Sample.ParseBlobHeader Sample.ParseBlob
            Sample.ParseHeaderBlock Sample.zlib_uncompress Sample.to_iso
            [])) /\
(forall N PBH PB PHB zlib to_iso,
   ~ raises Truncated (fst (PBFInputFormat.new N PBH PB PHB zlib to_iso []))).
Proof.
split; [reflexivity |]. split.
- intros (w & Hw & Hk). vm_compute in Hw. injection Hw as <-. discriminate.
- intros N PBH PB PHB zlib to_iso.
  apply raises_fails_only. unfold PBFInputFormat.new.
  rewrite (read_blob_header_empty PBH _ [] (or_introl eq_refl)).
  unfold HeaderBlobParser.new. rewrite BlobParser_new_0. simpl fst.
  apply dispatch_not_truncated. intros data. apply handle_blob_not_truncated.
Qed.

(** C10, at a blob whose header declares a negative datasize: the buffer
  is allocated by a member initialiser, before the body of the
  constructor checks the size, and [new unsigned char[size]] throws
  std::bad_array_new_length, not a pbf_error; the check of the body
  turns a size above 32 MiB into a pbf_error.  Either way nothing is
  read from the input. *)
Theorem C10_negative_datasize_is_not_a_pbf_error size blob_num r :
BlobParser.new (-1) blob_num r = (Throw bad_array_new_length, r) /\
HeaderBlobParser.new (-1) r = (Throw bad_array_new_length, r) /\
DataBlobParser.new (-1) blob_num r = (Throw bad_array_new_length, r) /\
fst (PBFInputFormat.new false Sample.ParseBlobHeader Sample.ParseBlob
       Sample.ParseHeaderBlock Sample.zlib_uncompress Sample.to_iso
       Sample.negative_datasize_input)
  = Throw bad_array_new_length /\
BlobParser.new size blob_num r =
  (if size <? 0 then (Throw bad_array_new_length, r)
   else if max_uncompressed_blob_size <? size
        then (Throw (pbf_error (invalid_blob_size size)), r)
        else match InputQueueReader.call r (Z.to_nat size) with
             | (Some data, r') =>
                 (Ok {| BlobParser.m_input_buffer := data;
                        BlobParser.m_size := size;
                        BlobParser.m_blob_num := blob_num |}, r')
             | (None, r') =>
                 (Throw (pbf_error truncated_data_EOF_encountered), r')
             end).
Proof.
split; [reflexivity |]. split; [reflexivity |]. split; [reflexivity |].
split; [reflexivity |].
unfold BlobParser.new, BlobParser.new_unsigned_char_array.
destruct (size <? 0); [reflexivity |]. simpl.
destruct (max_uncompressed_blob_size <? size); reflexivity.
Qed.

End FramingFacts.

(** ** The relation collector *)

Section CollectorFacts.

Import osmium relations relations.Collector.

Example read_relations_R1 :
read_relations false Sample.keep_all_relations Sample.keep_all_members
  Sample.insertion_sort [a_relation Sample.R1] new
= Ok Sample.collector_with_R1.
Proof. reflexivity. Qed.

(** Scenario 6 of the specification. *)
Example scenario_two_pass :
outcome_map calls
  (pass2 false false true false Sample.purge_nothing
     [Sample.a_way_of 7; Sample.a_way_of 9; Sample.a_way_of 8]
     Sample.collector_with_R1)
= Ok [way_not_in_any_relation 9;
      complete_relation 0
        {| relation_offset := 0; members_needed := 2; members_found := 2 |}].
Proof. reflexivity. Qed.

(** The count of members found is a count of arrivals: way 7 handed to
  the second pass twice completes R1, of which way 8 never arrives. *)
Example scenario_member_twice :
outcome_map calls
  (pass2 false false true false Sample.purge_nothing
     [Sample.a_way_of 7; Sample.a_way_of 7] Sample.collector_with_R1)
= Ok [complete_relation 0
        {| relation_offset := 0; members_needed := 2; members_found := 2 |}].
Proof. reflexivity. Qed.

Lemma add_members_none keep_member members : forall n slot rm v,
(forall m, m ∈ members -> keep_member rm m = false) ->
add_members keep_member members n slot rm v
= (map uninteresting members, rm, v).
Proof.
induction members as [|m members IH]; intros n slot rm v Hkeep; simpl.
- done.
- rewrite (Hkeep m) by apply list_elem_of_here.
  rewrite IH; [done |]. intros m' Hm'. apply Hkeep. by apply list_elem_of_further.
Qed.

(** The relations buffer is clean between two calls of add_relation, so
    from the fresh collector on. *)
Lemma add_relation_clean N keep_member c relation c' :
  Buffer.clean (m_relations_buffer c) ->
  add_relation N keep_member c relation = Ok c' ->
  Buffer.clean (m_relations_buffer c').
Proof.
  intros Hclean H. unfold add_relation in H.
  inv_bind_as H stored Hstored.
  destruct (add_members _ _ _ _ _ _) as [[ms rm] v].
  inv_bind_as H u Hu.
  unfold Buffer.clean in *.
  destruct (has_all_members rm); injection H as <-; simpl.
  - rewrite length_take, length_insert, length_app. simpl. lia.
  - done.
Qed.

Lemma pass1_clean N keep_relation keep_member source : forall c c',
  Buffer.clean (m_relations_buffer c) ->
  pass1 N keep_relation keep_member source c = Ok c' ->
  Buffer.clean (m_relations_buffer c').
Proof.
  induction source as [|e source IH]; intros c c' Hclean H; simpl in H.
  - by injection H as <-.
  - destruct e as [n|w|r]; [by eapply IH | by eapply IH |].
    inv_bind_as H c1 Hc1. eapply IH; [|exact H].
    unfold pass1_relation in Hc1. destruct (keep_relation r).
    + by eapply add_relation_clean.
    + by injection Hc1 as <-.
Qed.

(** C9: when keep_member turns down every member of a kept relation,
  add_relation rolls the write to the relations buffer back: the
  committed watermark and the vector of relation slots are as before (the
  whole collector is), no hook is called, and the second pass goes as if
  the relation had never been offered, so it is never handed to
  complete_relation. *)
Theorem C9_relation_without_members_is_rolled_back
  N keep_member (c : Collector.t) (relation : Relation) :
Buffer.clean (m_relations_buffer c) ->
(forall m, m ∈ r_members relation ->
   keep_member (RelationMeta_at (Buffer.committed (m_relations_buffer c))) m
   = false) ->
exists c',
  add_relation N keep_member c relation = Ok c' /\
  Buffer.committed (m_relations_buffer c')
    = Buffer.committed (m_relations_buffer c) /\
  m_relations c' = m_relations c /\
  calls c' = calls c /\
  c' = c /\
  forall TNodes TWays TRelations purge_deleted source,
    pass2 N TNodes TWays TRelations purge_deleted source c'
    = pass2 N TNodes TWays TRelations purge_deleted source c.
Proof.
intros Hclean Hkeep. exists c.
split; [|by repeat split].
destruct c as [[data committed] mb rels v cnt cs].
unfold Buffer.clean in Hclean. simpl in *. subst committed.
unfold add_relation. simpl.
unfold Buffer.get, get. simpl.
rewrite lookup_app_r, Nat.sub_diag by lia. simpl.
rewrite add_members_none by done.
unfold assert. rewrite Nat.eqb_refl.
assert (has_all_members (RelationMeta_at (length data)) = true) as ->
  by reflexivity.
replace (if N then Ok () else Ok ()) with (@Ok unit ()) by by destruct N.
simpl. unfold with_relations_buffer, Buffer.rollback. simpl.
rewrite take_insert_ge by lia. by rewrite take_app_length.
Qed.

Lemma C9_witness :
Buffer.clean (m_relations_buffer Sample.collector_with_R1) /\
add_relation false Sample.keep_no_member Sample.collector_with_R1 Sample.R1
= Ok Sample.collector_with_R1.
Proof.
split; [reflexivity |].
destruct (C9_relation_without_members_is_rolled_back false
            Sample.keep_no_member Sample.collector_with_R1 Sample.R1
            eq_refl (fun m _ => eq_refl))
  as (c' & Hadd & _ & _ & _ & Heq & _).
rewrite <- Heq at 2. exact Hadd.
Defined.









Lemma elem_of_completed pos evs :
pos ∈ completed evs <-> exists m, complete_relation pos m ∈ evs.
Proof.
unfold completed. rewrite list_elem_of_omap. split.
- intros (e & He & Hpos). destruct e; try discriminate.
  injection Hpos as ->. eauto.
- intros (m & Hm). eexists. split; [exact Hm | done].
Qed.

















End CollectorFacts.

(** ** More on the block parser *)

Section BlockParserMore.

Import OSMPBF osmium PBFPrimitiveBlockParser.

Lemma for_loop_ext {S} (f g : nat -> S -> outcome S) : forall n lo s,
  (forall i st, (lo <= i < lo + n)%nat -> f i st = g i st) ->
  for_loop lo n f s = for_loop lo n g s.
Proof.
  induction n as [|n IH]; intros lo s H; simpl; [done |].
  rewrite H by lia. destruct (g lo s); simpl; try done.
  apply IH. intros i st Hi. apply H. lia.
Qed.

(** A loop that reads element [i] of a list in round [i] and does not
    otherwise depend on [i] is a fold over the list. *)
Lemma for_loop_fold {A S} (F : A -> S -> outcome S) (l : list A) :
  forall (pre : list A) s,
  for_loop (length pre) (length l)
    (fun i st => let* a := get (pre ++ l) i in F a st) s
  = fold_outcome F l s.
Proof.
  induction l as [|a l IH]; intros pre s; simpl; [done |].
  unfold get at 1. rewrite lookup_app_r, Nat.sub_diag by lia. simpl.
  destruct (F a s) as [s'| | |]; simpl; try done.
  specialize (IH (pre ++ [a]) s').
  rewrite length_app, <- app_assoc in IH. simpl in IH.
  rewrite Nat.add_1_r in IH. exact IH.
Qed.

Lemma fold_outcome_app {A S} (F : A -> S -> outcome S) l1 l2 s :
  fold_outcome F (l1 ++ l2) s
  = let* s1 := fold_outcome F l1 s in fold_outcome F l2 s1.
Proof.
  revert s. induction l1 as [|a l1 IH]; intros s; simpl; [done |].
  destruct (F a s); simpl; try done.
Qed.

Lemma fold_outcome_invariant {A S} (F : A -> S -> outcome S)
    (Inv : S -> Prop) l :
  forall s s',
  fold_outcome F l s = Ok s' -> Inv s ->
  (forall a st st', a ∈ l -> Inv st -> F a st = Ok st' -> Inv st') ->
  Inv s'.
Proof.
  induction l as [|a l IH]; intros s s' H Hs Hstep; simpl in H.
  - by injection H as <-.
  - inv_bind H. eapply IH; [exact H | |].
    + eapply Hstep; [apply list_elem_of_here | done | done].
    + intros a' st st' Ha'. apply Hstep. by apply list_elem_of_further.
Qed.

Lemma outcome_map_map {A B C} (f : A -> B) (g : B -> C) m :
  outcome_map g (outcome_map f m) = outcome_map (fun a => g (f a)) m.
Proof. by destruct m. Qed.

Lemma outcome_map_ext {A B} (f g : A -> B) m :
  (forall a, f a = g a) -> outcome_map f m = outcome_map g m.
Proof.
  intros H. destruct m; simpl; try done. unfold outcome_map. simpl.
  by rewrite H.
Qed.

(** A loop that appends one item a round: the buffer it starts from is a
    frame. *)
Lemma for_loop_frame {B} (f : nat -> outcome B) n : forall lo buf,
  for_loop lo n (fun i b => let* e := f i in Ok (b ++ [e])) buf
  = outcome_map (app buf)
      (for_loop lo n (fun i b => let* e := f i in Ok (b ++ [e])) []).
Proof.
  induction n as [|n IH]; intros lo buf; simpl.
  - unfold outcome_map. simpl. by rewrite app_nil_r.
  - destruct (f lo) as [e| | |]; simpl; try done.
    rewrite IH. rewrite (IH _ [e]). rewrite outcome_map_map.
    apply outcome_map_ext. intros a. by rewrite <- app_assoc.
Qed.

(** The same for a loop that carries locals besides the buffer. *)
Lemma for_loop_frame_state {L B} (g : nat -> L -> outcome (L * B)) n :
  forall lo l buf,
  for_loop lo n
    (fun i (st : L * list B) =>
       let* r := g i (fst st) in Ok (fst r, snd st ++ [snd r])) (l, buf)
  = outcome_map (fun st => (fst st, buf ++ snd st))
      (for_loop lo n
         (fun i (st : L * list B) =>
            let* r := g i (fst st) in Ok (fst r, snd st ++ [snd r]))
         (l, [])).
Proof.
  induction n as [|n IH]; intros lo l buf; simpl.
  - unfold outcome_map. simpl. by rewrite app_nil_r.
  - destruct (g lo l) as [[l' e]| | |]; simpl; try done.
    rewrite IH. rewrite (IH _ _ [e]). rewrite outcome_map_map.
    apply outcome_map_ext. intros [a b]. simpl. by rewrite <- app_assoc.
Qed.

(** Case analysis on the outcomes bound in a goal, outermost first. *)
Ltac destruct_binds :=
  repeat match goal with
  | |- context [bind ?m _] =>
      lazymatch m with
      | context [bind _ _] => fail
      | _ => destruct m; simpl; try reflexivity
      end
  end.

Lemma parse_way_group_frame N p g buf :
  parse_way_group N p g buf = outcome_map (app buf) (parse_way_group N p g []).
Proof.
  unfold parse_way_group.
  set (f := fun i : nat =>
    let* pbf_way := get (ways g) i in
    let* o := parse_attributes N p (way_id pbf_way) (way_info pbf_way) in
    let* wnl := parse_refs (way_refs pbf_way) in
    let* tl := parse_tags p (way_keys pbf_way) (way_vals pbf_way) in
    Ok (a_way {| w_object := o; w_nodes := wnl; w_tags := tl |})).
  rewrite (for_loop_ext _ (fun i b => let* e := f i in Ok (b ++ [e]))).
  2:{ intros i st _. unfold f. destruct_binds. }
  rewrite (for_loop_ext _ (fun i b => let* e := f i in Ok (b ++ [e])) _ _ []).
  2:{ intros i st _. unfold f. destruct_binds. }
  apply for_loop_frame.
Qed.

Lemma parse_relation_group_frame N p g buf :
  parse_relation_group N p g buf
  = outcome_map (app buf) (parse_relation_group N p g []).
Proof.
  unfold parse_relation_group.
  set (f := fun i : nat =>
    let* pbf_relation := get (relations g) i in
    let* o := parse_attributes N p (relation_id pbf_relation)
                (relation_info pbf_relation) in
    let* rml := parse_members p pbf_relation in
    let* tl := parse_tags p (relation_keys pbf_relation)
                 (relation_vals pbf_relation) in
    Ok (a_relation {| r_object := o; r_members := rml; r_tags := tl |})).
  rewrite (for_loop_ext _ (fun i b => let* e := f i in Ok (b ++ [e]))).
  2:{ intros i st _. unfold f. destruct_binds. }
  rewrite (for_loop_ext _ (fun i b => let* e := f i in Ok (b ++ [e])) _ _ []).
  2:{ intros i st _. unfold f. destruct_binds. }
  apply for_loop_frame.
Qed.

Lemma parse_node_group_frame N p g buf :
  parse_node_group N p g buf
  = outcome_map (app buf) (parse_node_group N p g []).
Proof.
  unfold parse_node_group.
  set (f := fun i : nat =>
    let* pbf_node := get (nodes g) i in
    let* o := parse_attributes N p (node_id pbf_node) (node_info pbf_node) in
    let* tl := parse_tags p (node_keys pbf_node) (node_vals pbf_node) in
    Ok (a_node {| n_object := o;
                  n_location :=
                    if visible o
                    then make_location p (node_lon pbf_node) (node_lat pbf_node)
                    else Location_undefined;
                  n_tags := tl |})).
  rewrite (for_loop_ext _ (fun i b => let* e := f i in Ok (b ++ [e]))).
  2:{ intros i st _. unfold f. destruct_binds. }
  rewrite (for_loop_ext _ (fun i b => let* e := f i in Ok (b ++ [e])) _ _ []).
  2:{ intros i st _. unfold f. destruct_binds. }
  apply for_loop_frame.
Qed.

Lemma parse_dense_node_group_frame N p d buf :
  parse_dense_node_group N p d buf
  = outcome_map (app buf) (parse_dense_node_group N p d []).
Proof.
  unfold parse_dense_node_group.
  set (g := fun (i : nat) (l0 : dense_locals) =>
    let* adv := dense_advance N d i l0 in
    let l := fst adv in
    let vis := snd adv in
    let* o := dense_object N p d i l vis in
    let* nt := add_tags p d (last_dense_tag l) in
    Ok ({| last_dense_id := last_dense_id l;
           last_dense_latitude := last_dense_latitude l;
           last_dense_longitude := last_dense_longitude l;
           last_dense_uid := last_dense_uid l;
           last_dense_user_sid := last_dense_user_sid l;
           last_dense_changeset := last_dense_changeset l;
           last_dense_timestamp := last_dense_timestamp l;
           last_dense_tag := fst nt |},
        a_node {| n_object := o;
                  n_location :=
                    if vis
                    then make_location p (last_dense_longitude l)
                           (last_dense_latitude l)
                    else Location_undefined;
                  n_tags := snd nt |})).
  assert (Hstep : forall i st,
    dense_step N p d i st
    = let* r := g i (fst st) in Ok (fst r, snd st ++ [snd r])).
  { intros i st. unfold dense_step, g.
    destruct (dense_advance N d i (fst st)); simpl; try reflexivity.
    destruct (dense_object _ _ _ _ _ _); simpl; try reflexivity.
    destruct (add_tags _ _ _); simpl; reflexivity. }
  rewrite (for_loop_ext _ _ _ _ _ (fun i st _ => Hstep i st)).
  rewrite (for_loop_ext (dense_step N p d) _ _ _ _ (fun i st _ => Hstep i st)).
  rewrite for_loop_frame_state. rewrite !outcome_map_map. done.
Qed.

(** What a group appends does not depend on what the buffer holds. *)
Lemma parse_group_frame N p g buf :
  parse_group N p g buf = outcome_map (app buf) (parse_group N p g []).
Proof.
  assert (Hskip : @Ok (list Entity) buf = outcome_map (app buf) (Ok [])).
  { unfold outcome_map. simpl. by rewrite app_nil_r. }
  unfold parse_group. destruct (dense g).
  { destruct (want_node _); [apply parse_dense_node_group_frame | done]. }
  destruct (negb _).
  { destruct (want_way _); [apply parse_way_group_frame | done]. }
  destruct (negb _).
  { destruct (want_relation _); [apply parse_relation_group_frame | done]. }
  destruct (negb _); [|done].
  destruct (want_node _); [apply parse_node_group_frame | done].
Qed.

Lemma parse_block_fold N rt b :
  parse_block N rt b
  = fold_outcome (parse_group N (configure rt b)) (primitivegroup b) [].
Proof. unfold parse_block. apply (for_loop_fold _ _ []). Qed.

Lemma fold_parse_group_frame N p gs : forall buf,
  fold_outcome (parse_group N p) gs buf
  = outcome_map (app buf) (fold_outcome (parse_group N p) gs []).
Proof.
  induction gs as [|g gs IH]; intros buf; simpl.
  - unfold outcome_map. simpl. by rewrite app_nil_r.
  - rewrite parse_group_frame.
    destruct (parse_group N p g []) as [es| | |]; simpl; try done.
    rewrite IH, (IH es), outcome_map_map.
    apply outcome_map_ext. intros a. by rewrite <- app_assoc.
Qed.

Lemma parse_block_app N rt b gs1 gs2 :
  parse_block N rt (with_groups b (gs1 ++ gs2))
  = let* out1 := parse_block N rt (with_groups b gs1) in
    let* out2 := parse_block N rt (with_groups b gs2) in
    Ok (out1 ++ out2).
Proof.
  rewrite !parse_block_fold. simpl.
  change (configure rt (with_groups b (gs1 ++ gs2))) with (configure rt b).
  change (configure rt (with_groups b gs1)) with (configure rt b).
  change (configure rt (with_groups b gs2)) with (configure rt b).
  rewrite fold_outcome_app.
  destruct (fold_outcome _ gs1 []) as [out1| | |]; simpl; try done.
  rewrite fold_parse_group_frame. done.
Qed.

Lemma Forall2_Forall_r {A B} (R : A -> B -> Prop) (P : B -> Prop) l k :
  Forall2 R l k -> (forall a b, R a b -> P b) -> Forall P k.
Proof. induction 1; intros HP; constructor; eauto. Qed.

(** What a group contributes: entities of the one kind the group counts
    as, as many as the group has wire objects of that kind when the kind
    is asked for, none otherwise. *)
Lemma parse_group_kind N p g buf buf' :
  parse_group N p g buf = Ok buf' ->
  exists ty n es,
    group_kind g = Some (ty, n) /\ buf' = buf ++ es /\
    Forall (fun e => type e = ty) es /\
    length es = (if wanted (m_read_types p) ty then n else 0)%nat.
Proof.
  unfold parse_group, group_kind. intros H.
  destruct (dense g) as [d|].
  { exists node, (length (dense_id d)). simpl.
    destruct (want_node (m_read_types p)).
    - apply parse_dense_node_group_Ok in H as (ns & rest & -> & Hlen & _).
      exists (map a_node ns). split; [done |]. split; [done |].
      split; [| by rewrite length_map].
      apply Forall_fmap. by apply Forall_true.
    - injection H as <-. exists []. by rewrite app_nil_r. }
  destruct (ways g) as [|w ws] eqn:Hw; simpl in H.
  2:{ exists way, (length (w :: ws)). simpl.
      destruct (want_way (m_read_types p)).
      - apply parse_way_group_Ok in H as (es & -> & HF).
        exists es. split; [done |]. split; [done |]. split.
        + eapply Forall2_Forall_r; [exact HF |].
          by intros a b (w' & -> & _).
        + apply Forall2_length in HF. by rewrite Hw in HF.
      - injection H as <-. exists []. by rewrite app_nil_r. }
  destruct (relations g) as [|r rs] eqn:Hr; simpl in H.
  2:{ exists relation, (length (r :: rs)). simpl.
      destruct (want_relation (m_read_types p)).
      - apply parse_relation_group_Ok in H as (es & -> & HF).
        exists es. split; [done |]. split; [done |]. split.
        + eapply Forall2_Forall_r; [exact HF |].
          by intros a b (r' & -> & _).
        + apply Forall2_length in HF. by rewrite Hr in HF.
      - injection H as <-. exists []. by rewrite app_nil_r. }
  destruct (nodes g) as [|n ns] eqn:Hn; simpl in H; [discriminate |].
  exists node, (length (n :: ns)). simpl.
  destruct (want_node (m_read_types p)).
  - apply parse_node_group_Ok in H as (es & -> & HF).
    exists es. split; [done |]. split; [done |]. split.
    + eapply Forall2_Forall_r; [exact HF |].
      by intros a b (n' & -> & _).
    + apply Forall2_length in HF. by rewrite Hn in HF.
  - injection H as <-. exists []. by rewrite app_nil_r.
Qed.

(** X1: a block that decodes yields entities of the kinds the caller asked
    for and of no other kind. *)
Theorem X1_parse_block_emits_wanted_kinds_only N rt b out :
  parse_block N rt b = Ok out ->
  Forall (fun e => wanted rt (type e) = true) out.
Proof.
  rewrite parse_block_fold. intros H.
  apply (fold_outcome_invariant _
           (Forall (fun e => wanted rt (type e) = true)) _ _ _ H).
  - constructor.
  - intros g st st' _ Hst Hg.
    apply parse_group_kind in Hg as (ty & n & es & _ & -> & Hty & Hlen).
    apply Forall_app. split; [done |]. simpl in Hlen.
    destruct (wanted rt ty) eqn:Hw.
    + eapply Forall_impl; [exact Hty |]. by intros e ->.
    + destruct es; [constructor | done].
Qed.

Lemma X1_witness :
  exists out,
    parse_block false Sample.ways_only
      (Sample.block [Sample.node_group; Sample.way_group;
                     Sample.relation_group]) = Ok out /\
    length out = 1%nat /\
    Forall (fun e => wanted Sample.ways_only (type e) = true) out.
Proof.
  eexists. split; [reflexivity |]. split; [reflexivity |].
  apply (X1_parse_block_emits_wanted_kinds_only false Sample.ways_only
           (Sample.block [Sample.node_group; Sample.way_group;
                          Sample.relation_group])).
  reflexivity.
Defined.

(** X2: a group is decoded as one kind, the first that it holds in the
    order dense nodes, ways, relations, nodes: it contributes entities of
    that kind only, one for every wire object of that kind when the kind
    is asked for and none otherwise; what else the group holds is
    dropped. *)
Theorem X2_group_is_decoded_as_one_kind N p g buf buf' :
  parse_group N p g buf = Ok buf' ->
  exists ty n es,
    group_kind g = Some (ty, n) /\ buf' = buf ++ es /\
    Forall (fun e => type e = ty) es /\
    length es = (if wanted (m_read_types p) ty then n else 0)%nat.
Proof. apply parse_group_kind. Qed.

Lemma X2_witness :
  exists buf',
    parse_group false (configure all (Sample.block [Sample.mixed_group]))
      Sample.mixed_group [] = Ok buf' /\
    exists ty n es,
      group_kind Sample.mixed_group = Some (ty, n) /\ buf' = [] ++ es /\
      Forall (fun e => type e = ty) es /\
      length es = (if wanted all ty then n else 0)%nat.
Proof.
  eexists. split; [reflexivity |].
  apply (X2_group_is_decoded_as_one_kind false
           (configure all (Sample.block [Sample.mixed_group]))
           Sample.mixed_group []).
  reflexivity.
Defined.

(** X3: a group that holds nothing makes the block fail with the
    pbf_error "group of unknown type" once the groups before it are
    decoded, whatever kinds the caller asked for; nothing of the block is
    returned. *)
Theorem X3_empty_group_is_an_error N rt b gs1 g gs2 out1 :
  empty_group g ->
  parse_block N rt (with_groups b gs1) = Ok out1 ->
  parse_block N rt (with_groups b (gs1 ++ g :: gs2))
  = Throw (pbf_error group_of_unknown_type).
Proof.
  intros (Hd & Hw & Hr & Hn) H1.
  rewrite parse_block_app, H1. simpl.
  rewrite parse_block_fold. simpl.
  unfold parse_group at 1. by rewrite Hd, Hw, Hr, Hn.
Qed.

Lemma X3_witness :
  empty_group Sample.nothing_group /\
  parse_block false Sample.ways_only
    (with_groups (Sample.block [])
       ([Sample.way_group] ++ Sample.nothing_group :: [Sample.node_group]))
  = Throw (pbf_error group_of_unknown_type).
Proof.
  split; [by repeat split |].
  apply (X3_empty_group_is_an_error false Sample.ways_only (Sample.block [])
           [Sample.way_group] Sample.nothing_group [Sample.node_group]
           _ ltac:(by repeat split) eq_refl).
Defined.

(** X4: decoding a block is decoding its groups one after the other: the
    entities of the first groups are followed by those of the groups
    behind them, each part being what a block of these groups alone, with
    the same string table and granularities, decodes to; a failure among
    the first groups is the failure of the block. *)
Theorem X4_parse_block_groupwise N rt b gs1 gs2 :
  parse_block N rt (with_groups b (gs1 ++ gs2))
  = let* out1 := parse_block N rt (with_groups b gs1) in
    let* out2 := parse_block N rt (with_groups b gs2) in
    Ok (out1 ++ out2).
Proof. apply parse_block_app. Qed.

(** X5: a node that is not visible, dense or not, is never given the
    coordinates of the file: its location stays the undefined location of
    a fresh node. *)
Theorem X5_invisible_node_has_no_location N p g buf buf' :
  parse_group N p g buf = Ok buf' ->
  exists es, buf' = buf ++ es /\
    forall i n, es !! i = Some (a_node n) ->
      visible (n_object n) = false ->
      n_location n = Location_undefined.
Proof.
  intros H. apply parse_group_Ok in H as (es & -> & Hes).
  exists es. split; [done |]. intros i n Hi Hvis.
  specialize (Hes i _ Hi). unfold decoded_from in Hes.
  destruct (dense g) as [d|].
  - destruct Hes as (n' & [= <-] & _ & Hloc & _). by rewrite Hvis in Hloc.
  - destruct Hes as (pn & _ & _ & Hloc & _). by rewrite Hvis in Hloc.
Qed.

Lemma X5_witness :
  exists buf',
    parse_group false
      (configure all (Sample.block [Sample.deleted_node_group]))
      Sample.deleted_node_group [] = Ok buf' /\
    exists es, buf' = [] ++ es /\
      forall i n, es !! i = Some (a_node n) ->
        visible (n_object n) = false ->
        n_location n = Location_undefined.
Proof.
  eexists. split; [reflexivity |].
  apply (X5_invisible_node_has_no_location false
           (configure all (Sample.block [Sample.deleted_node_group]))
           Sample.deleted_node_group []).
  reflexivity.
Defined.

Lemma mul64_0_r z : Int.mul64 z 0 = 0.
Proof. unfold Int.mul64. by rewrite Z.mul_0_r. Qed.

Lemma div32_small z : -1000 < z < 1000 -> Int.div32 z 1000 = 0.
Proof.
  intros H. unfold Int.div32.
  replace (z ÷ 1000) with 0; [done |].
  symmetry. destruct (Z_le_gt_dec 0 z).
  - apply Z.quot_small. lia.
  - rewrite <- (Z.opp_involutive z), Z.quot_opp_l by lia.
    rewrite Z.quot_small by lia. done.
Qed.

Lemma parse_attributes_factor_0 N p pbf_id info o :
  m_date_factor p = 0 ->
  parse_attributes N p pbf_id info = Ok o -> timestamp o = 0.
Proof.
  intros Hf H. destruct info as [info|].
  - rewrite (parse_attributes_timestamp _ _ _ _ _ H), Hf. apply mul64_0_r.
  - simpl in H. by injection H as <-.
Qed.

(** X6: in a block whose date_granularity is below 1000 (in absolute
    value), the factor date_granularity / 1000 is 0 and every decoded
    timestamp is 0, whatever the file holds. *)
Theorem X6_date_granularity_below_1000_zeroes_timestamps
    N rt b g buf buf' :
  -1000 < date_granularity b < 1000 ->
  parse_group N (configure rt b) g buf = Ok buf' ->
  exists es, buf' = buf ++ es /\
    Forall (fun e => timestamp (object e) = 0) es.
Proof.
  intros Hdg H. apply parse_group_Ok in H as (es & -> & Hes).
  exists es. split; [done |]. apply Forall_lookup. intros i e Hi.
  specialize (Hes i e Hi). unfold decoded_from in Hes.
  assert (m_date_factor (configure rt b) = 0) as Hf
    by (simpl; by apply div32_small).
  destruct (dense g) as [d|].
  - destruct Hes as (n & -> & _ & _ & Hinfo). simpl.
    destruct (denseinfo d) as [di|].
    + destruct Hinfo as [-> _]. rewrite Hf. apply mul64_0_r.
    + by destruct Hinfo as [-> _].
  - destruct e as [n|w|r]; simpl.
    + destruct Hes as (pn & _ & Hattr & _).
      by eapply parse_attributes_factor_0.
    + destruct Hes as (pw & _ & Hattr & _).
      by eapply parse_attributes_factor_0.
    + destruct Hes as (pr & _ & Hattr & _).
      by eapply parse_attributes_factor_0.
Qed.

Lemma X6_witness :
  -1000 < date_granularity (Sample.block_of_tenths [Sample.way_group])
    < 1000 /\
  exists buf',
    parse_group false
      (configure all (Sample.block_of_tenths [Sample.way_group]))
      Sample.way_group [] = Ok buf' /\
    exists es, buf' = [] ++ es /\
      Forall (fun e => timestamp (object e) = 0) es.
Proof.
  split; [by split |].
  eexists. split; [reflexivity |].
  apply (X6_date_granularity_below_1000_zeroes_timestamps false all
           (Sample.block_of_tenths [Sample.way_group]) Sample.way_group []).
  - by split.
  - reflexivity.
Defined.

Lemma spec_dense_tags_nil p n :
  spec_dense_tags p n [] = Ok (replicate n [], []).
Proof. induction n as [|n IH]; simpl; [done |]. by rewrite IH. Qed.

(** X7: a dense group whose keys_vals array is empty decodes to nodes
    without tags, one for every id. *)
Theorem X7_dense_group_without_keys_vals_has_no_tags N p d buf buf' :
  keys_vals d = [] ->
  parse_dense_node_group N p d buf = Ok buf' ->
  exists ns, buf' = buf ++ map a_node ns /\
    length ns = length (dense_id d) /\
    Forall (fun n => n_tags n = []) ns.
Proof.
  intros Hkv H.
  apply parse_dense_node_group_Ok in H as (ns & rest & -> & Hlen & Htags & _).
  exists ns. split; [done |]. split; [done |].
  rewrite Hkv, spec_dense_tags_nil in Htags. injection Htags as Htags _.
  apply Forall_lookup. intros i n Hi.
  assert (map n_tags ns !! i = Some (n_tags n)) as Hm
    by by rewrite list_lookup_fmap, Hi.
  rewrite <- Htags in Hm. by apply lookup_replicate in Hm as [-> _].
Qed.

Lemma X7_witness :
  keys_vals (Sample.dense_of [10; 5] None []) = [] /\
  exists buf',
    parse_dense_node_group false (configure all (Sample.block []))
      (Sample.dense_of [10; 5] None []) [] = Ok buf' /\
    exists ns, buf' = [] ++ map a_node ns /\
      length ns = length (dense_id (Sample.dense_of [10; 5] None [])) /\
      Forall (fun n => n_tags n = []) ns.
Proof.
  split; [reflexivity |].
  eexists. split; [reflexivity |].
  apply (X7_dense_group_without_keys_vals_has_no_tags false
           (configure all (Sample.block []))
           (Sample.dense_of [10; 5] None []) []).
  - reflexivity.
  - reflexivity.
Defined.

Lemma s_Ok_inv p i str :
  s p i = Ok str -> 0 <= i /\ m_stringtable p !! Z.to_nat i = Some str.
Proof.
  unfold s. destruct (i <? 0) eqn:Hi; [done |].
  intros H. apply get_Ok_inv in H. split; [lia | done].
Qed.

Lemma parse_tags_Ok p keys vals tl :
  parse_tags p keys vals = Ok tl ->
  length tl = length keys /\
  forall k, (k < length keys)%nat ->
    exists ki vi ks vs,
      keys !! k = Some ki /\ vals !! k = Some vi /\
      tl !! k = Some (ks, vs) /\
      s p (Int.wrap32 ki) = Ok ks /\ s p (Int.wrap32 vi) = Ok vs.
Proof.
  unfold parse_tags. intros H.
  apply (for_loop_invariant
    (fun i (tl : list Tag) =>
       length tl = i /\
       forall k, (k < i)%nat ->
         exists ki vi ks vs,
           keys !! k = Some ki /\ vals !! k = Some vi /\
           tl !! k = Some (ks, vs) /\
           s p (Int.wrap32 ki) = Ok ks /\ s p (Int.wrap32 vi) = Ok vs)) in H.
  - exact H.
  - split; [done |]. intros k Hk. lia.
  - clear H. intros i st st' Hi (Hlen & Hk) Hb.
    inv_bind_as Hb ki Hki. inv_bind_as Hb vi Hvi.
    inv_bind_as Hb ks Hks. inv_bind_as Hb vs Hvs. injection Hb as <-.
    apply get_Ok_inv in Hki, Hvi.
    unfold Tag in *.
    split; [rewrite length_app; simpl; lia |].
    intros k Hlt. destruct (decide (k = i)) as [->|Hne].
    + exists ki, vi, ks, vs. repeat split; try done.
      by rewrite lookup_app_r, Hlen, Nat.sub_diag by lia.
    + destruct (Hk k ltac:(lia)) as (ki' & vi' & ks' & vs' & ? & ? & ? & ? & ?).
      exists ki', vi', ks', vs'. repeat split; try done.
      rewrite lookup_app_l by lia. done.
Qed.

(** X8: the tags of a node, way or relation that is not dense pair the
    keys array with the vals array by position: as many tags as keys,
    tag k being the strings of the table at keys[k] and vals[k]; a decode
    that returns has found a value for every key and both indexes inside
    the string table. *)
Theorem X8_tags_pair_keys_with_vals p keys vals tl :
  parse_tags p keys vals = Ok tl ->
  length tl = length keys /\ (length keys <= length vals)%nat /\
  forall k, (k < length keys)%nat ->
    exists ki vi ks vs,
      keys !! k = Some ki /\ vals !! k = Some vi /\
      tl !! k = Some (ks, vs) /\
      0 <= Int.wrap32 ki /\ 0 <= Int.wrap32 vi /\
      m_stringtable p !! Z.to_nat (Int.wrap32 ki) = Some ks /\
      m_stringtable p !! Z.to_nat (Int.wrap32 vi) = Some vs.
Proof.
  intros H. apply parse_tags_Ok in H as (Hlen & Hk).
  split; [done |]. split.
  - destruct (length keys) as [|m] eqn:Hm; [lia |].
    destruct (Hk m ltac:(lia)) as (ki & vi & ks & vs & _ & Hv & _).
    apply lookup_lt_Some in Hv. lia.
  - intros k Hlt.
    destruct (Hk k Hlt) as (ki & vi & ks & vs & ? & ? & ? & Hks & Hvs).
    apply s_Ok_inv in Hks as [? ?]. apply s_Ok_inv in Hvs as [? ?].
    exists ki, vi, ks, vs. done.
Qed.

Lemma X8_witness :
  length [("k1", "v1"); ("k2", "v2")]%string = length [1; 3] /\
  (length [1; 3] <= length [2; 4])%nat /\
  forall k, (k < length [1; 3])%nat ->
    exists ki vi ks vs,
      [1; 3] !! k = Some ki /\ [2; 4] !! k = Some vi /\
      [("k1", "v1"); ("k2", "v2")]%string !! k = Some (ks, vs) /\
      0 <= Int.wrap32 ki /\ 0 <= Int.wrap32 vi /\
      Sample.strings !! Z.to_nat (Int.wrap32 ki) = Some ks /\
      Sample.strings !! Z.to_nat (Int.wrap32 vi) = Some vs.
Proof.
  apply (X8_tags_pair_keys_with_vals (configure all (Sample.block []))
           [1; 3] [2; 4]).
  reflexivity.
Defined.

(** X9: a decoded relation has as many members as its types array has
    entries, whatever the length of memids and roles_sid, which a decode
    that returns has found at least as long; member k has the kind of
    types[k] and for role the string of the table at roles_sid[k]. *)
Theorem X9_relation_members_follow_the_types_array p pr ms :
  parse_members p pr = Ok ms ->
  length ms = length (types pr) /\
  (length (types pr) <= length (memids pr))%nat /\
  (length (types pr) <= length (roles_sid pr))%nat /\
  forall k m, ms !! k = Some m ->
    exists ty sid,
      types pr !! k = Some ty /\ roles_sid pr !! k = Some sid /\
      member_type m = osmpbf_membertype_to_item_type ty /\
      0 <= sid /\ m_stringtable p !! Z.to_nat sid = Some (member_role m).
Proof.
  intros H. apply parse_members_Ok in H as (Hlen & Hk).
  split; [done |].
  assert (Hlast : forall n, length (types pr) = S n ->
            (S n <= length (memids pr))%nat /\
            (S n <= length (roles_sid pr))%nat).
  { intros n Hn. destruct (Hk n ltac:(lia))
      as (m & d & ty & sid & _ & Hd & _ & Hsid & _).
    apply lookup_lt_Some in Hd, Hsid. lia. }
  split; [|split].
  - destruct (length (types pr)) as [|n] eqn:Hn; [lia |].
    by destruct (Hlast n eq_refl).
  - destruct (length (types pr)) as [|n] eqn:Hn; [lia |].
    by destruct (Hlast n eq_refl).
  - intros k m Hm.
    assert (k < length (types pr))%nat as Hlt.
    { rewrite <- Hlen. by apply lookup_lt_Some in Hm. }
    destruct (Hk k Hlt) as (m' & d & ty & sid & Hm' & _ & Hty & Hsid & _ & Hmt & Hs).
    rewrite Hm in Hm'. injection Hm' as <-.
    apply s_Ok_inv in Hs as [? ?]. exists ty, sid. done.
Qed.

Lemma X9_witness :
  length [Sample.member_way 7; Sample.member_way 8]
  = length (types Sample.relation) /\
  (length (types Sample.relation) <= length (memids Sample.relation))%nat /\
  (length (types Sample.relation)
   <= length (roles_sid Sample.relation))%nat /\
  forall k m, [Sample.member_way 7; Sample.member_way 8] !! k = Some m ->
    exists ty sid,
      types Sample.relation !! k = Some ty /\
      roles_sid Sample.relation !! k = Some sid /\
      member_type m = osmpbf_membertype_to_item_type ty /\
      0 <= sid /\ Sample.strings !! Z.to_nat sid = Some (member_role m).
Proof.
  apply (X9_relation_members_follow_the_types_array
           (configure all (Sample.block [])) Sample.relation).
  reflexivity.
Defined.

End BlockParserMore.

(** ** More on the input queue and the framing *)

Section FramingMore.

Import OSMPBF InputQueueReader.

Variable NDEBUG : bool.
Variable ParseBlobHeader : list Byte.byte -> option BlobHeader.
Variable ParseBlob : list Byte.byte -> option Blob.
Variable zlib_uncompress : list Byte.byte -> Z -> string + list Byte.byte.
Variable ParsePrimitiveBlock : list Byte.byte -> option PrimitiveBlock.

Lemma fill_enough size : forall q buf,
  (size <= length (buf ++ before_eof q))%nat ->
  exists q' buf',
    fill size q buf = (true, {| m_queue := q'; m_buffer := buf' |}) /\
    buf' ++ before_eof q' = buf ++ before_eof q /\
    (size <= length buf')%nat /\
    (length buf' + length (concat q') = length buf + length (concat q))%nat.
Proof.
  induction q as [|new_data q IH]; intros buf H.
  - simpl in *. rewrite app_nil_r in H.
    destruct (length buf <? size)%nat eqn:E.
    + apply Nat.ltb_lt in E. lia.
    + exists [], buf. done.
  - cbn [fill]. destruct (length buf <? size)%nat eqn:E.
    + apply Nat.ltb_lt in E. destruct new_data as [|b new_data].
      * simpl in H. rewrite app_nil_r in H. lia.
      * destruct (IH (buf ++ b :: new_data))
          as (q' & buf' & Hf & Hst & Hsz & Hrem).
        { cbn [before_eof] in H. by rewrite <- app_assoc. }
        exists q', buf'. split; [done |]. split.
        { rewrite Hst. cbn [before_eof]. by rewrite <- app_assoc. }
        split; [done |]. rewrite Hrem. simpl. rewrite !length_app. simpl. lia.
    + exists (new_data :: q), buf. apply Nat.ltb_ge in E. done.
Qed.

Lemma fill_short size : forall q buf,
  (length (buf ++ before_eof q) < size)%nat ->
  exists q',
    fill size q buf
    = (false, {| m_queue := q'; m_buffer := buf ++ before_eof q |}) /\
    (length (buf ++ before_eof q) + length (concat q')
     <= length buf + length (concat q))%nat.
Proof.
  induction q as [|new_data q IH]; intros buf H.
  - simpl in *. rewrite app_nil_r in *.
    apply Nat.ltb_lt in H. rewrite H. exists []. simpl. split; [done | lia].
  - cbn [fill]. assert ((length buf <? size)%nat = true) as ->.
    { apply Nat.ltb_lt. rewrite length_app in H. lia. }
    destruct new_data as [|b new_data].
    + simpl. rewrite app_nil_r. exists q. split; [done | lia].
    + destruct (IH (buf ++ b :: new_data)) as (q' & Hf & Hrem).
      { cbn [before_eof] in H. by rewrite <- app_assoc. }
      exists q'. cbn [before_eof]. rewrite app_assoc. split; [done |].
      etrans; [exact Hrem |]. simpl. rewrite !length_app. simpl. lia.
Qed.

(** A read of [size] bytes against the input that is left. *)
Lemma call_enough r size :
  (size <= length (pending r))%nat ->
  exists r',
    call r size = (Some (take size (pending r)), r') /\
    pending r' = drop size (pending r) /\
    (remaining r' + size = remaining r)%nat.
Proof.
  intros H. destruct r as [q buf]. unfold pending in *. simpl in *.
  destruct (fill_enough size q buf H) as (q' & buf' & Hf & Hst & Hsz & Hrem).
  unfold call. simpl. rewrite Hf. simpl.
  eexists. split; [|split].
  - f_equal. f_equal. rewrite <- Hst. by rewrite take_app_le.
  - simpl. rewrite <- Hst. by rewrite drop_app_le.
  - unfold remaining. simpl. rewrite length_drop. lia.
Qed.

Lemma call_short r size :
  (length (pending r) < size)%nat ->
  exists r',
    call r size = (None, r') /\ m_buffer r' = pending r /\
    (remaining r' <= remaining r)%nat.
Proof.
  intros H. destruct r as [q buf]. unfold pending in *. simpl in *.
  destruct (fill_short size q buf H) as (q' & Hf & Hrem).
  unfold call. simpl. rewrite Hf. simpl. eexists. split; [done |].
  split; [done |]. unfold remaining. simpl. done.
Qed.

(** X10: a read delivers the next bytes of the input whatever the pieces
    the input arrives in: with [size] bytes left before the end of the
    input it returns the first [size] of them and leaves the others; with
    fewer it fails, keeping what there was in its buffer. *)
Theorem X10_InputQueueReader_reads_the_stream r size :
  ((size <= length (pending r))%nat ->
   exists r', call r size = (Some (take size (pending r)), r') /\
     pending r' = drop size (pending r)) /\
  ((length (pending r) < size)%nat ->
   exists r', call r size = (None, r') /\ m_buffer r' = pending r).
Proof.
  split; intros H.
  - destruct (call_enough r size H) as (r' & ? & ? & _). eauto.
  - destruct (call_short r size H) as (r' & ? & ? & _). eauto.
Qed.

Lemma ntohl_bound bytes :
  0 <= PBFInputFormat.ntohl bytes < 256 ^ Z.of_nat (length bytes).
Proof.
  unfold PBFInputFormat.ntohl.
  assert (forall acc n, 0 <= acc < 256 ^ Z.of_nat n ->
    0 <= fold_left (fun acc b => acc * 256 + Z.of_N (Byte.to_N b)) bytes acc
      < 256 ^ Z.of_nat (n + length bytes)) as H.
  { induction bytes as [|b bytes IH]; intros acc n Hacc; simpl.
    - by rewrite Nat.add_0_r.
    - replace (n + S (length bytes))%nat with (S n + length bytes)%nat by lia.
      apply IH. rewrite Nat2Z.inj_succ, Z.pow_succ_r by lia.
      pose proof (Byte.to_N_bounded b) as Hb. lia. }
  apply (H 0 0%nat). simpl. lia.
Qed.

(** The reader moves on by the bytes read and never gains any. *)
Lemma call_remaining r size res r' :
  call r size = (res, r') ->
  (remaining r' <= remaining r)%nat /\
  (is_Some res -> (remaining r' + size = remaining r)%nat).
Proof.
  intros H. destruct (le_lt_dec size (length (pending r))) as [Hs|Hs].
  - destruct (call_enough r size Hs) as (r1 & Hc & _ & Hrem).
    rewrite Hc in H. injection H as <- <-. split; [lia | done].
  - destruct (call_short r size Hs) as (r1 & Hc & _ & Hrem).
    rewrite Hc in H. injection H as <- <-. split; [done |].
    intros [x Hx]. done.
Qed.

Lemma read_blob_header_remaining expected r res r' :
  PBFInputFormat.read_blob_header ParseBlobHeader expected r = (res, r') ->
  (remaining r' <= remaining r)%nat /\
  (forall size, res = Ok size -> size <> 0 ->
     (remaining r' + 4 <= remaining r)%nat).
Proof.
  unfold PBFInputFormat.read_blob_header. intros H.
  destruct (call r 4) as [[bytes|] r1] eqn:H4.
  2:{ injection H as <- <-.
      apply call_remaining in H4 as [? _]. split; [done |].
      intros size [= <-] Hne. done. }
  apply call_remaining in H4 as [_ H4]. specialize (H4 ltac:(eauto)).
  destruct (_ <? _).
  { injection H as <- <-. split; [lia | done]. }
  destruct (call r1 _) as [[hb|] r2] eqn:Hh.
  2:{ injection H as <- <-. apply call_remaining in Hh as [? _].
      split; [lia | done]. }
  apply call_remaining in Hh as [Hh _].
  destruct (ParseBlobHeader hb) as [h|].
  2:{ injection H as <- <-. split; [lia | done]. }
  destruct (strcmp_differs _ _); injection H as <- <-; (split; [lia |]).
  - done.
  - intros. lia.
Qed.

Lemma BlobParser_new_remaining size blob_num r res r' :
  BlobParser.new size blob_num r = (res, r') ->
  (remaining r' <= remaining r)%nat.
Proof.
  unfold BlobParser.new. destruct (BlobParser.new_unsigned_char_array size);
    try (intros [= <- <-]; lia).
  destruct (_ || _); [intros [= <- <-]; lia |].
  destruct (call r _) as [[data|] r1] eqn:Hc;
    intros [= <- <-]; by apply call_remaining in Hc as [? _].
Qed.

Lemma wait_more_fuel sch busy : forall fuel t t1,
  PBFInputFormat.wait sch busy fuel t = Some t1 ->
  forall fuel', (fuel <= fuel')%nat ->
    PBFInputFormat.wait sch busy fuel' t = Some t1.
Proof.
  induction fuel as [|fuel IH]; intros t t1 H fuel' Hle; [done |].
  destruct fuel' as [|fuel']; [lia |].
  cbn [PBFInputFormat.wait] in *.
  destruct (negb (PBFInputFormat.done_at sch t) && busy t); [|done].
  apply (IH _ _ H). lia.
Qed.

(** A wait ends when there is a look at which [m_done] is set or the
    queue waited for is not busy. *)
Lemma wait_ends sch busy : forall d t,
  PBFInputFormat.done_at sch (t + d) = true \/ busy (t + d)%nat = false ->
  exists fuel t1, PBFInputFormat.wait sch busy fuel t = Some t1.
Proof.
  induction d as [|d IH]; intros t H.
  - exists 1%nat, (S t). simpl. rewrite Nat.add_0_r in H.
    destruct H as [-> | ->]; [done |]. by rewrite andb_false_r.
  - destruct (negb (PBFInputFormat.done_at sch t) && busy t) eqn:E.
    + destruct (IH (S t)) as (fuel & t1 & Hw).
      { by replace (S t + d)%nat with (t + S d)%nat by lia. }
      exists (S fuel), t1. simpl. by rewrite E.
    + exists 1%nat, (S t). simpl. by rewrite E.
Qed.

(** A wait for a queue that stays busy while [m_done] stays unset never
    ends. *)
Lemma wait_never sch busy : forall fuel t,
  (forall t', (t <= t')%nat ->
     PBFInputFormat.done_at sch t' = false /\ busy t' = true) ->
  PBFInputFormat.wait sch busy fuel t = None.
Proof.
  induction fuel as [|fuel IH]; intros t H; [done |].
  simpl. destruct (H t ltac:(lia)) as [-> ->]. simpl.
  apply IH. intros t' Ht'. apply H. lia.
Qed.

Lemma parse_osm_data_more_fuel sch rt : forall fuel n r q t res,
  PBFInputFormat.parse_osm_data NDEBUG ParseBlobHeader ParseBlob
    zlib_uncompress ParsePrimitiveBlock sch fuel rt n r q t = Some res ->
  forall fuel', (fuel <= fuel')%nat ->
    PBFInputFormat.parse_osm_data NDEBUG ParseBlobHeader ParseBlob
      zlib_uncompress ParsePrimitiveBlock sch fuel' rt n r q t = Some res.
Proof.
  induction fuel as [|fuel IH]; intros n r q t res H fuel' Hle; [done |].
  destruct fuel' as [|fuel']; [lia |].
  cbn [PBFInputFormat.parse_osm_data] in *.
  destruct (PBFInputFormat.read_blob_header ParseBlobHeader "OSMData" r)
    as [[size| | |] r1]; try done.
  destruct (size =? 0); [done |].
  destruct (DataBlobParser.new size n r1) as [[bp| | |] r2]; try done.
  cbv zeta in *.
  destruct (PBFInputFormat.wait sch _ fuel t) as [t1|] eqn:W1; [|done].
  rewrite (wait_more_fuel _ _ _ _ _ W1 fuel') by lia.
  destruct (PBFInputFormat.wait sch _ fuel t1) as [t2|] eqn:W2; [|done].
  rewrite (wait_more_fuel _ _ _ _ _ W2 fuel') by lia.
  destruct (PBFInputFormat.done_at sch t2); [done |].
  apply (IH _ _ _ _ _ H). lia.
Qed.

(** Every round of the loop of [parse_osm_data] that is followed by
    another one takes at least four bytes from the input, and its waits
    end when the other threads let them. *)
Lemma parse_osm_data_ends sch rt :
  waits_end sch ->
  forall k n r q t, (remaining r <= k)%nat ->
  exists res fuel,
    PBFInputFormat.parse_osm_data NDEBUG ParseBlobHeader ParseBlob
      zlib_uncompress ParsePrimitiveBlock sch fuel rt n r q t = Some res.
Proof.
  intros [Hwork Hbacklog].
  induction k as [k IH] using lt_wf_ind. intros n r q t Hk.
  destruct (PBFInputFormat.read_blob_header ParseBlobHeader "OSMData" r)
    as [res r1] eqn:Hh.
  pose proof (read_blob_header_remaining _ _ _ _ Hh) as [Hle H4].
  destruct res as [size| | |];
    try (eexists _, 1%nat; cbn [PBFInputFormat.parse_osm_data];
         by rewrite Hh).
  destruct (size =? 0) eqn:Hz.
  { eexists _, 1%nat. cbn [PBFInputFormat.parse_osm_data].
    by rewrite Hh, Hz. }
  specialize (H4 size eq_refl ltac:(lia)).
  destruct (DataBlobParser.new size n r1) as [res r2] eqn:Hn.
  pose proof Hn as Hrem. unfold DataBlobParser.new in Hrem.
  apply BlobParser_new_remaining in Hrem.
  destruct res as [bp| | |];
    try (eexists _, 1%nat; cbn [PBFInputFormat.parse_osm_data];
         by rewrite Hh, Hz, Hn).
  set (future := BlobParser.dispatch NDEBUG ParseBlob zlib_uncompress
                   (DataBlobParser.handle_blob NDEBUG ParsePrimitiveBlock rt)
                   bp).
  destruct (Hwork t) as (t' & Ht' & Hfree).
  destruct (wait_ends sch
              (fun t => (PBFInputFormat.m_max_work_queue_size
                         <=? PBFInputFormat.work_queue_size sch t)%nat)
              (t' - t) t) as (f1 & t1 & W1).
  { replace (t + (t' - t))%nat with t' by lia.
    destruct Hfree as [? | Hfree]; [by left | right].
    apply Nat.leb_gt. exact Hfree. }
  destruct (Hbacklog (length (q ++ [future])) t1) as (t'' & Ht'' & Hpop).
  destruct (wait_ends sch
              (fun t => (PBFInputFormat.m_max_buffer_queue_size
                         <? length (q ++ [future])
                            - PBFInputFormat.popped sch t)%nat)
              (t'' - t1) t1) as (f2 & t2 & W2).
  { replace (t1 + (t'' - t1))%nat with t'' by lia.
    destruct Hpop as [? | Hpop]; [by left | right].
    apply Nat.ltb_ge. exact Hpop. }
  destruct (PBFInputFormat.done_at sch t2) eqn:Hdone.
  - eexists _, (S (Nat.max f1 f2)).
    cbn [PBFInputFormat.parse_osm_data]. rewrite Hh, Hz, Hn. cbv zeta.
    fold future.
    rewrite (wait_more_fuel _ _ _ _ _ W1) by lia.
    rewrite (wait_more_fuel _ _ _ _ _ W2) by lia.
    by rewrite Hdone.
  - destruct (IH (remaining r2) ltac:(lia) (Int.wrap32 (n + 1)) r2
                (q ++ [future]) (S t2) ltac:(lia)) as (res & f3 & Hrec).
    exists res, (S (Nat.max f1 (Nat.max f2 f3))).
    cbn [PBFInputFormat.parse_osm_data]. rewrite Hh, Hz, Hn. cbv zeta.
    fold future.
    rewrite (wait_more_fuel _ _ _ _ _ W1) by lia.
    rewrite (wait_more_fuel _ _ _ _ _ W2) by lia.
    rewrite Hdone.
    apply (parse_osm_data_more_fuel _ _ _ _ _ _ _ _ Hrec). lia.
Qed.

(** X11: when fewer than four bytes are left before the end of the input,
    no bytes or one to three stray ones, [read_blob_header] reports the
    end of the input by returning 0 and throws nothing. *)
Theorem X11_fewer_than_four_bytes_is_end_of_input expected r :
  (length (pending r) < 4)%nat ->
  exists r',
    PBFInputFormat.read_blob_header ParseBlobHeader expected r = (Ok 0, r').
Proof.
  intros H. destruct (call_short r 4 H) as (r' & Hc & _).
  exists r'. unfold PBFInputFormat.read_blob_header. by rewrite Hc.
Qed.

Lemma read_blob_header_Ok expected r size r' :
  PBFInputFormat.read_blob_header ParseBlobHeader expected r = (Ok size, r') ->
  ((length (pending r) < 4)%nat /\ size = 0) \/
  ((4 <= length (pending r))%nat /\
   frame_size (pending r) <= max_blob_header_size /\
   (Z.to_nat (frame_size (pending r)) <= length (drop 4 (pending r)))%nat /\
   exists h,
     ParseBlobHeader (frame_header (pending r)) = Some h /\
     c_str (bh_type h) = c_str expected /\
     size = bh_datasize h /\
     pending r' = behind_header (pending r)).
Proof.
  unfold PBFInputFormat.read_blob_header. intros H.
  destruct (le_lt_dec 4 (length (pending r))) as [H4|H4].
  2:{ destruct (call_short r 4 H4) as (r1 & Hc & _). rewrite Hc in H.
      injection H as <- <-. by left. }
  right. split; [done |].
  destruct (call_enough r 4 H4) as (r1 & Hc & Hp1 & _). rewrite Hc in H.
  fold (frame_size (pending r)) in H.
  destruct (max_blob_header_size <? frame_size (pending r)) eqn:Hmax;
    [done |].
  apply Z.ltb_ge in Hmax. split; [done |].
  destruct (le_lt_dec (Z.to_nat (frame_size (pending r)))
              (length (pending r1))) as [Hh|Hh].
  2:{ destruct (call_short r1 _ Hh) as (r2 & Hc2 & _). rewrite Hc2 in H.
      discriminate H. }
  destruct (call_enough r1 _ Hh) as (r2 & Hc2 & Hp2 & _). rewrite Hc2 in H.
  rewrite Hp1 in H, Hh, Hc2, Hp2. split; [done |].
  fold (frame_header (pending r)) in H.
  destruct (ParseBlobHeader (frame_header (pending r))) as [h|]; [|done].
  exists h. split; [done |].
  unfold strcmp_differs in H.
  destruct (String.eqb _ _) eqn:Heq; simpl in H; [|done].
  apply String.eqb_eq in Heq. injection H as <- <-. done.
Qed.

(** X12: a blob header that [read_blob_header] returns a size other than
    0 for is one frame of the input: four bytes that give, most
    significant byte first, a length of at most 64 KiB, and that many
    bytes, which parse as a BlobHeader whose type is the expected one as
    a C string (up to its first NUL) and whose datasize is the size
    returned; the reader is left at the byte behind the header. *)
Theorem X12_read_blob_header_takes_one_frame expected r size r' :
  PBFInputFormat.read_blob_header ParseBlobHeader expected r = (Ok size, r') ->
  size <> 0 ->
  (4 <= length (pending r))%nat /\
  0 <= frame_size (pending r) <= max_blob_header_size /\
  length (frame_header (pending r)) = Z.to_nat (frame_size (pending r)) /\
  exists h,
    ParseBlobHeader (frame_header (pending r)) = Some h /\
    c_str (bh_type h) = c_str expected /\
    size = bh_datasize h /\
    pending r' = behind_header (pending r).
Proof.
  intros H Hne. apply read_blob_header_Ok in H as [[_ ->]|H]; [done |].
  destruct H as (H4 & Hmax & Hlen & Hh). split; [done |]. split.
  - split; [|done]. unfold frame_size. apply ntohl_bound.
  - split; [|done]. unfold frame_header. rewrite length_take. lia.
Qed.

Lemma read_blob_header_frame expected r h :
  (4 <= length (pending r))%nat ->
  frame_size (pending r) <= max_blob_header_size ->
  (Z.to_nat (frame_size (pending r)) <= length (drop 4 (pending r)))%nat ->
  ParseBlobHeader (frame_header (pending r)) = Some h ->
  c_str (bh_type h) = c_str expected ->
  exists r',
    PBFInputFormat.read_blob_header ParseBlobHeader expected r
    = (Ok (bh_datasize h), r') /\
    pending r' = behind_header (pending r).
Proof.
  intros H4 Hmax Hlen Hh Hty. unfold PBFInputFormat.read_blob_header.
  destruct (call_enough r 4 H4) as (r1 & Hc & Hp1 & _). rewrite Hc.
  fold (frame_size (pending r)).
  apply Z.ltb_ge in Hmax. rewrite Hmax.
  rewrite <- Hp1 in Hlen.
  destruct (call_enough r1 _ Hlen) as (r2 & Hc2 & Hp2 & _). rewrite Hc2.
  rewrite Hp1. fold (frame_header (pending r)). rewrite Hh.
  unfold strcmp_differs. rewrite Hty, String.eqb_refl. simpl.
  exists r2. split; [done |]. by rewrite Hp2, Hp1.
Qed.

(** X13: a blob parser built for a size between 0 and 32 MiB holds the
    next [size] bytes of the input and leaves the reader behind them; if
    the input ends before that many bytes the constructor throws the
    pbf_error "truncated data (EOF encountered)". *)
Theorem X13_BlobParser_takes_the_next_size_bytes size blob_num r :
  0 <= size <= max_uncompressed_blob_size ->
  ((Z.to_nat size <= length (pending r))%nat ->
   exists r',
     BlobParser.new size blob_num r
     = (Ok {| BlobParser.m_input_buffer := take (Z.to_nat size) (pending r);
              BlobParser.m_size := size;
              BlobParser.m_blob_num := blob_num |}, r') /\
     pending r' = drop (Z.to_nat size) (pending r)) /\
  ((length (pending r) < Z.to_nat size)%nat ->
   exists r',
     BlobParser.new size blob_num r
     = (Throw (pbf_error truncated_data_EOF_encountered), r')).
Proof.
  intros Hsize. unfold BlobParser.new, BlobParser.new_unsigned_char_array.
  assert ((size <? 0) = false) as -> by lia.
  assert ((max_uncompressed_blob_size <? size) = false) as -> by lia.
  simpl. split; intros H.
  - destruct (call_enough r _ H) as (r' & -> & Hp & _). eauto.
  - destruct (call_short r _ H) as (r' & -> & _). eauto.
Qed.

(** X14: the reader thread comes to an end on every input, provided the
    other threads let each of its waits end: a round that is followed by
    another one has taken at least four bytes from the input, so there
    are no more rounds than the input has bytes, and enough looks end
    every wait; the result is the same however many more rounds and looks
    are allowed. *)
Theorem X14_parse_osm_data_ends_when_its_waits_end sch rt n r q t :
  waits_end sch ->
  exists res fuel, forall fuel', (fuel <= fuel')%nat ->
    PBFInputFormat.parse_osm_data NDEBUG ParseBlobHeader ParseBlob
      zlib_uncompress ParsePrimitiveBlock sch fuel' rt n r q t = Some res.
Proof.
  intros Hw.
  destruct (parse_osm_data_ends sch rt Hw (remaining r) n r q t)
    as (res & fuel & Hres); [lia |].
  exists res, fuel. intros fuel' Hf.
  apply (parse_osm_data_more_fuel _ _ _ _ _ _ _ _ Hres). lia.
Qed.

(** X15: a data blob whose header declares datasize 0 is taken for the
    end of the input: the loop of the reader thread ends normally,
    whatever the other threads do, no further buffer is queued and
    whatever follows the header is left unread. *)
Theorem X15_data_blob_of_size_0_ends_the_data sch fuel rt n r q t h :
  (4 <= length (pending r))%nat ->
  frame_size (pending r) <= max_blob_header_size ->
  (Z.to_nat (frame_size (pending r)) <= length (drop 4 (pending r)))%nat ->
  ParseBlobHeader (frame_header (pending r)) = Some h ->
  c_str (bh_type h) = "OSMData"%string ->
  bh_datasize h = 0 ->
  exists r',
    PBFInputFormat.parse_osm_data NDEBUG ParseBlobHeader ParseBlob
      zlib_uncompress ParsePrimitiveBlock sch (S fuel) rt n r q t
    = Some (Ok PBFInputFormat.end_of_input, q, r') /\
    pending r' = behind_header (pending r).
Proof.
  intros H4 Hmax Hlen Hh Hty Hsz.
  destruct (read_blob_header_frame "OSMData" r h H4 Hmax Hlen Hh Hty)
    as (r' & Hr & Hp).
  exists r'. split; [|done].
  cbn [PBFInputFormat.parse_osm_data]. rewrite Hr, Hsz. done.
Qed.

(** X28: the reader thread can wait for ever: when it has read a data
    blob and from then on the work queue of the pool stays at its limit
    or above and nobody sets [m_done], [parse_osm_data] does not return,
    however much of the input is left. *)
Theorem X28_reader_thread_waits_while_the_pool_stays_full
    sch fuel rt n r q t size r1 bp r2 :
  pool_stays_full sch t ->
  PBFInputFormat.read_blob_header ParseBlobHeader "OSMData" r
  = (Ok size, r1) ->
  size <> 0 ->
  DataBlobParser.new size n r1 = (Ok bp, r2) ->
  PBFInputFormat.parse_osm_data NDEBUG ParseBlobHeader ParseBlob
    zlib_uncompress ParsePrimitiveBlock sch fuel rt n r q t = None.
Proof.
  intros Hfull Hh Hsize Hn. destruct fuel as [|fuel]; [done |].
  cbn [PBFInputFormat.parse_osm_data]. rewrite Hh.
  apply Z.eqb_neq in Hsize. rewrite Hsize, Hn. cbv zeta.
  rewrite wait_never; [done |]. intros t' Ht'.
  destruct (Hfull t' Ht') as [Hd Hq]. split; [done |].
  by apply Nat.leb_le.
Qed.

(** X29: once [m_done] is set, as the destructor does, the reader thread
    returns without waiting: at once if the input is at its end or the
    next blob cannot be read, else after having read and queued one more
    blob, through [if (m_done) return], however full the queues are and
    however much of the input is left. *)
Theorem X29_m_done_stops_the_reader_thread sch fuel rt n r q t :
  done_from sch t ->
  exists res q' r',
    PBFInputFormat.parse_osm_data NDEBUG ParseBlobHeader ParseBlob
      zlib_uncompress ParsePrimitiveBlock sch (S (S fuel)) rt n r q t
    = Some (res, q', r') /\
    (q' = q /\ res <> Ok PBFInputFormat.found_m_done \/
     exists future,
       q' = q ++ [future] /\ res = Ok PBFInputFormat.found_m_done).
Proof.
  intros Hdone. cbn [PBFInputFormat.parse_osm_data].
  destruct (PBFInputFormat.read_blob_header ParseBlobHeader "OSMData" r)
    as [[size| | |] r1]; try by (eexists _, _, _; split; [done | by left]).
  destruct (size =? 0); [by eexists _, _, _; split; [done | by left] |].
  destruct (DataBlobParser.new size n r1) as [[bp| | |] r2];
    try by (eexists _, _, _; split; [done | by left]).
  cbv zeta. cbn [PBFInputFormat.wait].
  rewrite (Hdone t) by lia. cbn [negb andb PBFInputFormat.wait].
  rewrite (Hdone (S t)) by lia. cbn [negb andb].
  rewrite (Hdone (S (S t))) by lia.
  eexists _, _, _. split; [done |]. right. by eexists.
Qed.

End FramingMore.

Lemma prompt_waits_end : waits_end Sample.prompt.
Proof.
  split.
  - intros t. exists t. split; [lia |]. right. simpl.
    unfold PBFInputFormat.m_max_work_queue_size. lia.
  - intros pushed t. exists (Nat.max t pushed). split; [lia |]. right. simpl.
    unfold PBFInputFormat.m_max_buffer_queue_size. lia.
Defined.

Lemma X11_witness :
  (length (pending (InputQueueReader.of_queue Sample.two_bytes)) < 4)%nat /\
  exists r',
    PBFInputFormat.read_blob_header Sample.ParseBlobHeader "OSMData"
      (InputQueueReader.of_queue Sample.two_bytes) = (Ok 0, r').
Proof.
  split; [vm_compute; lia |].
  apply (X11_fewer_than_four_bytes_is_end_of_input Sample.ParseBlobHeader
           "OSMData" (InputQueueReader.of_queue Sample.two_bytes)).
  vm_compute. lia.
Defined.

Lemma X12_witness :
  exists size r',
    PBFInputFormat.read_blob_header Sample.ParseBlobHeader "OSMHeader"
      (InputQueueReader.of_queue Sample.negative_datasize_input)
    = (Ok size, r') /\
    size = -1 /\
    frame_size
      (pending (InputQueueReader.of_queue Sample.negative_datasize_input))
    = 22 /\
    exists h,
      Sample.ParseBlobHeader
        (frame_header
           (pending
              (InputQueueReader.of_queue Sample.negative_datasize_input)))
      = Some h /\
      c_str (OSMPBF.bh_type h) = c_str "OSMHeader" /\
      size = OSMPBF.bh_datasize h /\
      pending r'
      = behind_header
          (pending
             (InputQueueReader.of_queue Sample.negative_datasize_input)).
Proof.
  eexists _, _. split; [reflexivity |]. split; [reflexivity |].
  split; [reflexivity |].
  apply (X12_read_blob_header_takes_one_frame Sample.ParseBlobHeader
           "OSMHeader"
           (InputQueueReader.of_queue Sample.negative_datasize_input)
           (-1) _ eq_refl).
  done.
Defined.

Lemma X13_witness :
  0 <= 2 <= OSMPBF.max_uncompressed_blob_size /\
  exists r',
    BlobParser.new 2 0 (InputQueueReader.of_queue Sample.five_bytes)
    = (Ok {| BlobParser.m_input_buffer := [Byte.x01; Byte.x02];
             BlobParser.m_size := 2; BlobParser.m_blob_num := 0 |}, r') /\
    pending r' = [Byte.x03; Byte.x04; Byte.x05].
Proof.
  split; [vm_compute; by split |].
  apply (X13_BlobParser_takes_the_next_size_bytes 2 0
           (InputQueueReader.of_queue Sample.five_bytes)).
  - vm_compute. by split.
  - vm_compute. lia.
Defined.

Lemma X14_witness :
  waits_end Sample.prompt /\
  (exists r',
     PBFInputFormat.parse_osm_data false Sample.ParseTwoByteHeader
       Sample.ParseBlob Sample.zlib_uncompress (fun _ => None)
       Sample.prompt 3 osmium.all 0
       (InputQueueReader.of_queue Sample.one_blob_input) [] 0
     = Some (Ok PBFInputFormat.end_of_input,
             [Throw (pbf_error failed_to_parse_blob)], r')) /\
  exists res fuel, forall fuel', (fuel <= fuel')%nat ->
    PBFInputFormat.parse_osm_data false Sample.ParseTwoByteHeader
      Sample.ParseBlob Sample.zlib_uncompress (fun _ => None)
      Sample.prompt fuel' osmium.all 0
      (InputQueueReader.of_queue Sample.one_blob_input) [] 0
    = Some res.
Proof.
  split; [exact prompt_waits_end |]. split; [by eexists |].
  apply (X14_parse_osm_data_ends_when_its_waits_end false
           Sample.ParseTwoByteHeader Sample.ParseBlob
           Sample.zlib_uncompress (fun _ => None) Sample.prompt osmium.all
           0 (InputQueueReader.of_queue Sample.one_blob_input) [] 0).
  exact prompt_waits_end.
Defined.

Lemma X15_witness :
  exists r',
    PBFInputFormat.parse_osm_data false Sample.ParseDataHeader
      Sample.ParseBlob Sample.zlib_uncompress (fun _ => None)
      Sample.full_pool 1 osmium.all 0
      (InputQueueReader.of_queue Sample.zero_datasize_input) [] 0
    = Some (Ok PBFInputFormat.end_of_input, [], r') /\
    pending r' = [Byte.x0a; Byte.x0b].
Proof.
  apply (X15_data_blob_of_size_0_ends_the_data false Sample.ParseDataHeader
           Sample.ParseBlob Sample.zlib_uncompress (fun _ => None)
           Sample.full_pool 0 osmium.all 0
           (InputQueueReader.of_queue Sample.zero_datasize_input) [] 0
           {| OSMPBF.bh_type := "OSMData"; OSMPBF.bh_datasize := 0 |}).
  - vm_compute. lia.
  - vm_compute. discriminate.
  - vm_compute. lia.
  - reflexivity.
  - reflexivity.
  - reflexivity.
Defined.

Lemma X28_witness :
  pool_stays_full Sample.full_pool 0 /\
  PBFInputFormat.parse_osm_data false Sample.ParseTwoByteHeader
    Sample.ParseBlob Sample.zlib_uncompress (fun _ => None)
    Sample.full_pool 1000 osmium.all 0
    (InputQueueReader.of_queue Sample.one_blob_input) [] 0
  = None.
Proof.
  assert (pool_stays_full Sample.full_pool 0) as Hfull.
  { intros t' _. split; [reflexivity |]. simpl.
    unfold PBFInputFormat.m_max_work_queue_size. lia. }
  split; [exact Hfull |].
  apply (X28_reader_thread_waits_while_the_pool_stays_full false
           Sample.ParseTwoByteHeader Sample.ParseBlob
           Sample.zlib_uncompress (fun _ => None) Sample.full_pool 1000
           osmium.all 0 (InputQueueReader.of_queue Sample.one_blob_input)
           [] 0 2
           {| InputQueueReader.m_queue := [[]];
              InputQueueReader.m_buffer := [Byte.x0a; Byte.x0b] |}
           {| BlobParser.m_input_buffer := [Byte.x0a; Byte.x0b];
              BlobParser.m_size := 2; BlobParser.m_blob_num := 0 |}
           {| InputQueueReader.m_queue := [[]];
              InputQueueReader.m_buffer := [] |}).
  - exact Hfull.
  - reflexivity.
  - discriminate.
  - reflexivity.
Defined.

Lemma X29_witness :
  done_from Sample.destroyed 0 /\
  (exists r',
     PBFInputFormat.parse_osm_data false Sample.ParseTwoByteHeader
       Sample.ParseBlob Sample.zlib_uncompress (fun _ => None)
       Sample.destroyed 2 osmium.all 0
       (InputQueueReader.of_queue Sample.one_blob_input) [] 0
     = Some (Ok PBFInputFormat.found_m_done,
             [Throw (pbf_error failed_to_parse_blob)], r')) /\
  exists res q' r',
    PBFInputFormat.parse_osm_data false Sample.ParseTwoByteHeader
      Sample.ParseBlob Sample.zlib_uncompress (fun _ => None)
      Sample.destroyed 2 osmium.all 0
      (InputQueueReader.of_queue Sample.one_blob_input) [] 0
    = Some (res, q', r') /\
    (q' = [] /\ res <> Ok PBFInputFormat.found_m_done \/
     exists future,
       q' = [] ++ [future] /\ res = Ok PBFInputFormat.found_m_done).
Proof.
  assert (done_from Sample.destroyed 0) as Hdone by (intros t' _; reflexivity).
  split; [exact Hdone |]. split; [by eexists |].
  apply (X29_m_done_stops_the_reader_thread false Sample.ParseTwoByteHeader
           Sample.ParseBlob Sample.zlib_uncompress (fun _ => None)
           Sample.destroyed 0 osmium.all 0
           (InputQueueReader.of_queue Sample.one_blob_input) [] 0).
  exact Hdone.
Defined.

(** ** More on the header blob *)

Lemma to_int_not_nil z :
  Z.to_int z <> Decimal.Pos Decimal.Nil /\
  Z.to_int z <> Decimal.Neg Decimal.Nil.
Proof.
  destruct z as [|p|p]; simpl; split; try discriminate;
    intros [= H]; by apply DecimalPos.Unsigned.to_uint_nonnil in H.
Qed.

(** [std::to_string] gives different integers different strings. *)
Lemma to_string_inj a b : to_string a = to_string b -> a = b.
Proof.
  unfold to_string. intros H. apply DecimalZ.to_int_inj.
  destruct (to_int_not_nil a) as [Ha1 Ha2].
  destruct (to_int_not_nil b) as [Hb1 Hb2].
  pose proof (NilZero.isi _ Ha1 Ha2) as Ia.
  pose proof (NilZero.isi _ Hb1 Hb2) as Ib.
  rewrite H in Ia. rewrite Ia in Ib. by injection Ib.
Qed.

Lemma append_inj_l s a b : (s +:+ a)%string = (s +:+ b)%string -> a = b.
Proof. induction s as [|c s IH]; simpl; [done |]. intros [= H]. auto. Qed.

Lemma optional_feature_key_inj i j :
  optional_feature_key i = optional_feature_key j -> i = j.
Proof.
  unfold optional_feature_key. intros H.
  apply append_inj_l, to_string_inj in H. lia.
Qed.

Section HeaderFacts.

Import OSMPBF.

Variable ParseHeaderBlock : list Byte.byte -> option HeaderBlock.
Variable to_iso : Z -> string.

Lemma required_loop_fold features h :
  for_loop 0 (length features)
    (fun i h =>
       let* feature := get features i in
       if String.eqb feature "OsmSchema-V0.6" then Ok h
       else if String.eqb feature "DenseNodes"
       then Ok (Header.set h "pbf_dense_nodes" "true")
       else if String.eqb feature "HistoricalInformation"
       then Ok (Header.set_has_multiple_object_versions h true)
       else Throw (pbf_error (required_feature_not_supported feature)))
    h
  = fold_outcome required_feature features h.
Proof. apply (for_loop_fold required_feature features []). Qed.

(** The loop over the required features stops at the first one that is
    not known. *)
Lemma required_fold_result features : forall h,
  match find (fun f => negb (supported_feature f)) features with
  | Some f =>
      fold_outcome required_feature features h
      = Throw (pbf_error (required_feature_not_supported f))
  | None =>
      exists h', fold_outcome required_feature features h = Ok h' /\
        required_done features h h'
  end.
Proof.
  induction features as [|f features IH]; intros h.
  - simpl. exists h. split; [done |]. unfold required_done.
    split; [done |]. split; [|split].
    + split; [by left |]. intros [? | ?%elem_of_nil]; done.
    + by intros ?%elem_of_nil.
    + done.
  - cbn [find fold_outcome]. unfold supported_feature.
    destruct (String.eqb f "OsmSchema-V0.6") eqn:E1; cbn [negb orb].
    { assert (required_feature f h = Ok h) as ->
        by (unfold required_feature; by rewrite E1).
      cbn [bind]. apply String.eqb_eq in E1. subst f.
      specialize (IH h). destruct (find _ features); [done |].
      destruct IH as (h' & -> & Hb & Hf & Hd & Hnd). exists h'.
      split; [done |]. split; [done |]. split; [|split].
      - rewrite Hf, elem_of_cons. intuition discriminate.
      - rewrite elem_of_cons. intros [? | ?]; [done | auto].
      - rewrite not_elem_of_cons. intros [_ ?]. auto. }
    destruct (String.eqb f "DenseNodes") eqn:E2; cbn [negb orb].
    { assert (required_feature f h
              = Ok (Header.set h "pbf_dense_nodes" "true")) as ->
        by (unfold required_feature; by rewrite E1, E2).
      cbn [bind]. apply String.eqb_eq in E2. subst f.
      specialize (IH (Header.set h "pbf_dense_nodes" "true")).
      destruct (find _ features); [done |].
      destruct IH as (h' & -> & Hb & Hf & Hd & Hnd). exists h'.
      split; [done |]. split; [done |]. split; [|split].
      - rewrite Hf, elem_of_cons. simpl. intuition discriminate.
      - intros _.
        destruct (decide ("DenseNodes"%string ∈ features)) as [Hin|Hin].
        + rewrite (Hd Hin). simpl. by rewrite insert_insert_eq.
        + by rewrite (Hnd Hin).
      - rewrite not_elem_of_cons. by intros [? _]. }
    destruct (String.eqb f "HistoricalInformation") eqn:E3; cbn [negb orb].
    2:{ unfold required_feature. by rewrite E1, E2, E3. }
    assert (required_feature f h
            = Ok (Header.set_has_multiple_object_versions h true)) as ->
      by (unfold required_feature; by rewrite E1, E2, E3).
    cbn [bind]. apply String.eqb_eq in E3. subst f.
    specialize (IH (Header.set_has_multiple_object_versions h true)).
    destruct (find _ features); [done |].
    destruct IH as (h' & -> & Hb & Hf & Hd & Hnd). exists h'.
    split; [done |]. split; [done |]. split; [|split].
    + rewrite Hf, elem_of_cons. simpl. intuition discriminate.
    + rewrite elem_of_cons. intros [? | ?]; [done | auto].
    + rewrite not_elem_of_cons. intros [_ ?]. auto.
Qed.

(** The loop over the optional features always returns. *)
Lemma optional_loop features h :
  exists h',
    for_loop 0 (length features)
      (fun i h =>
         let* feature := get features i in
         Ok (Header.set h ("pbf_optional_feature_" +:+ to_string (Z.of_nat i))
               feature))
      h = Ok h' /\
    Header.boxes h' = Header.boxes h /\
    Header.has_multiple_object_versions h'
      = Header.has_multiple_object_versions h /\
    (forall i f, features !! i = Some f ->
       Header.options h' !! optional_feature_key i = Some f) /\
    (forall key, (forall i, key <> optional_feature_key i) ->
       Header.options h' !! key = Header.options h !! key).
Proof.
  destruct (for_loop_total
    (fun n h' =>
       Header.boxes h' = Header.boxes h /\
       Header.has_multiple_object_versions h'
         = Header.has_multiple_object_versions h /\
       (forall i f, (i < n)%nat -> features !! i = Some f ->
          Header.options h' !! optional_feature_key i = Some f) /\
       (forall key, (forall i, key <> optional_feature_key i) ->
          Header.options h' !! key = Header.options h !! key))
    (fun i h =>
       let* feature := get features i in
       Ok (Header.set h ("pbf_optional_feature_" +:+ to_string (Z.of_nat i))
             feature))
    (length features) 0%nat h) as (h' & Hrun & Hb & Hf & Hk & Ho).
  - split; [done |]. split; [done |]. split; [|done]. intros i f Hi. lia.
  - intros i st Hi (Hb & Hf & Hk & Ho).
    destruct (lookup_lt_is_Some_2 features i ltac:(lia)) as [f Hfi].
    rewrite (get_lookup _ _ _ Hfi). simpl. eexists. split; [done |].
    split; [done |]. split; [done |]. simpl. split.
    + intros j f' Hj Hf'. destruct (decide (j = i)) as [->|Hne].
      * rewrite Hfi in Hf'. injection Hf' as <-.
        apply lookup_insert_eq.
      * rewrite lookup_insert_ne.
        -- apply Hk; [lia | done].
        -- intros Heq. apply optional_feature_key_inj in Heq. lia.
    + intros key Hkey. rewrite lookup_insert_ne; [by apply Ho |].
      intros Heq. by apply (Hkey i).
  - exists h'. split; [done |]. split; [done |]. split; [done |].
    split; [|done]. intros i f Hi. apply Hk; [|done].
    by apply lookup_lt_Some in Hi.
Qed.

(** A header block that parses and is accepted: the two loops, then the
    fields. *)
Lemma handle_blob_Ok h data hb h' :
  ParseHeaderBlock data = Some hb ->
  HeaderBlobParser.handle_blob ParseHeaderBlock to_iso h data = Ok h' ->
  exists h1 h2,
    required_done (required_features hb) h h1 /\
    Header.boxes h2 = Header.boxes h1 /\
    Header.has_multiple_object_versions h2
      = Header.has_multiple_object_versions h1 /\
    (forall i f, optional_features hb !! i = Some f ->
       Header.options h2 !! optional_feature_key i = Some f) /\
    (forall key, (forall i, key <> optional_feature_key i) ->
       Header.options h2 !! key = Header.options h1 !! key) /\
    Header.has_multiple_object_versions h'
      = Header.has_multiple_object_versions h2 /\
    (forall key,
       key <> "generator"%string ->
       key <> "osmosis_replication_timestamp"%string ->
       key <> "osmosis_replication_sequence_number"%string ->
       key <> "osmosis_replication_base_url"%string ->
       Header.options h' !! key = Header.options h2 !! key).
Proof.
  intros HP H. unfold HeaderBlobParser.handle_blob in H. rewrite HP in H.
  inv_bind_as H h1 H1. inv_bind_as H h2 H2.
  rewrite required_loop_fold in H1.
  pose proof (required_fold_result (required_features hb) h) as Hreq.
  destruct (find _ _); [by rewrite Hreq in H1 |].
  destruct Hreq as (h1' & Hh1 & Hdone). rewrite Hh1 in H1.
  injection H1 as ->.
  destruct (optional_loop (optional_features hb) h1)
    as (h2' & Hh2 & Hb2 & Hf2 & Hk2 & Ho2).
  rewrite Hh2 in H2. injection H2 as ->.
  exists h1, h2. split; [done |]. split; [done |]. split; [done |].
  split; [done |]. split; [done |].
  injection H as <-.
  split.
  - by destruct (writingprogram hb), (hb_bbox hb),
      (osmosis_replication_timestamp hb),
      (osmosis_replication_sequence_number hb),
      (osmosis_replication_base_url hb).
  - intros key K1 K2 K3 K4.
    destruct (writingprogram hb), (hb_bbox hb),
      (osmosis_replication_timestamp hb),
      (osmosis_replication_sequence_number hb),
      (osmosis_replication_base_url hb); simpl;
      by rewrite ?lookup_insert_ne by done.
Qed.

(** X16: a header block is accepted exactly when every required feature
    is one of OsmSchema-V0.6, DenseNodes and HistoricalInformation;
    otherwise [handle_blob] throws the pbf_error "required feature not
    supported" naming the first required feature that is none of the
    three. *)
Theorem X16_unknown_required_feature_is_refused h data hb :
  ParseHeaderBlock data = Some hb ->
  match find (fun f => negb (supported_feature f)) (required_features hb) with
  | Some f =>
      HeaderBlobParser.handle_blob ParseHeaderBlock to_iso h data
      = Throw (pbf_error (required_feature_not_supported f))
  | None =>
      exists h',
        HeaderBlobParser.handle_blob ParseHeaderBlock to_iso h data = Ok h'
  end.
Proof.
  intros HP. unfold HeaderBlobParser.handle_blob. rewrite HP.
  rewrite required_loop_fold.
  pose proof (required_fold_result (required_features hb) h) as Hreq.
  destruct (find _ _); [by rewrite Hreq |].
  destruct Hreq as (h1 & -> & _). cbn [bind].
  destruct (optional_loop (optional_features hb) h1) as (h2 & -> & _).
  cbn [bind]. eauto.
Qed.

(** X17: in the header of an accepted header block,
    has_multiple_object_versions is set exactly when it was set before or
    HistoricalInformation is among the required features, and the option
    pbf_dense_nodes is "true" when DenseNodes is among them and as before
    when it is not; no other field of the block touches either. *)
Theorem X17_required_features_set_the_header h data hb h' :
  ParseHeaderBlock data = Some hb ->
  HeaderBlobParser.handle_blob ParseHeaderBlock to_iso h data = Ok h' ->
  (Header.has_multiple_object_versions h' = true <->
   Header.has_multiple_object_versions h = true \/
   "HistoricalInformation"%string ∈ required_features hb) /\
  ("DenseNodes"%string ∈ required_features hb ->
   Header.options h' !! "pbf_dense_nodes"%string = Some "true"%string) /\
  ("DenseNodes"%string ∉ required_features hb ->
   Header.options h' !! "pbf_dense_nodes"%string
   = Header.options h !! "pbf_dense_nodes"%string).
Proof.
  intros HP H.
  destruct (handle_blob_Ok h data hb h' HP H)
    as (h1 & h2 & (_ & Hf1 & Hd & Hnd) & _ & Hf2 & _ & Ho2 & Hf' & Ho').
  split; [by rewrite Hf', Hf2 |].
  assert (Header.options h' !! "pbf_dense_nodes"%string
          = Header.options h1 !! "pbf_dense_nodes"%string) as ->.
  { rewrite Ho' by done. apply Ho2. intros i.
    unfold optional_feature_key. simpl. discriminate. }
  split; intros Hin.
  - rewrite (Hd Hin). apply lookup_insert_eq.
  - by rewrite (Hnd Hin).
Qed.

(** X18: the optional features of an accepted header block are kept by
    position: feature number i is the option stored under the key
    pbf_optional_feature_ followed by i in decimal, and nothing that the
    parser stores afterwards overwrites it. *)
Theorem X18_optional_features_are_kept_by_position h data hb h' :
  ParseHeaderBlock data = Some hb ->
  HeaderBlobParser.handle_blob ParseHeaderBlock to_iso h data = Ok h' ->
  forall i feature,
    optional_features hb !! i = Some feature ->
    Header.options h'
      !! ("pbf_optional_feature_" +:+ to_string (Z.of_nat i))%string
    = Some feature.
Proof.
  intros HP H i feature Hi.
  destruct (handle_blob_Ok h data hb h' HP H)
    as (h1 & h2 & _ & _ & _ & Hk2 & _ & _ & Ho').
  rewrite Ho'; try (simpl; discriminate).
  by apply Hk2.
Qed.

End HeaderFacts.

Lemma X16_witness :
  exists h',
    HeaderBlobParser.handle_blob Sample.ParseSampleHeaderBlock Sample.to_iso
      Header.empty [] = Ok h'.
Proof.
  apply (X16_unknown_required_feature_is_refused
           Sample.ParseSampleHeaderBlock Sample.to_iso Header.empty []
           Sample.header_block eq_refl).
Defined.

Lemma X17_witness :
  exists h',
    HeaderBlobParser.handle_blob Sample.ParseSampleHeaderBlock Sample.to_iso
      Header.empty [] = Ok h' /\
    (Header.has_multiple_object_versions h' = true <->
     Header.has_multiple_object_versions Header.empty = true \/
     "HistoricalInformation"%string
       ∈ OSMPBF.required_features Sample.header_block) /\
    ("DenseNodes"%string ∈ OSMPBF.required_features Sample.header_block ->
     Header.options h' !! "pbf_dense_nodes"%string = Some "true"%string) /\
    ("DenseNodes"%string ∉ OSMPBF.required_features Sample.header_block ->
     Header.options h' !! "pbf_dense_nodes"%string
     = Header.options Header.empty !! "pbf_dense_nodes"%string).
Proof.
  eexists. split; [reflexivity |].
  apply (X17_required_features_set_the_header
           Sample.ParseSampleHeaderBlock Sample.to_iso Header.empty []
           Sample.header_block _ eq_refl eq_refl).
Defined.

Lemma X18_witness :
  exists h',
    HeaderBlobParser.handle_blob Sample.ParseSampleHeaderBlock Sample.to_iso
      Header.empty [] = Ok h' /\
    forall i feature,
      OSMPBF.optional_features Sample.header_block !! i = Some feature ->
      Header.options h'
        !! ("pbf_optional_feature_" +:+ to_string (Z.of_nat i))%string
      = Some feature.
Proof.
  eexists. split; [reflexivity |].
  apply (X18_optional_features_are_kept_by_position
           Sample.ParseSampleHeaderBlock Sample.to_iso Header.empty []
           Sample.header_block _ eq_refl eq_refl).
Defined.

(** ** More on the relation collector *)

Section CollectorMore.

Import osmium relations relations.Collector.

Variable NDEBUG : bool.
Variables TNodes TWays TRelations : bool.
Variable purge_deleted :
  Buffer.t Entity -> Buffer.t Entity * list (nat * nat).

Lemma insert_sorted_Permutation m l : Sample.insert_sorted m l ≡ₚ m :: l.
Proof.
  induction l as [|a l IH]; simpl; [done |].
  destruct (member_id m <? member_id a); [done |].
  rewrite IH. apply Permutation_swap.
Qed.

Lemma insert_sorted_sorted m l :
  sorted_by_id l -> sorted_by_id (Sample.insert_sorted m l).
Proof.
  unfold sorted_by_id. induction 1 as [|a l Hl IH Ha]; simpl.
  - repeat constructor.
  - destruct (member_id m <? member_id a) eqn:E.
    + apply Z.ltb_lt in E. constructor; [by constructor |].
      constructor; [lia |].
      eapply Forall_impl; [exact Ha |]. simpl. intros b Hb. lia.
    + apply Z.ltb_ge in E. constructor; [done |].
      rewrite insert_sorted_Permutation. by constructor.
Qed.

Lemma sort_acc l : forall acc,
  sorted_by_id acc ->
  sorted_by_id (fold_left (fun acc m => Sample.insert_sorted m acc) l acc) /\
  fold_left (fun acc m => Sample.insert_sorted m acc) l acc ≡ₚ l ++ acc.
Proof.
  induction l as [|m l IH]; intros acc Hacc; simpl; [done |].
  destruct (IH (Sample.insert_sorted m acc)) as [Hs Hp];
    [by apply insert_sorted_sorted |].
  split; [done |]. rewrite Hp, insert_sorted_Permutation.
  by rewrite Permutation_middle.
Qed.

(** The insertion sort is a [std::sort]. *)
Lemma insertion_sort_sorts : sorts Sample.insertion_sort.
Proof.
  intros l. unfold Sample.insertion_sort.
  destruct (sort_acc l []) as [Hs Hp]; [constructor |].
  split; [done |]. by rewrite Hp, app_nil_r.
Defined.

(** [std::partition_point] on a vector that [P] partitions. *)
Lemma partition_point_spec {A} (P : A -> bool) (l : list A) :
  (forall i j a b, (i <= j)%nat -> l !! i = Some a -> l !! j = Some b ->
     P b = true -> P a = true) ->
  (partition_point P l <= length l)%nat /\
  forall k a, l !! k = Some a ->
    ((k < partition_point P l)%nat <-> P a = true).
Proof.
  induction l as [|x l IH]; intros Hmono; simpl.
  - split; [done |]. intros k a Hk. done.
  - destruct (P x) eqn:Hx.
    + destruct IH as [Hle Hk].
      { intros i j a b Hij Ha Hb.
        apply (Hmono (S i) (S j)); [lia | done | done]. }
      split; [lia |]. intros [|k] a Ha; simpl in Ha.
      * injection Ha as <-. split; [done | lia].
      * rewrite <- (Hk k a Ha). lia.
    + split; [lia |]. intros k a Ha. split; [lia |]. intros Hpa.
      rewrite (Hmono 0%nat k x a) in Hx; [done | lia | done | done | done].
Qed.

Lemma sorted_by_id_lookup l : forall i j a b,
  sorted_by_id l -> (i <= j)%nat -> l !! i = Some a -> l !! j = Some b ->
  member_id a <= member_id b.
Proof.
  unfold sorted_by_id. intros i j a b Hs. revert i j.
  induction Hs as [|x l Hl IH Hx]; intros i j Hij Ha Hb; [done |].
  destruct i as [|i], j as [|j]; simpl in *; try lia.
  - injection Ha as <-. injection Hb as <-. lia.
  - injection Ha as <-. rewrite Forall_lookup in Hx. by apply (Hx j).
  - apply (IH i j); [lia | done | done].
Qed.

(** [std::equal_range] on a sorted member vector: the range holds the
    entries of the id looked for and no others. *)
Lemma equal_range_spec mmv i :
  sorted_by_id mmv ->
  (fst (equal_range mmv i) <= snd (equal_range mmv i) <= length mmv)%nat /\
  forall k m, mmv !! k = Some m ->
    ((fst (equal_range mmv i) <= k < snd (equal_range mmv i))%nat <->
     member_id m = i).
Proof.
  intros Hs. unfold equal_range. simpl.
  destruct (partition_point_spec (fun m => member_id m <? i) mmv)
    as [Hlo Hklo].
  { intros n j a b Hij Ha Hb Hpb. apply Z.ltb_lt in Hpb. apply Z.ltb_lt.
    pose proof (sorted_by_id_lookup mmv n j a b Hs Hij Ha Hb). lia. }
  destruct (partition_point_spec (fun m => member_id m <=? i) mmv)
    as [Hhi Hkhi].
  { intros n j a b Hij Ha Hb Hpb. apply Z.leb_le in Hpb. apply Z.leb_le.
    pose proof (sorted_by_id_lookup mmv n j a b Hs Hij Ha Hb). lia. }
  assert (Hk : forall k m, mmv !! k = Some m ->
    ((partition_point (fun m => (member_id m <? i)%Z) mmv <= k
      < partition_point (fun m => (member_id m <=? i)%Z) mmv)%nat <->
     member_id m = i)).
  { intros k m Hm. specialize (Hklo k m Hm). specialize (Hkhi k m Hm).
    simpl in *. rewrite Z.ltb_lt in Hklo. rewrite Z.leb_le in Hkhi. lia. }
  split; [|done]. split; [|done].
  destruct (le_lt_dec (partition_point (fun m => member_id m <? i) mmv)
              (partition_point (fun m => member_id m <=? i) mmv))
    as [Hle|Hlt]; [done |].
  destruct (lookup_lt_is_Some_2 mmv
              (partition_point (fun m => member_id m <=? i) mmv))
    as [m Hm]; [lia |].
  specialize (Hklo _ m Hm). specialize (Hkhi _ m Hm). simpl in *.
  rewrite Z.ltb_lt in Hklo. rewrite Z.leb_le in Hkhi. lia.
Qed.

Lemma equal_range_empty mmv i :
  sorted_by_id mmv ->
  (fst (equal_range mmv i) = snd (equal_range mmv i) <->
   forall m, m ∈ mmv -> member_id m <> i).
Proof.
  intros Hs. destruct (equal_range_spec mmv i Hs) as [Hle Hk]. split.
  - intros Heq m Hm Hid. apply list_elem_of_lookup in Hm as [k Hm].
    apply (Hk k m Hm) in Hid. lia.
  - intros Hno.
    destruct (decide (fst (equal_range mmv i) = snd (equal_range mmv i)))
      as [|Hne]; [done |].
    destruct (lookup_lt_is_Some_2 mmv (fst (equal_range mmv i)))
      as [m Hm]; [lia |].
    destruct (Hno m); [by eapply list_elem_of_lookup_2 |].
    apply (Hk _ m Hm). lia.
Qed.

Lemma vector_of_set_vector v ty l ty' :
  vector_of (set_vector v ty l) ty'
  = if decide (ty' = ty) then l else vector_of v ty'.
Proof. by destruct ty, ty'. Qed.

(** *** The first pass *)

(** X19: [read_relations] leaves each of the three member vectors in the
    order of the member ids, holding the entries that the first pass has
    collected, in whatever order [std::sort] leaves the entries of equal
    ids; so [std::equal_range] finds, for every id, the entries of that id
    and no others. *)
Theorem X19_read_relations_sorts_the_index
    keep_relation keep_member std_sort source c c' :
  sorts std_sort ->
  read_relations NDEBUG keep_relation keep_member std_sort source c
  = Ok c' ->
  exists c1,
    pass1 NDEBUG keep_relation keep_member source c = Ok c1 /\
    forall ty,
      sorted_by_id (member_meta c' ty) /\
      member_meta c' ty ≡ₚ member_meta c1 ty /\
      forall i k m, member_meta c' ty !! k = Some m ->
        ((fst (equal_range (member_meta c' ty) i) <= k
          < snd (equal_range (member_meta c' ty) i))%nat <->
         member_id m = i).
Proof.
  unfold read_relations. intros Hsort H.
  apply outcome_map_Ok_inv in H as (c1 & H & ->).
  exists c1. split; [done |]. intros ty.
  assert (sorted_by_id (member_meta (sort_member_meta std_sort c1) ty) /\
          member_meta (sort_member_meta std_sort c1) ty
          ≡ₚ member_meta c1 ty) as [Hs Hp]
    by (destruct ty; apply Hsort).
  split; [done |]. split; [done |]. intros i.
  by apply equal_range_spec.
Qed.

Lemma add_members_keep (keep : RelationMember -> bool) members :
  forall n slot rm v,
  0 <= members_needed rm ->
  members_needed rm + Z.of_nat (length members) < 2 ^ 32 ->
  add_members (fun _ m => keep m) members n slot rm v
  = (map (fun m => if keep m then m else uninteresting m) members,
     {| relation_offset := relation_offset rm;
        members_needed :=
          members_needed rm + Z.of_nat (length (filter keep members));
        members_found := members_found rm |},
     {| mm_node := mm_node v ++ index_entries keep slot node n members;
        mm_way := mm_way v ++ index_entries keep slot way n members;
        mm_relation :=
          mm_relation v ++ index_entries keep slot relation n members |}).
Proof.
  induction members as [|m members IH]; intros n slot rm v H0 Hlt.
  - simpl. rewrite !app_nil_r, Z.add_0_r. by destruct rm, v.
  - cbn [add_members map index_entries]. rewrite filter_cons.
    cbn [length] in Hlt.
    destruct (keep m) eqn:Hk.
    + rewrite IH.
      * destruct (decide (keep m)) as [_|Hn]; [|by rewrite Hk in Hn].
        f_equal; [f_equal |].
        -- simpl. f_equal. rewrite uwrap32_id by lia.
           cbn [length]. lia.
        -- destruct (member_type m); simpl;
             rewrite ?bool_decide_eq_true_2, ?bool_decide_eq_false_2 by done;
             simpl; by rewrite <- ?app_assoc, ?app_nil_r.
      * simpl. rewrite uwrap32_id by lia. lia.
      * simpl. rewrite uwrap32_id by lia. lia.
    + rewrite IH by lia.
      destruct (decide (keep m)) as [Hy|_]; [by rewrite Hk in Hy |].
      simpl. done.
Qed.

(** X20: [add_relation] of a relation of which [keep_member], deciding by
    the member alone, keeps at least one of fewer than 2^32 members:
    the copy is committed to the relations buffer with the references of
    the members not kept set to 0, a slot that holds the offset of the
    copy and needs as many members as are kept is appended, and every
    kept member gets one entry, with its reference, the number of the
    slot and its position, at the end of the member vector of its
    kind. *)
Theorem X20_add_relation_registers_the_kept_members
    (keep : RelationMember -> bool) c r :
  Buffer.clean (m_relations_buffer c) ->
  (0 < length (filter keep (r_members r)))%nat ->
  Z.of_nat (length (r_members r)) < 2 ^ 32 ->
  add_relation NDEBUG (fun _ m => keep m) c r
  = Ok {| m_relations_buffer :=
            {| Buffer.data :=
                 Buffer.data (m_relations_buffer c) ++ [stored_copy keep r];
               Buffer.committed :=
                 S (Buffer.committed (m_relations_buffer c)) |};
          m_members_buffer := m_members_buffer c;
          m_relations :=
            m_relations c
            ++ [{| relation_offset :=
                     Buffer.committed (m_relations_buffer c);
                   members_needed :=
                     Z.of_nat (length (filter keep (r_members r)));
                   members_found := 0 |}];
          m_member_meta :=
            {| mm_node :=
                 mm_node (m_member_meta c)
                 ++ index_entries keep (length (m_relations c)) node 0
                      (r_members r);
               mm_way :=
                 mm_way (m_member_meta c)
                 ++ index_entries keep (length (m_relations c)) way 0
                      (r_members r);
               mm_relation :=
                 mm_relation (m_member_meta c)
                 ++ index_entries keep (length (m_relations c)) relation 0
                      (r_members r) |};
          m_count_complete := m_count_complete c;
          calls := calls c |}.
Proof.
  intros Hclean Hkept Hlen.
  destruct c as [[data committed] mb rels v cnt cs].
  unfold Buffer.clean in Hclean. simpl in *. subst committed.
  unfold add_relation. simpl.
  unfold Buffer.get, get. simpl.
  rewrite lookup_app_r, Nat.sub_diag by lia. simpl.
  rewrite add_members_keep by (simpl; lia).
  remember (Z.of_nat (length (filter keep (r_members r)))) as k eqn:Ek.
  simpl. unfold assert. rewrite Nat.eqb_refl.
  replace (if NDEBUG then Ok () else Ok ()) with (@Ok unit ())
    by by destruct NDEBUG.
  simpl. unfold has_all_members. simpl.
  destruct k as [|k|k]; [lia | | lia].
  unfold with_relations, with_relations_buffer, Buffer.commit. simpl.
  rewrite length_insert, length_app. simpl.
  f_equal. f_equal. f_equal; [|lia].
  rewrite insert_app_r_alt, Nat.sub_diag by lia. simpl.
  by destruct r.
Qed.

Lemma add_members_general keep_member members :
  forall n slot rm v ms rm' v',
  add_members keep_member members n slot rm v = (ms, rm', v') ->
  members_found rm' = members_found rm /\
  (forall ty, exists new,
     vector_of v' ty = vector_of v ty ++ new /\
     Forall (fun e => relation_pos e = slot) new) /\
  (0 <= members_needed rm ->
   members_needed rm + Z.of_nat (length members) < 2 ^ 32 ->
   members_needed rm <= members_needed rm'
   /\ (members_needed rm' = members_needed rm -> v' = v)).
Proof.
  induction members as [|m members IH]; intros n slot rm v ms rm' v' H.
  - simpl in H. injection H as <- <- <-. split; [done |]. split.
    + intros ty. exists []. by rewrite app_nil_r.
    + intros. split; [lia | done].
  - cbn [add_members] in H. destruct (keep_member rm m).
    + destruct (add_members _ _ _ _ _ _) as [[ms1 rm1] v1] eqn:E.
      injection H as <- <- <-.
      apply IH in E as (Hf & Hnew & Hneed). split; [done |]. split.
      * intros ty. destruct (Hnew ty) as (new & Hv & HF).
        rewrite Hv, vector_of_set_vector.
        destruct (decide (ty = member_type m)) as [->|Hne].
        -- eexists. rewrite <- app_assoc. split; [done |].
           constructor; [done | done].
        -- by exists new.
      * intros H0 Hlt. cbn [length] in Hlt. simpl in Hneed.
        rewrite uwrap32_id in Hneed by lia.
        destruct Hneed as [Hle _]; [lia | lia |]. split; intros; lia.
    + destruct (add_members _ _ _ _ _ _) as [[ms1 rm1] v1] eqn:E.
      injection H as <- <- <-.
      apply IH in E as (Hf & Hnew & Hneed). split; [done |].
      split; [done |]. intros H0 Hlt. cbn [length] in Hlt.
      apply Hneed; lia.
Qed.

Lemma add_relation_in_range keep_member c r c' :
  Z.of_nat (length (r_members r)) < 2 ^ 32 ->
  Buffer.clean (m_relations_buffer c) ->
  index_in_range c ->
  add_relation NDEBUG keep_member c r = Ok c' ->
  index_in_range c'.
Proof.
  intros Hlen Hclean Hin H. unfold add_relation in H.
  inv_bind_as H stored Hstored.
  apply get_Ok_inv in Hstored. unfold Buffer.clean in Hclean.
  simpl in Hstored. rewrite <- Hclean in Hstored.
  rewrite lookup_app_r, Nat.sub_diag in Hstored by lia.
  injection Hstored as <-.
  destruct (add_members _ _ _ _ _ _) as [[ms rm] v] eqn:E.
  apply add_members_general in E as (Hf & Hnew & Hneed).
  destruct Hneed as [Hle Hsame]; [simpl; lia | simpl; lia |].
  simpl in Hf, Hle, Hsame.
  inv_bind_as H u Hu. unfold has_all_members in H. rewrite Hf in H.
  destruct (0 =? members_needed rm) eqn:Hz; injection H as <-.
  - apply Z.eqb_eq in Hz. rewrite Hsame by done.
    intros ty. apply (Hin ty).
  - intros ty. unfold member_meta. simpl. rewrite length_app. simpl.
    destruct (Hnew ty) as (new & -> & HF). apply Forall_app. split.
    + eapply Forall_impl; [apply (Hin ty) |]. simpl. intros e He. lia.
    + eapply Forall_impl; [exact HF |]. simpl. intros e ->. lia.
Qed.

Lemma pass1_in_range keep_relation keep_member source : forall c c',
  (forall r, a_relation r ∈ source ->
     Z.of_nat (length (r_members r)) < 2 ^ 32) ->
  Buffer.clean (m_relations_buffer c) ->
  index_in_range c ->
  pass1 NDEBUG keep_relation keep_member source c = Ok c' ->
  index_in_range c'.
Proof.
  induction source as [|e source IH]; intros c c' Hlen Hclean Hin H;
    simpl in H.
  - by injection H as <-.
  - assert (Hlen' : forall r, a_relation r ∈ source ->
              Z.of_nat (length (r_members r)) < 2 ^ 32).
    { intros r Hr. apply Hlen. by apply list_elem_of_further. }
    destruct e as [n|w|r]; [by eapply IH | by eapply IH |].
    inv_bind_as H c1 Hc1. unfold pass1_relation in Hc1.
    destruct (keep_relation r).
    + eapply (IH c1); [done | | | done].
      * by eapply add_relation_clean.
      * eapply add_relation_in_range; [| done | done | exact Hc1].
        apply Hlen. apply list_elem_of_here.
    + injection Hc1 as <-. by eapply IH.
Qed.

(** X21: after [read_relations] over relations of fewer than 2^32
    members each, every entry of the member vectors names a slot of the
    vector of relations, whatever [keep_relation] and [keep_member]
    decide and whatever order [std::sort] leaves equal ids in: the check
    of [relation_pos] against [m_relations.size()] in the second pass
    holds for every entry. *)
Theorem X21_index_entries_name_tracked_relations
    keep_relation keep_member std_sort source c c' :
  sorts std_sort ->
  (forall r, a_relation r ∈ source ->
     Z.of_nat (length (r_members r)) < 2 ^ 32) ->
  Buffer.clean (m_relations_buffer c) ->
  index_in_range c ->
  read_relations NDEBUG keep_relation keep_member std_sort source c
  = Ok c' ->
  index_in_range c'.
Proof.
  unfold read_relations. intros Hsort Hlen Hclean Hin H.
  apply outcome_map_Ok_inv in H as (c1 & H & ->).
  apply pass1_in_range in H; [|done..].
  intros ty. specialize (H ty).
  assert (member_meta (sort_member_meta std_sort c1) ty
          ≡ₚ member_meta c1 ty) as ->
    by (destruct ty; apply Hsort).
  exact H.
Qed.

(** *** The second pass *)

(** X22: an object of a kind the collector looks at whose id none of the
    entries of the member vector of its kind carries is handed to the
    hook [node_not_in_any_relation], [way_not_in_any_relation] or
    [relation_not_in_any_relation] of its kind; it is not copied to the
    members buffer and nothing else of the collector changes. *)
Theorem X22_object_in_no_relation_is_reported c object :
  interested TNodes TWays TRelations object = true ->
  sorted_by_id (member_meta c (type object)) ->
  (forall m, m ∈ member_meta c (type object) ->
     member_id m <> id (osmium.object object)) ->
  pass2_object NDEBUG TNodes TWays TRelations purge_deleted c object
  = Ok (call c (not_in_any_relation object)).
Proof.
  intros Hint Hs Hno. apply (equal_range_empty _ _ Hs) in Hno.
  unfold pass2_object, find_and_add_object.
  apply Nat.eqb_eq in Hno. rewrite Hno.
  destruct object; simpl in *; by rewrite Hint.
Qed.

Lemma possibly_purge_small c :
  0 <= m_count_complete c < 1000 ->
  possibly_purge_deleted_members NDEBUG purge_deleted c
  = Ok (with_count_complete c (m_count_complete c + 1)).
Proof.
  intros H. unfold possibly_purge_deleted_members.
  rewrite wrap32_id by (unfold Int.in_int32; lia).
  assert ((1000 <? m_count_complete c + 1) = false) as -> by lia. done.
Qed.

Lemma add_to_relation_index object pos it c c' :
  0 <= m_count_complete c < 1000 ->
  add_to_relation NDEBUG purge_deleted object pos it c = Ok c' ->
  m_members_buffer c' = m_members_buffer c /\
  m_relations_buffer c' = m_relations_buffer c /\
  (exists m, member_meta c (type object) !! it = Some m /\
     m_member_meta c'
     = set_vector (m_member_meta c) (type object)
         (<[it := set_buffer_offset m pos]> (member_meta c (type object)))) /\
  m_count_complete c <= m_count_complete c' <= m_count_complete c + 1.
Proof.
  intros Hcnt H. unfold add_to_relation in H.
  inv_bind_as H m Hm. apply get_Ok_inv in Hm.
  inv_bind_as H u1 Hu1. inv_bind_as H u2 Hu2. simpl in *.
  inv_bind_as H rm Hrm. inv_bind_as H u3 Hu3.
  destruct (has_all_members (got_one_member rm)).
  - rewrite possibly_purge_small in H by done. injection H as <-. simpl.
    split; [done |]. split; [done |]. split; [eauto |]. lia.
  - injection H as <-. simpl.
    split; [done |]. split; [done |]. split; [eauto |]. lia.
Qed.

(** An object that is a member, while no purge is due: the object is
    appended to the members buffer once and the loop over the range
    points the entries of its id to the copy. *)
Lemma find_and_add_object_index c object c' :
  sorted_by_id (member_meta c (type object)) ->
  0 <= m_count_complete c ->
  m_count_complete c + Z.of_nat (length (member_meta c (type object)))
    <= 1000 ->
  find_and_add_object NDEBUG purge_deleted c object = Ok (true, c') ->
  (exists m, m ∈ member_meta c (type object) /\
     member_id m = id (osmium.object object)) /\
  m_relations_buffer c' = m_relations_buffer c /\
  m_members_buffer c'
  = Buffer.commit (Buffer.add_item (m_members_buffer c) object) /\
  member_meta c' (type object)
  = pointing_to object (Buffer.committed (m_members_buffer c))
      (member_meta c (type object)) /\
  forall ty, ty <> type object -> member_meta c' ty = member_meta c ty.
Proof.
  intros Hs Hc0 Hc1 H. unfold find_and_add_object in H.
  destruct (equal_range_spec _ (id (osmium.object object)) Hs) as [Hle Hk].
  set (lo := fst (equal_range (member_meta c (type object))
                    (id (osmium.object object)))) in *.
  set (hi := snd (equal_range (member_meta c (type object))
                    (id (osmium.object object)))) in *.
  destruct (lo =? hi)%nat eqn:E; [done |]. apply Nat.eqb_neq in E.
  inv_bind_as H c1 Hloop. injection H as <-.
  set (pos := Buffer.committed (m_members_buffer c)) in *.
  set (mmv0 := member_meta c (type object)) in *.
  apply (for_loop_invariant
    (fun it c' =>
       m_members_buffer c'
       = Buffer.commit (Buffer.add_item (m_members_buffer c) object) /\
       m_relations_buffer c' = m_relations_buffer c /\
       m_count_complete c <= m_count_complete c'
         <= m_count_complete c + Z.of_nat (it - lo) /\
       (forall ty, ty <> type object ->
          member_meta c' ty = member_meta c ty) /\
       length (member_meta c' (type object)) = length mmv0 /\
       forall k, member_meta c' (type object) !! k
                 = if decide (lo <= k < it)%nat
                   then (fun m => set_buffer_offset m pos) <$> (mmv0 !! k)
                   else mmv0 !! k)) in Hloop.
  - destruct Hloop as (Hmb & Hrb & _ & Hother & Hlen & Hvec).
    split.
    { destruct (lookup_lt_is_Some_2 mmv0 lo) as [m Hm]; [lia |].
      exists m. split; [by eapply list_elem_of_lookup_2 |].
      apply (Hk lo m Hm). lia. }
    split; [done |]. split; [done |]. split; [|done].
    apply list_eq. intros k. rewrite Hvec. unfold pointing_to.
    rewrite list_lookup_fmap.
    destruct (mmv0 !! k) as [m|] eqn:Hm; simpl.
    + specialize (Hk k m Hm).
      destruct (decide (lo <= k < lo + (hi - lo))%nat) as [Hin|Hout]; simpl.
      * assert (member_id m = id (osmium.object object)) as Hid
          by (apply Hk; lia).
        apply Z.eqb_eq in Hid. by rewrite Hid.
      * destruct (member_id m =? id (osmium.object object)) eqn:Hid;
          [|done].
        apply Z.eqb_eq in Hid. apply Hk in Hid. lia.
    + by destruct (decide _).
  - simpl. split; [done |]. split; [done |]. split; [lia |].
    split; [done |]. split; [done |]. intros k.
    destruct (decide _); [lia | done].
  - clear Hloop.
    intros it st st' Hit (Hmb & Hrb & Hcnt & Hother & Hlen & Hvec) Hb.
    apply add_to_relation_index in Hb
      as (Hmb' & Hrb' & (m & Hm & Hmm) & Hcnt').
    2:{ fold mmv0 in Hc1. lia. }
    split; [by rewrite Hmb' |]. split; [by rewrite Hrb' |].
    split; [lia |].
    assert (forall ty, member_meta st' ty
              = if decide (ty = type object)
                then <[it := set_buffer_offset m pos]>
                       (member_meta st (type object))
                else member_meta st ty) as Hst'.
    { intros ty. unfold member_meta at 1. rewrite Hmm.
      apply vector_of_set_vector. }
    split; [|split].
    + intros ty Hty. rewrite Hst'. destruct (decide _); [done |].
      by apply Hother.
    + rewrite Hst'. destruct (decide _); [|done]. by rewrite length_insert.
    + intros k. rewrite Hst'.
      destruct (decide (type object = type object)); [|done].
      destruct (decide (k = it)) as [->|Hne].
      * rewrite list_lookup_insert_eq by (rewrite Hlen; lia).
        rewrite Hvec in Hm. destruct (decide (lo <= it < it)%nat); [lia |].
        rewrite Hm. destruct (decide _); [done | lia].
      * rewrite list_lookup_insert_ne by done. rewrite Hvec.
        destruct (decide (lo <= k < it)%nat), (decide (lo <= k < S it)%nat);
          try done; lia.
Qed.

(** X23: an object that is a member of several relations is stored once:
    while no purge is due, [find_and_add_object] returning true has
    appended the one copy to the members buffer and committed it, and has
    pointed every entry of the object's id, and no other entry, to the
    offset of that copy; the vectors of the other kinds and the relations
    buffer are as before. *)
Theorem X23_member_is_stored_once_for_all_its_relations c object c' :
  sorted_by_id (member_meta c (type object)) ->
  0 <= m_count_complete c ->
  m_count_complete c + Z.of_nat (length (member_meta c (type object)))
    <= 1000 ->
  find_and_add_object NDEBUG purge_deleted c object = Ok (true, c') ->
  m_members_buffer c'
  = Buffer.commit (Buffer.add_item (m_members_buffer c) object) /\
  member_meta c' (type object)
  = pointing_to object (Buffer.committed (m_members_buffer c))
      (member_meta c (type object)) /\
  (forall ty, ty <> type object -> member_meta c' ty = member_meta c ty) /\
  m_relations_buffer c' = m_relations_buffer c.
Proof.
  intros Hs H0 H1 H.
  destruct (find_and_add_object_index c object c' Hs H0 H1 H)
    as (_ & ? & ? & ? & ?).
  done.
Qed.




(** A loop that rewrites the entries of a range of a vector one by one. *)
Lemma for_loop_rewrite_range {A} (f : A -> A) (check : A -> outcome unit) :
  forall n lo (l l' : list A),
  for_loop lo n
    (fun it mmv =>
       let* m := get mmv it in
       let* _ := check m in
       Ok (<[it := f m]> mmv)) l = Ok l' ->
  length l' = length l /\
  (forall k, (k < lo)%nat \/ (lo + n <= k)%nat -> l' !! k = l !! k) /\
  (forall k, (lo <= k < lo + n)%nat -> l' !! k = f <$> (l !! k)) /\
  (forall k, (lo <= k < lo + n)%nat ->
     exists a u, l !! k = Some a /\ check a = Ok u).
Proof.
  induction n as [|n IH]; intros lo l l' H; simpl in H.
  - injection H as <-. split; [done |]. split; [done |].
    split; intros; lia.
  - inv_bind_as H l1 H1. inv_bind_as H1 m Hm. inv_bind_as H1 u Hu.
    injection H1 as <-. apply get_Ok_inv in Hm.
    apply IH in H as (Hlen' & Hout' & Hin' & Hchk).
    rewrite length_insert in Hlen'.
    split; [done |]. split; [|split].
    + intros k Hk. rewrite Hout' by lia.
      apply list_lookup_insert_ne. lia.
    + intros k Hk. destruct (decide (k = lo)) as [->|Hne].
      * rewrite Hout' by lia. rewrite Hm. simpl.
        apply list_lookup_insert_eq. by apply lookup_lt_Some in Hm.
      * rewrite Hin' by lia. by rewrite list_lookup_insert_ne by lia.
    + intros k Hk. destruct (decide (k = lo)) as [->|Hne]; [eauto |].
      destruct (Hchk k ltac:(lia)) as (a & u' & Ha & Hc).
      rewrite list_lookup_insert_ne in Ha by lia. eauto.
Qed.

(** X25: [moving_in_buffer] of the object at an offset of the members
    buffer gives the new offset to every entry of the object's id in the
    vector of its kind and changes nothing else; when asserts are
    compiled in, a call that returns has found those entries at the old
    offset. *)
Theorem X25_moving_in_buffer_retargets_the_moved_object
    members old_offset new_offset v v' object :
  Buffer.get members old_offset = Ok object ->
  sorted_by_id (vector_of v (type object)) ->
  moving_in_buffer NDEBUG members old_offset new_offset v = Ok v' ->
  (forall ty, ty <> type object -> vector_of v' ty = vector_of v ty) /\
  vector_of v' (type object)
  = pointing_to object new_offset (vector_of v (type object)) /\
  (NDEBUG = false ->
   forall m, m ∈ vector_of v (type object) ->
     member_id m = id (osmium.object object) ->
     buffer_offset m = Some old_offset).
Proof.
  intros Hobj Hs H. unfold moving_in_buffer in H. rewrite Hobj in H.
  cbn [bind] in H. inv_bind_as H mmv' Hloop. injection H as <-.
  destruct (equal_range_spec _ (id (osmium.object object)) Hs) as [Hle Hk].
  apply (for_loop_rewrite_range
           (fun m => set_buffer_offset m new_offset)
           (fun m => assert NDEBUG
                       (bool_decide (buffer_offset m = Some old_offset))))
    in Hloop as (Hlen & Hout & Hin & Hchk).
  replace (fst (equal_range (vector_of v (type object))
                  (id (osmium.object object)))
           + (snd (equal_range (vector_of v (type object))
                     (id (osmium.object object)))
              - fst (equal_range (vector_of v (type object))
                       (id (osmium.object object)))))%nat
    with (snd (equal_range (vector_of v (type object))
                 (id (osmium.object object)))) in * by lia.
  split; [|split].
  - intros ty Hty. by destruct ty, (type object).
  - assert (vector_of (set_vector v (type object) mmv') (type object) = mmv')
      as -> by by destruct (type object).
    apply list_eq. intros k. unfold pointing_to. rewrite list_lookup_fmap.
    destruct (vector_of v (type object) !! k) as [m|] eqn:Hm; simpl.
    + destruct (member_id m =? id (osmium.object object)) eqn:E.
      * apply Z.eqb_eq in E. apply (Hk k m Hm) in E.
        by rewrite Hin, Hm by lia.
      * apply Z.eqb_neq in E.
        rewrite Hout, Hm; [done |].
        destruct (le_lt_dec (fst (equal_range (vector_of v (type object))
                    (id (osmium.object object)))) k); [|lia].
        destruct (le_lt_dec (snd (equal_range (vector_of v (type object))
                    (id (osmium.object object)))) k); [lia |].
        destruct E. apply (Hk k m Hm). lia.
    + apply lookup_ge_None. rewrite Hlen. by apply lookup_ge_None.
  - intros -> m Hm Hid. apply list_elem_of_lookup in Hm as [k Hm].
    apply (Hk k m Hm) in Hid.
    destruct (Hchk k Hid) as (a & u & Ha & Hc). rewrite Hm in Ha.
    injection Ha as <-. unfold assert in Hc.
    destruct (bool_decide _) eqn:E; [|done]. by apply bool_decide_eq_true in E.
Qed.

Lemma insert_set_buffer_offset_keys mmv it m pos :
  mmv !! it = Some m ->
  map entry_key (<[it := set_buffer_offset m pos]> mmv) = map entry_key mmv.
Proof.
  intros Hm. rewrite list_fmap_insert. apply list_insert_id.
  by rewrite list_lookup_fmap, Hm.
Qed.

Lemma set_vector_keys v ty l :
  map entry_key l = map entry_key (vector_of v ty) ->
  forall ty', map entry_key (vector_of (set_vector v ty l) ty')
              = map entry_key (vector_of v ty').
Proof.
  intros H ty'. rewrite vector_of_set_vector.
  destruct (decide (ty' = ty)) as [->|]; done.
Qed.

Lemma moving_in_buffer_keys members old_offset new_offset v v' :
  moving_in_buffer NDEBUG members old_offset new_offset v = Ok v' ->
  forall ty, map entry_key (vector_of v' ty) = map entry_key (vector_of v ty).
Proof.
  unfold moving_in_buffer. intros H.
  inv_bind_as H object Hobj. inv_bind_as H mmv' Hloop. injection H as <-.
  apply set_vector_keys.
  apply (for_loop_invariant
           (fun _ mmv => map entry_key mmv
                         = map entry_key (vector_of v (type object))))
    in Hloop; [done | done |].
  intros i st st' _ Hkeys Hst. inv_bind_as Hst m Hm. inv_bind Hst.
  injection Hst as <-. apply get_Ok_inv in Hm.
  by rewrite insert_set_buffer_offset_keys.
Qed.

Lemma apply_moves_keys members moves : forall v v',
  apply_moves NDEBUG members moves v = Ok v' ->
  forall ty, map entry_key (vector_of v' ty) = map entry_key (vector_of v ty).
Proof.
  induction moves as [|[o n] moves IH]; intros v v' H ty; simpl in H.
  - by injection H as <-.
  - inv_bind_as H v1 Hv1. rewrite (IH _ _ H).
    by apply (moving_in_buffer_keys _ _ _ _ _ Hv1).
Qed.

Lemma possibly_purge_keys c c' :
  possibly_purge_deleted_members NDEBUG purge_deleted c = Ok c' ->
  forall ty, map entry_key (member_meta c' ty)
             = map entry_key (member_meta c ty).
Proof.
  unfold possibly_purge_deleted_members. intros H ty.
  destruct (1000 <? _).
  - destruct (purge_deleted _) as [purged moves]. inv_bind_as H v Hv.
    injection H as <-. by apply (apply_moves_keys _ _ _ _ Hv).
  - by injection H as <-.
Qed.

Lemma add_to_relation_keys object pos it c c' :
  add_to_relation NDEBUG purge_deleted object pos it c = Ok c' ->
  forall ty, map entry_key (member_meta c' ty)
             = map entry_key (member_meta c ty).
Proof.
  unfold add_to_relation. intros H ty.
  inv_bind_as H m Hm. apply get_Ok_inv in Hm.
  inv_bind_as H u1 Hu1. inv_bind_as H u2 Hu2. simpl in *.
  inv_bind_as H rm Hrm. inv_bind_as H u3 Hu3.
  assert (Hset : map entry_key
            (vector_of
               (set_vector (m_member_meta c) (type object)
                  (<[it:=set_buffer_offset m pos]>
                     (member_meta c (type object)))) ty)
          = map entry_key (member_meta c ty)).
  { apply set_vector_keys. by apply insert_set_buffer_offset_keys. }
  destruct (has_all_members (got_one_member rm)).
  - apply possibly_purge_keys with (ty := ty) in H. by rewrite H.
  - by injection H as <-.
Qed.

Lemma find_and_add_object_keys c object r :
  find_and_add_object NDEBUG purge_deleted c object = Ok r ->
  forall ty, map entry_key (member_meta (snd r) ty)
             = map entry_key (member_meta c ty).
Proof.
  unfold find_and_add_object. intros H ty.
  destruct (_ =? _)%nat; [by injection H as <- |].
  inv_bind_as H c1 Hloop. injection H as <-. simpl.
  apply (for_loop_invariant
           (fun _ c' => map entry_key (member_meta c' ty)
                        = map entry_key (member_meta c ty)))
    in Hloop; [done | done |].
  intros i st st' _ Hkeys Hst.
  by rewrite (add_to_relation_keys _ _ _ _ _ Hst).
Qed.

Lemma pass2_object_keys c object c' :
  pass2_object NDEBUG TNodes TWays TRelations purge_deleted c object = Ok c' ->
  forall ty, map entry_key (member_meta c' ty)
             = map entry_key (member_meta c ty).
Proof.
  unfold pass2_object. intros H ty.
  destruct (match object with a_node _ => _ | _ => _ end);
    [|by injection H as <-].
  inv_bind_as H r Hr. apply find_and_add_object_keys with (ty := ty) in Hr.
  destruct (fst r); injection H as <-; done.
Qed.

Lemma sorted_by_id_keys l l' :
  map entry_key l' = map entry_key l -> sorted_by_id l -> sorted_by_id l'.
Proof.
  unfold sorted_by_id. intros Hk Hs.
  assert (map member_id l' = map member_id l) as Hid.
  { apply (f_equal (map (fun k => fst (fst k)))) in Hk.
    by rewrite !map_map in Hk. }
  clear Hk. revert l' Hid.
  induction Hs as [|a l Hl IH Ha]; intros [|a' l'] Hid; try done.
  - constructor.
  - injection Hid as Ha' Hid. constructor; [by apply IH |].
    rewrite Ha'. apply Forall_forall. intros b' Hb'.
    apply list_elem_of_lookup in Hb' as [i Hi].
    assert (map member_id l' !! i = Some (member_id b')) as Hm
      by by rewrite list_lookup_fmap, Hi.
    rewrite Hid, list_lookup_fmap in Hm.
    destruct (l !! i) as [b|] eqn:Hb; [|done]. injection Hm as <-.
    rewrite Forall_lookup in Ha. by apply (Ha i).
Qed.

(** X26: the second pass, purges included, never changes what the member
    vectors are an index of: every entry keeps its member id, the slot of
    its relation and its position, in the same place, so vectors that
    were sorted stay sorted and [std::equal_range] stays usable for
    every object of the pass. *)
Theorem X26_pass2_keeps_the_index source : forall c c',
  pass2 NDEBUG TNodes TWays TRelations purge_deleted source c = Ok c' ->
  forall ty,
    map entry_key (member_meta c' ty) = map entry_key (member_meta c ty) /\
    (sorted_by_id (member_meta c ty) -> sorted_by_id (member_meta c' ty)).
Proof.
  assert (Hkeys : forall c c',
    pass2 NDEBUG TNodes TWays TRelations purge_deleted source c = Ok c' ->
    forall ty, map entry_key (member_meta c' ty)
               = map entry_key (member_meta c ty)).
  { induction source as [|object source IH]; intros c c' H ty; simpl in H.
    - by injection H as <-.
    - inv_bind_as H c1 Hc1. rewrite (IH _ _ H).
      by apply (pass2_object_keys _ _ _ Hc1). }
  intros c c' H ty. split; [by apply Hkeys |].
  apply sorted_by_id_keys. by apply Hkeys.
Qed.

End CollectorMore.

Lemma sample_way_vector_sorted :
  sorted_by_id
    (relations.Collector.member_meta Sample.collector_with_R1 osmium.way).
Proof. repeat constructor; simpl; lia. Defined.

Lemma X19_witness :
  sorts Sample.insertion_sort /\
  exists c',
    relations.Collector.read_relations false Sample.keep_all_relations
      Sample.keep_all_members Sample.insertion_sort
      [osmium.a_relation Sample.R1] relations.Collector.new = Ok c' /\
    exists c1,
      relations.Collector.pass1 false Sample.keep_all_relations
        Sample.keep_all_members [osmium.a_relation Sample.R1]
        relations.Collector.new = Ok c1 /\
      forall ty,
        sorted_by_id (relations.Collector.member_meta c' ty) /\
        relations.Collector.member_meta c' ty
        ≡ₚ relations.Collector.member_meta c1 ty /\
        forall i k m,
          relations.Collector.member_meta c' ty !! k = Some m ->
          ((fst (relations.equal_range
                   (relations.Collector.member_meta c' ty) i) <= k
            < snd (relations.equal_range
                     (relations.Collector.member_meta c' ty) i))%nat <->
           relations.member_id m = i).
Proof.
  split; [exact insertion_sort_sorts |].
  eexists. split; [reflexivity |].
  apply (X19_read_relations_sorts_the_index false
           Sample.keep_all_relations Sample.keep_all_members
           Sample.insertion_sort
           [osmium.a_relation Sample.R1] relations.Collector.new).
  - exact insertion_sort_sorts.
  - reflexivity.
Defined.

Lemma X20_witness :
  Buffer.clean
    (relations.Collector.m_relations_buffer relations.Collector.new) /\
  (0 < length (filter Sample.is_way (osmium.r_members Sample.R1)))%nat /\
  relations.Collector.add_relation false (fun _ m => Sample.is_way m)
    relations.Collector.new Sample.R1
  = Ok Sample.collector_with_R1.
Proof.
  split; [reflexivity |]. split; [vm_compute; lia |].
  rewrite (X20_add_relation_registers_the_kept_members false Sample.is_way
             relations.Collector.new Sample.R1).
  - reflexivity.
  - reflexivity.
  - vm_compute. lia.
  - vm_compute. reflexivity.
Defined.

Lemma X21_witness :
  sorts Sample.insertion_sort /\
  exists c',
    relations.Collector.read_relations false Sample.keep_all_relations
      Sample.keep_all_members Sample.insertion_sort
      [osmium.a_relation Sample.R1] relations.Collector.new = Ok c' /\
    index_in_range c'.
Proof.
  split; [exact insertion_sort_sorts |].
  eexists. split; [reflexivity |].
  apply (X21_index_entries_name_tracked_relations false
           Sample.keep_all_relations Sample.keep_all_members
           Sample.insertion_sort
           [osmium.a_relation Sample.R1] relations.Collector.new).
  - exact insertion_sort_sorts.
  - intros r Hr. apply list_elem_of_singleton in Hr. injection Hr as ->.
    vm_compute. reflexivity.
  - reflexivity.
  - intros ty. destruct ty; constructor.
  - reflexivity.
Defined.

Lemma X22_witness :
  relations.Collector.pass2_object false false true false
    Sample.purge_nothing Sample.collector_with_R1 (Sample.a_way_of 9)
  = Ok (relations.Collector.call Sample.collector_with_R1
          (relations.way_not_in_any_relation 9)).
Proof.
  apply (X22_object_in_no_relation_is_reported false false true false
           Sample.purge_nothing Sample.collector_with_R1 (Sample.a_way_of 9)).
  - reflexivity.
  - exact sample_way_vector_sorted.
  - intros m Hm. simpl in Hm.
    apply elem_of_cons in Hm as [-> | Hm]; [simpl; lia |].
    apply list_elem_of_singleton in Hm as ->. simpl. lia.
Defined.

Lemma X23_witness :
  exists c',
    relations.Collector.find_and_add_object false Sample.purge_nothing
      Sample.collector_with_R1 (Sample.a_way_of 7) = Ok (true, c') /\
    relations.Collector.m_members_buffer c' = Sample.members_with_way_7 /\
    relations.Collector.member_meta c' osmium.way
    = relations.mm_way Sample.vectors_with_way_7.
Proof.
  eexists. split; [reflexivity |].
  destruct (X23_member_is_stored_once_for_all_its_relations false
              Sample.purge_nothing Sample.collector_with_R1
              (Sample.a_way_of 7) _ sample_way_vector_sorted
              ltac:(simpl; lia) ltac:(simpl; lia) eq_refl)
    as (Hmb & Hvec & _).
  split; [exact Hmb | exact Hvec].
Defined.


Lemma X25_witness :
  exists v',
    relations.Collector.moving_in_buffer false Sample.members_with_way_7 0 5
      Sample.vectors_with_way_7 = Ok v' /\
    (forall ty, ty <> osmium.way ->
       relations.vector_of v' ty
       = relations.vector_of Sample.vectors_with_way_7 ty) /\
    relations.vector_of v' osmium.way
    = pointing_to (Sample.a_way_of 7) 5
        (relations.mm_way Sample.vectors_with_way_7) /\
    (false = false ->
     forall m, m ∈ relations.mm_way Sample.vectors_with_way_7 ->
       relations.member_id m = 7 ->
       relations.buffer_offset m = Some 0%nat).
Proof.
  eexists. split; [reflexivity |].
  apply (X25_moving_in_buffer_retargets_the_moved_object false
           Sample.members_with_way_7 0 5 Sample.vectors_with_way_7 _
           (Sample.a_way_of 7) eq_refl).
  - repeat constructor; simpl; lia.
  - reflexivity.
Defined.

Lemma X26_witness :
  exists c',
    relations.Collector.pass2 false false true false Sample.purge_nothing
      [Sample.a_way_of 7; Sample.a_way_of 9; Sample.a_way_of 8]
      Sample.collector_with_R1 = Ok c' /\
    forall ty,
      map entry_key (relations.Collector.member_meta c' ty)
      = map entry_key
          (relations.Collector.member_meta Sample.collector_with_R1 ty) /\
      (sorted_by_id
         (relations.Collector.member_meta Sample.collector_with_R1 ty) ->
       sorted_by_id (relations.Collector.member_meta c' ty)).
Proof.
  eexists. split; [reflexivity |].
  apply (X26_pass2_keeps_the_index false false true false
           Sample.purge_nothing
           [Sample.a_way_of 7; Sample.a_way_of 9; Sample.a_way_of 8]
           Sample.collector_with_R1).
  reflexivity.
Defined.

(** ** The reader *)

Section ReaderFacts.

Import Reader.

Lemma substr_0_find s c k :
  find_first_of s c = Some k ->
  exists rest, s = (substr_0 s (Some k) +:+ String c rest)%string.
Proof.
  revert k. induction s as [|a s IH]; intros k; simpl; [done |].
  destruct (Ascii.eqb a c) eqn:E.
  - apply Ascii.eqb_eq in E. subst a. intros [= <-]. by exists s.
  - destruct (find_first_of s c) as [k'|]; [|done]. intros [= <-].
    destruct (IH k' eq_refl) as (rest & Hs). exists rest.
    simpl in *.
    change (String a s
            = String a (substring 0 k' s +:+ String c rest)%string).
    by f_equal.
Qed.

Lemma find_first_of_app_None p c rest :
  find_first_of p c = None ->
  find_first_of (p +:+ String c rest) c = Some (String.length p) /\
  substr_0 (p +:+ String c rest) (Some (String.length p)) = p.
Proof.
  induction p as [|a p IH].
  - intros _. simpl. rewrite Ascii.eqb_refl. done.
  - intros H.
    change (String a p +:+ String c rest)%string
      with (String a (p +:+ String c rest)%string).
    simpl in *. destruct (Ascii.eqb a c); [done |].
    destruct (find_first_of p c); [done |].
    destruct IH as [-> Hs]; [done |]. split; [done |].
    simpl in Hs. by rewrite Hs.
Qed.

Lemma protocol_eqb_elem_of protocol :
  String.eqb protocol "http" || String.eqb protocol "https"
  || String.eqb protocol "ftp" || String.eqb protocol "file" = true
  <-> protocol ∈ url_protocols.
Proof.
  unfold url_protocols. rewrite !orb_true_iff, !String.eqb_eq.
  rewrite !elem_of_cons, elem_of_nil. tauto.
Qed.

(** X27: [open_input_file_or_url] hands a file name to curl exactly when
    the text before its first colon, or the whole name if it has no
    colon, is one of http, https, ftp and file; so a file of the working
    directory that is called file or http is not opened but fetched. *)
Theorem X27_url_is_told_by_the_text_before_the_first_colon filename :
  open_input_file_or_url filename = execute_curl filename <->
  exists protocol,
    protocol ∈ url_protocols /\
    (filename = protocol \/
     exists rest, filename = (protocol +:+ String colon rest)%string).
Proof.
  unfold open_input_file_or_url. fold colon. split.
  - destruct (_ || _) eqn:E; [|done]. intros _.
    apply protocol_eqb_elem_of in E.
    eexists. split; [exact E |].
    destruct (find_first_of filename colon) as [k|] eqn:Hk.
    + right. by apply substr_0_find.
    + by left.
  - intros (protocol & Hp & Hf).
    assert (find_first_of protocol colon = None) as Hnone.
    { unfold url_protocols in Hp.
      repeat (apply elem_of_cons in Hp as [-> | Hp]; [reflexivity |]).
      by apply elem_of_nil in Hp. }
    assert (substr_0 filename (find_first_of filename colon) = protocol)
      as ->.
    { destruct Hf as [-> | (rest & ->)].
      - by rewrite Hnone.
      - by destruct (find_first_of_app_None protocol colon rest Hnone)
          as [-> ?]. }
    apply protocol_eqb_elem_of in Hp. by rewrite Hp.
Qed.

End ReaderFacts.
